(** * Workbook importer and bulk status updater: a shallow embedding

    The development follows [backend/scripts/import_excel_data.py] and
    [backend/scripts/update_status.py].

    Text.  A Python [str] is modelled as a Rocq [string] read as a sequence
    of code points, one [ascii] per code point, hence code points 0..255
    (the Latin-1 block, which holds the accented letters of the header
    keywords).  Character classes ([str.isspace], the [\s] and [\d] of
    [re]) and case mappings are those of Python on that range; the two
    letters whose upper case lies above U+00FF (U+00B5, U+00FF) are left
    unchanged by [upper], so a text that holds one of them is outside the
    model wherever it is put in upper case: what is stated of a text in
    upper case is stated for the texts without them, or holds of them as
    well in Python (a length from below, the absence of the letters a to
    z).  No length of a text in upper case is bounded from above, since
    outside the range a character may give three.

    Store.  Each MongoDB collection is the list of its records in insertion
    order; [find_one] and [update_one] act on the first record that matches
    the filter.  Object ids are drawn from a counter, [datetime.now()] reads
    a logical clock that advances at every reading, and [print] appends to
    the console.  A time is thus the rank of the reading that gave it: the
    order of two times is the order of their readings, and that two times
    differ says nothing of the code, where two readings in a row often give
    the same instant. *)

From Stdlib Require Import Bool Arith Lia List NArith FinFun.
From Stdlib Require Import Ascii String DecimalString DecimalNat.
Import ListNotations.

Local Open Scope list_scope.
Local Open Scope string_scope.

(** ** Python string primitives *)

Module PyStr.

Definition code (c : ascii) : N := N_of_ascii c.

Definition in_range (lo hi : N) (c : ascii) : bool :=
  (N.leb lo (code c) && N.leb (code c) hi)%bool.

(** [str.isspace] on one character; also the class [\s] of [re]. *)
Definition isspace (c : ascii) : bool :=
  (in_range 9 13 c || in_range 28 32 c
   || N.eqb (code c) 133 || N.eqb (code c) 160)%bool.

(** The class [\d] of [re]. *)
Definition isdigit (c : ascii) : bool := in_range 48 57 c.

Definition shift_up (c : ascii) : ascii := ascii_of_N (code c - 32).
Definition shift_down (c : ascii) : ascii := ascii_of_N (code c + 32).

(** [str.lower] on one character. *)
Definition lower_char (c : ascii) : ascii :=
  if (in_range 65 90 c
      || (in_range 192 222 c && negb (N.eqb (code c) 215)))%bool
  then shift_down c else c.

(** [str.upper] on one character; U+00DF becomes two letters. *)
Definition upper_char (c : ascii) : string :=
  if (in_range 97 122 c
      || (in_range 224 254 c && negb (N.eqb (code c) 247)))%bool
  then String (shift_up c) ""
  else if N.eqb (code c) 223 then "SS"
  else String c "".

Fixpoint lower (s : string) : string :=
  match s with
  | "" => ""
  | String c r => String (lower_char c) (lower r)
  end.

Fixpoint upper (s : string) : string :=
  match s with
  | "" => ""
  | String c r => upper_char c ++ upper r
  end.

(** The slice [s[:n]]. *)
Fixpoint take (n : nat) (s : string) : string :=
  match n, s with
  | S n', String c r => String c (take n' r)
  | _, _ => ""
  end.

Definition is_empty (s : string) : bool :=
  match s with "" => true | _ => false end.

Fixpoint lstrip (s : string) : string :=
  match s with
  | String c r => if isspace c then lstrip r else s
  | "" => ""
  end.

Fixpoint rstrip (s : string) : string :=
  match s with
  | "" => ""
  | String c r =>
      let r' := rstrip r in
      if (is_empty r' && isspace c)%bool then "" else String c r'
  end.

(** [s.strip()] *)
Definition strip (s : string) : string := rstrip (lstrip s).

(** [needle in s] *)
Fixpoint contains (needle s : string) : bool :=
  (prefix needle s
   || match s with
      | "" => false
      | String _ r => contains needle r
      end)%bool.

(** [re.split] on a one-character class: every separator ends a piece. *)
Fixpoint split_on (sep : ascii -> bool) (s : string) : list string :=
  match s with
  | "" => [""]
  | String c r =>
      if sep c then "" :: split_on sep r
      else match split_on sep r with
           | p :: ps => String c p :: ps
           | [] => [String c ""]
           end
  end.

(** Longest prefix made of characters of a class, and the rest. *)
Fixpoint span (p : ascii -> bool) (s : string) : string * string :=
  match s with
  | "" => ("", "")
  | String c r =>
      if p c then let (a, b) := span p r in (String c a, b)
      else ("", s)
  end.

(** [s.split()] : the maximal runs of non-blank characters. *)
Fixpoint words_aux (cur : string) (s : string) : list string :=
  match s with
  | "" => if is_empty cur then [] else [cur]
  | String c r =>
      if isspace c
      then (if is_empty cur then words_aux "" r else cur :: words_aux "" r)
      else words_aux (cur ++ String c "") r
  end.

Definition words (s : string) : list string := words_aux "" s.

(** [s.replace(" ", "")] *)
Fixpoint remove_spaces (s : string) : string :=
  match s with
  | "" => ""
  | String c r =>
      if Ascii.eqb c " " then remove_spaces r else String c (remove_spaces r)
  end.

(** [str(n)] for a non-negative integer. *)
Definition str_nat (n : nat) : string :=
  NilEmpty.string_of_uint (Nat.to_uint n).

(** ["".join(l)] *)
Definition join (l : list string) : string :=
  fold_right append "" l.

(** [w[0]] for each non-empty [w]. *)
Definition first_letters (ws : list string) : list string :=
  flat_map (fun w => match w with
                     | "" => []
                     | String c _ => [String c ""]
                     end) ws.

End PyStr.

Import PyStr.

(** ** Spreadsheet cells and frames *)

(** A cell is missing ([NaN], what [pd.isna] recognises) or holds a value,
    kept as the text [str] renders it to. *)
Inductive Cell : Type :=
| NaN
| Text (s : string).

Definition str_cell (x : Cell) : string :=
  match x with
  | NaN => "nan"
  | Text s => s
  end.

Definition clean_text (text : Cell) : string :=
  match text with
  | NaN => ""
  | Text s => strip s
  end.

(** A frame read with [header=None]: its rows, top to bottom. *)
Definition DataFrame : Type := list (list Cell).

Definition shape0 (df : DataFrame) : nat := List.length df.
Definition shape1 (df : DataFrame) : nat :=
  match df with
  | [] => 0
  | r :: _ => List.length r
  end.

(** ** Macro extraction *)

Definition nl : ascii := "010"%char.
Definition a_circ : ascii := "226"%char.
Definition e_acute : ascii := "233"%char.

(** The class [[:|-]] of the title pattern. *)
Definition title_sep (c : ascii) : bool :=
  (Ascii.eqb c ":" || Ascii.eqb c "|" || Ascii.eqb c "-")%bool.

(** A literal under [re.IGNORECASE]: returns the text matched and the rest. *)
Fixpoint match_literal_ci (lit s : string) : option (string * string) :=
  match lit, s with
  | "", _ => Some ("", s)
  | String l lit', String c r =>
      if Ascii.eqb (lower_char c) l
      then match match_literal_ci lit' r with
           | Some (m, rest) => Some (String c m, rest)
           | None => None
           end
      else None
  | String _ _, "" => None
  end.

(** The title pattern anchored at the start of [s]: the literal Macro, any
    blanks, one or more digits (first group, blanks included); any blanks, a
    separator, any blanks; then the rest of the line (second group).
    The classes that follow one another are disjoint and the last group may
    be empty, so the greedy choice at each repetition is the only one that
    can succeed and no backtracking is involved. *)
Definition match_title_here (sep : ascii -> bool) (s : string)
  : option (string * string) :=
  match match_literal_ci "macro" s with
  | None => None
  | Some (lit, r1) =>
      let (ws, r2) := span isspace r1 in
      let (ds, r3) := span isdigit r2 in
      if is_empty ds then None
      else
        let (_, r4) := span isspace r3 in
        match r4 with
        | "" => None
        | String c r5 =>
            if sep c then
              let (_, r6) := span isspace r5 in
              let (g2, _) := span (fun x => negb (Ascii.eqb x nl)) r6 in
              Some (lit ++ ws ++ ds, g2)
            else None
        end
  end.

(** [re.search]: the leftmost position where the pattern matches. *)
Fixpoint search_title (sep : ascii -> bool) (s : string)
  : option (string * string) :=
  match match_title_here sep s with
  | Some g => Some g
  | None =>
      match s with
      | "" => None
      | String _ r => search_title sep r
      end
  end.

(** Code and name of the macro of a sheet. *)
Definition extract_macro (macro_text sheet_name : string) : string * string :=
  match search_title title_sep macro_text with
  | Some (g1, g2) => (remove_spaces g1, strip g2)
  | None => (remove_spaces (take 10 sheet_name), sheet_name)
  end.

Definition short_description (macro_desc : string) : string :=
  if Nat.ltb 100 (String.length macro_desc)
  then take 100 macro_desc ++ "..."
  else macro_desc.

(** ** Stakeholder names and base codes *)

Definition dir_sep (c : ascii) : bool :=
  (Ascii.eqb c nl || Ascii.eqb c ",")%bool.

(** The names kept from a directions cell, in order. *)
Definition candidate_names (d_content : string) : list string :=
  if is_empty d_content then []
  else filter (fun dir_name => Nat.ltb 1 (String.length dir_name))
              (map strip (split_on dir_sep d_content)).

Definition base_code_of (dir_name : string) : string :=
  if Nat.ltb 1 (List.length (words dir_name))
  then upper (take 4 (join (first_letters (words dir_name))))
  else upper (take 3 dir_name).

Example ex_names :
  map (fun n => (n, base_code_of n))
      (candidate_names "Direction Network Engineering, IT")
  = [("Direction Network Engineering", "DNE"); ("IT", "IT")].
Proof. reflexivity. Qed.

Example ex_macro :
  extract_macro "Macro 03: Network Security" "Sheet1"
  = ("Macro03", "Network Security").
Proof. reflexivity. Qed.

(** ** Records of the four collections *)

Definition ObjectId : Type := nat.
Definition Time : Type := nat.

Record Macro : Type := mkMacro {
  m_id : ObjectId;
  m_code : string;
  m_name : string;
  m_short_description : string;
  m_description : string;
  m_created_by : ObjectId;
  m_created_at : Time;
  m_updated_at : Time
}.

Record Department : Type := mkDepartment {
  d_id : ObjectId;
  d_name : string;
  d_code : string;
  d_active : bool;
  d_created_at : Time;
  d_updated_at : Time
}.

Record JobPosition : Type := mkJobPosition {
  j_id : ObjectId;
  j_title : string;
  j_department_id : ObjectId;
  j_code : string;
  j_active : bool;
  j_created_at : Time;
  j_updated_at : Time
}.

Record Task : Type := mkTask {
  t_code : string;
  t_description : string;
  t_order : nat
}.

Record Contributors : Type := mkContributors {
  authors : list string;
  verifiers : list string;
  validators : list string
}.

Record Metadata : Type := mkMetadata {
  objectives : list string;
  implicated_actors : list string;
  management_rules : list string;
  terminology : list string;
  change_history : list string
}.

Record Document : Type := mkDocument {
  doc_id : ObjectId;
  doc_macro_id : ObjectId;
  doc_process_code : string;
  doc_title : string;
  doc_description : string;
  doc_stakeholders : list string;
  doc_tasks : list Task;
  doc_status : string;
  doc_version : string;
  doc_is_active : bool;
  doc_created_by : ObjectId;
  doc_created_at : Time;
  doc_updated_at : Time;
  doc_contributors : Contributors;
  doc_metadata : Metadata
}.

(** ** The world a script runs in *)

Record World : Type := mkWorld {
  macros : list Macro;
  departments : list Department;
  job_positions : list JobPosition;
  documents : list Document;
  next_id : ObjectId;
  clock : Time;
  console : list string
}.

Definition empty_world : World := mkWorld [] [] [] [] 0 0 [].

Definition set_macros (l : list Macro) (w : World) : World :=
  mkWorld l (departments w) (job_positions w) (documents w)
          (next_id w) (clock w) (console w).
Definition set_departments (l : list Department) (w : World) : World :=
  mkWorld (macros w) l (job_positions w) (documents w)
          (next_id w) (clock w) (console w).
Definition set_job_positions (l : list JobPosition) (w : World) : World :=
  mkWorld (macros w) (departments w) l (documents w)
          (next_id w) (clock w) (console w).
Definition set_documents (l : list Document) (w : World) : World :=
  mkWorld (macros w) (departments w) (job_positions w) l
          (next_id w) (clock w) (console w).
Definition set_next_id (n : ObjectId) (w : World) : World :=
  mkWorld (macros w) (departments w) (job_positions w) (documents w)
          n (clock w) (console w).
Definition set_clock (t : Time) (w : World) : World :=
  mkWorld (macros w) (departments w) (job_positions w) (documents w)
          (next_id w) t (console w).
Definition set_console (l : list string) (w : World) : World :=
  mkWorld (macros w) (departments w) (job_positions w) (documents w)
          (next_id w) (clock w) l.

(** ** A state and exception monad *)

Inductive Exn : Type := IndexError | TypeError.

Inductive Outcome (A : Type) : Type :=
| Ok (a : A) (w : World)
| Raised (e : Exn) (w : World).
Arguments Ok {A} a w.
Arguments Raised {A} e w.

Definition M (A : Type) : Type := World -> Outcome A.

Definition ret {A} (a : A) : M A := fun w => Ok a w.
Definition raise {A} (e : Exn) : M A := fun w => Raised e w.
Definition bind {A B} (m : M A) (k : A -> M B) : M B :=
  fun w => match m w with
           | Ok a w' => k a w'
           | Raised e w' => Raised e w'
           end.

Notation "x <- m ;; k" := (bind m (fun x => k))
  (at level 61, m at next level, right associativity).
Notation "m ;; k" := (bind m (fun _ => k))
  (at level 61, right associativity).

Definition gets {A} (f : World -> A) : M A := fun w => Ok (f w) w.
Definition modify (f : World -> World) : M unit := fun w => Ok tt (f w).

(** [datetime.now()] *)
Definition now : M Time :=
  fun w => Ok (clock w) (set_clock (S (clock w)) w).

(** [print(s)] *)
Definition print (s : string) : M unit :=
  modify (fun w => set_console (console w ++ [s])%list w).

Fixpoint for_each {A S} (body : A -> S -> M S) (l : list A) (s : S) : M S :=
  match l with
  | [] => ret s
  | x :: r => s' <- body x s ;; for_each body r s'
  end.

(** ** Collection operations *)

(** The first record that satisfies the filter is rewritten. *)
Fixpoint update_first {A} (p : A -> bool) (f : A -> A) (l : list A) : list A :=
  match l with
  | [] => []
  | x :: r => if p x then f x :: r else x :: update_first p f r
  end.

(** [update_one(filter, update, upsert=True)]: the first match is updated,
    and when there is none a record is inserted under a new id. *)
Definition upsert {A} (p : A -> bool) (on_match : A -> A)
    (on_insert : ObjectId -> A) (l : list A) (nid : ObjectId)
  : list A * ObjectId :=
  if existsb p l then (update_first p on_match l, nid)
  else ((l ++ [on_insert nid])%list, S nid).

Definition macro_has_code (c : string) (m : Macro) : bool :=
  String.eqb (m_code m) c.
Definition dept_has_code (c : string) (d : Department) : bool :=
  String.eqb (d_code d) c.
Definition dept_has_name (n : string) (d : Department) : bool :=
  String.eqb (d_name d) n.
Definition jp_has_key (title : string) (dep : ObjectId) (j : JobPosition)
  : bool :=
  (String.eqb (j_title j) title && Nat.eqb (j_department_id j) dep)%bool.
Definition doc_has_key (title : string) (macro : ObjectId) (d : Document)
  : bool :=
  (String.eqb (doc_title d) title && Nat.eqb (doc_macro_id d) macro)%bool.
Definition doc_has_id (i : ObjectId) (d : Document) : bool :=
  Nat.eqb (doc_id d) i.

Definition macro_with_id (i : ObjectId) (m : Macro) : Macro :=
  mkMacro i (m_code m) (m_name m) (m_short_description m) (m_description m)
          (m_created_by m) (m_created_at m) (m_updated_at m).

Definition doc_with_id (i : ObjectId) (d : Document) : Document :=
  mkDocument i (doc_macro_id d) (doc_process_code d) (doc_title d)
    (doc_description d) (doc_stakeholders d) (doc_tasks d) (doc_status d)
    (doc_version d) (doc_is_active d) (doc_created_by d) (doc_created_at d)
    (doc_updated_at d) (doc_contributors d) (doc_metadata d).

Definition doc_with_tasks (ts : list Task) (d : Document) : Document :=
  mkDocument (doc_id d) (doc_macro_id d) (doc_process_code d) (doc_title d)
    (doc_description d) (doc_stakeholders d) ts (doc_status d)
    (doc_version d) (doc_is_active d) (doc_created_by d) (doc_created_at d)
    (doc_updated_at d) (doc_contributors d) (doc_metadata d).

Definition doc_with_status (s : string) (d : Document) : Document :=
  mkDocument (doc_id d) (doc_macro_id d) (doc_process_code d) (doc_title d)
    (doc_description d) (doc_stakeholders d) (doc_tasks d) s
    (doc_version d) (doc_is_active d) (doc_created_by d) (doc_created_at d)
    (doc_updated_at d) (doc_contributors d) (doc_metadata d).

(** [macros_col.update_one({'code': c}, {'$set': macro_doc}, upsert=True)];
    [macro_doc] carries every field but the id. *)
Definition upsert_macro (macro_doc : Macro) : M unit :=
  modify (fun w =>
    let (l, n) := upsert (macro_has_code (m_code macro_doc))
                    (fun old => macro_with_id (m_id old) macro_doc)
                    (fun i => macro_with_id i macro_doc)
                    (macros w) (next_id w) in
    set_next_id n (set_macros l w)).

(** [update_one({'name': n}, {'$setOnInsert': ...}, upsert=True)] *)
Definition insert_department_if_absent (name code : string) (t1 t2 : Time)
  : M unit :=
  modify (fun w =>
    let (l, n) := upsert (dept_has_name name) (fun old => old)
                    (fun i => mkDepartment i name code true t1 t2)
                    (departments w) (next_id w) in
    set_next_id n (set_departments l w)).

(** [update_one({'title': n, 'department_id': dep},
                {'$setOnInsert': ...}, upsert=True)] *)
Definition insert_job_position_if_absent (title : string) (dep : ObjectId)
    (code : string) (t1 t2 : Time) : M unit :=
  modify (fun w =>
    let (l, n) := upsert (jp_has_key title dep) (fun old => old)
                    (fun i => mkJobPosition i title dep code true t1 t2)
                    (job_positions w) (next_id w) in
    set_next_id n (set_job_positions l w)).

(** [documents_col.update_one({'title': t, 'macro_id': m},
                              {'$set': doc_data}, upsert=True)] *)
Definition upsert_document (doc_data : Document) : M unit :=
  modify (fun w =>
    let (l, n) := upsert (doc_has_key (doc_title doc_data)
                                      (doc_macro_id doc_data))
                    (fun old => doc_with_id (doc_id old) doc_data)
                    (fun i => doc_with_id i doc_data)
                    (documents w) (next_id w) in
    set_next_id n (set_documents l w)).

(** [documents_col.update_one({'_id': i}, {'$set': {'tasks': ts}})] *)
Definition set_document_tasks (i : ObjectId) (ts : list Task) : M unit :=
  modify (fun w =>
    set_documents (update_first (doc_has_id i) (doc_with_tasks ts)
                                (documents w)) w).

(** ** Department codes *)

(** The [while True] loop that probes the department codes.  Each round
    looks the candidate up; [fuel] bounds the rounds. *)
Fixpoint probe_loop (fuel : nat) (depts : list Department)
    (base_code dir_name candidate_code : string) (counter : nat)
  : option string :=
  match fuel with
  | 0 => None
  | S fuel' =>
      match find (dept_has_code candidate_code) depts with
      | None => Some candidate_code
      | Some existing =>
          if String.eqb (d_name existing) dir_name then Some candidate_code
          else probe_loop fuel' depts base_code dir_name
                          (base_code ++ str_nat counter) (S counter)
      end
  end.

(** The code the loop ends with.  One round more than there are departments
    always suffices ([probe_loop_terminates]), so the last branch is never
    taken. *)
Definition unique_code (depts : list Department) (dir_name : string)
  : string :=
  let base_code := base_code_of dir_name in
  match probe_loop (S (List.length depts)) depts base_code dir_name
                   base_code 1 with
  | Some c => c
  | None => base_code
  end.

(** One name of a directions cell: its department and job position. *)
Definition resolve_department (dir_name : string) : M unit :=
  candidate_code <- gets (fun w => unique_code (departments w) dir_name) ;;
  t1 <- now ;;
  t2 <- now ;;
  insert_department_if_absent dir_name candidate_code t1 t2 ;;
  dept <- gets (fun w => find (dept_has_name dir_name) (departments w)) ;;
  match dept with
  | None => raise TypeError
  | Some dept =>
      t3 <- now ;;
      t4 <- now ;;
      insert_job_position_if_absent dir_name (d_id dept)
                                    (candidate_code ++ "-H") t3 t4
  end.

(** The stakeholders of a process, resolved left to right. *)
Definition resolve_stakeholders (d_content : string) : M (list string) :=
  let names := candidate_names d_content in
  for_each (fun dir_name (_ : unit) => resolve_department dir_name)
           names tt ;;
  ret names.

(** ** Header row and column roles *)

Definition kw_taches : string := String "t" (String a_circ "ches").
Definition kw_concernees : string :=
  "concern" ++ String e_acute (String "e" "s").

Definition is_header_row (row : list Cell) : bool :=
  let row_values := map (fun x => lower (str_cell x)) row in
  (existsb (contains "process") row_values
   && existsb (contains kw_taches) row_values)%bool.

(** [for i in range(10)] from row [i], [n] rows left to look at; reading a
    row past the end of the frame raises. *)
Fixpoint scan_header (df : DataFrame) (i n : nat) : M (option nat) :=
  match n with
  | 0 => ret None
  | S n' =>
      match nth_error df i with
      | None => raise IndexError
      | Some row =>
          if is_header_row row then ret (Some i)
          else scan_header df (S i) n'
      end
  end.

Definition find_header_row (df : DataFrame) : M (option nat) :=
  scan_header df 0 10.

Record ColMap : Type := mkColMap {
  process_title : option nat;
  process_desc : option nat;
  tasks : option nat;
  directions : option nat
}.

Definition classify_header (idx : nat) (val : Cell) (col_map : ColMap)
  : ColMap :=
  let val_str := strip (lower (str_cell val)) in
  if (contains "process" val_str && negb (contains "description" val_str)
      && Nat.ltb (String.length val_str) 20)%bool
  then mkColMap (Some idx) (process_desc col_map) (tasks col_map)
                (directions col_map)
  else if (contains "description" val_str && contains "process" val_str)%bool
  then mkColMap (process_title col_map) (Some idx) (tasks col_map)
                (directions col_map)
  else if contains kw_taches val_str
  then mkColMap (process_title col_map) (process_desc col_map) (Some idx)
                (directions col_map)
  else if (contains kw_concernees val_str
           || contains "directions" val_str)%bool
  then mkColMap (process_title col_map) (process_desc col_map)
                (tasks col_map) (Some idx)
  else col_map.

Fixpoint map_headers (idx : nat) (headers : list Cell) (col_map : ColMap)
  : ColMap :=
  match headers with
  | [] => col_map
  | val :: r => map_headers (S idx) r (classify_header idx val col_map)
  end.

Definition or_default (o : option nat) (d : nat) : option nat :=
  match o with
  | Some i => Some i
  | None => Some d
  end.

(** The roles found in the header row, the others at their usual place. *)
Definition build_col_map (headers : list Cell) : ColMap :=
  let col_map := map_headers 0 headers (mkColMap None None None None) in
  mkColMap (or_default (process_title col_map) 1)
           (or_default (process_desc col_map) 2)
           (or_default (tasks col_map) 3)
           (or_default (directions col_map) 4).

(** A cell of a data row by role: empty when the column lies outside the
    frame.  Reading a column inside the frame cannot fail, which leaves the
    handler around the four reads without effect. *)
Definition read_col (df : DataFrame) (row : list Cell) (col : option nat)
  : string :=
  match col with
  | None => ""
  | Some c =>
      if Nat.leb (shape1 df) c then "" else clean_text (nth c row NaN)
  end.

(** ** Rows, processes and tasks *)

Record Walk : Type := mkWalk {
  current_process_title : option string;
  current_process_doc : option Document;
  current_tasks : list Task;
  process_count : nat;
  task_count : nat;
  total_processes : nat
}.

Definition title_differs (p_title : string) (cur : option string) : bool :=
  match cur with
  | None => true
  | Some t => negb (String.eqb p_title t)
  end.

Section Importer.

Variable CREATED_BY_ID : ObjectId.

Definition make_doc_data (macro_id : ObjectId) (process_ref p_title p_desc
    : string) (stakeholders : list string) (t1 t2 : Time) : Document :=
  mkDocument 0 macro_id process_ref p_title p_desc stakeholders []
    "draft" "1.0" true CREATED_BY_ID t1 t2
    (mkContributors [] [] [])
    (mkMetadata [] stakeholders [] [] []).

(** The tasks gathered for the open process are written to its record. *)
Definition flush_tasks (st : Walk) : M nat :=
  match current_process_doc st with
  | Some d =>
      set_document_tasks (doc_id d) (current_tasks st) ;;
      ret (task_count st + List.length (current_tasks st))
  | None => ret (task_count st)
  end.

Definition start_process (macro_id : ObjectId) (macro_code : string)
    (p_title p_desc d_content : string) (st : Walk) : M Walk :=
  task_count' <- flush_tasks st ;;
  let process_count' := S (process_count st) in
  stakeholders <- resolve_stakeholders d_content ;;
  let process_ref := macro_code ++ "_P" ++ str_nat process_count' in
  t1 <- now ;;
  t2 <- now ;;
  upsert_document (make_doc_data macro_id process_ref p_title p_desc
                                 stakeholders t1 t2) ;;
  doc <- gets (fun w => find (doc_has_key p_title macro_id) (documents w)) ;;
  ret (mkWalk (Some p_title) doc [] process_count' task_count'
              (S (total_processes st))).

Definition append_task (t_content : string) (st : Walk) : M Walk :=
  match current_process_doc st with
  | None => raise TypeError
  | Some d =>
      let n := S (List.length (current_tasks st)) in
      let t_code := doc_process_code d ++ "_T" ++ str_nat n in
      ret (mkWalk (current_process_title st) (current_process_doc st)
                  (current_tasks st ++ [mkTask t_code t_content n])%list
                  (process_count st) (task_count st) (total_processes st))
  end.

(** The body of the loop over the data rows. *)
Definition process_row (df : DataFrame) (col_map : ColMap)
    (macro_id : ObjectId) (macro_code : string) (row : list Cell)
    (st : Walk) : M Walk :=
  let p_title := read_col df row (process_title col_map) in
  let p_desc := read_col df row (process_desc col_map) in
  let t_content := read_col df row (tasks col_map) in
  let d_content := read_col df row (directions col_map) in
  st1 <- (if (negb (is_empty p_title)
              && title_differs p_title (current_process_title st))%bool
          then start_process macro_id macro_code p_title p_desc d_content st
          else ret st) ;;
  if negb (is_empty t_content) then append_task t_content st1
  else ret st1.

Definition make_macro_doc (macro_code macro_name macro_desc : string)
    (t1 t2 : Time) : Macro :=
  mkMacro 0 macro_code macro_name (short_description macro_desc) macro_desc
          CREATED_BY_ID t1 t2.

Record Sheet : Type := mkSheet {
  sheet_name : string;
  sheet_frame : DataFrame
}.

Definition iloc (df : DataFrame) (i j : nat) : M Cell :=
  match nth_error df i with
  | None => raise IndexError
  | Some row =>
      match nth_error row j with
      | None => raise IndexError
      | Some x => ret x
      end
  end.

(** The data rows of a sheet whose header row is row [h]: the loop over the
    rows and the last flush.  The state of the run is the pair of totals
    (processes, tasks). *)
Definition import_rows (df : DataFrame) (h : nat) (macro_id : ObjectId)
    (macro_code : string) (totals : nat * nat) : M (nat * nat) :=
  let col_map := build_col_map (nth h df []) in
  st <- for_each (process_row df col_map macro_id macro_code)
                 (skipn (S h) df)
                 (mkWalk None None [] 0 0 (fst totals)) ;;
  res <- match current_process_doc st with
         | Some _ =>
             task_count' <- flush_tasks st ;;
             ret (task_count', snd totals + task_count')
         | None => ret (task_count st, snd totals)
         end ;;
  print ("  -> Created/Updated " ++ str_nat (process_count st)
         ++ " processes with " ++ str_nat (fst res) ++ " tasks.") ;;
  ret (total_processes st, snd res).

(** Header detection, then the rows; a sheet without header row is left
    with a warning. *)
Definition import_details (sh : Sheet) (macro_id : ObjectId)
    (macro_code : string) (totals : nat * nat) : M (nat * nat) :=
  let df := sheet_frame sh in
  header_row_idx <- find_header_row df ;;
  match header_row_idx with
  | None =>
      print ("  Warning: Could not find header row for "
             ++ sheet_name sh ++ ". Skipping details.") ;;
      ret totals
  | Some h => import_rows df h macro_id macro_code totals
  end.

(** The body of the loop over the sheets: the macro record first, then the
    details. *)
Definition import_sheet (sh : Sheet) (totals : nat * nat) : M (nat * nat) :=
  let df := sheet_frame sh in
  print (String nl "Processing Macro: " ++ sheet_name sh) ;;
  title_cell <- iloc df 0 0 ;;
  let macro_text := clean_text title_cell in
  let (macro_code, macro_name) := extract_macro macro_text (sheet_name sh) in
  macro_desc <- (if Nat.ltb 3 (shape0 df)
                 then x <- iloc df 3 0 ;; ret (clean_text x)
                 else ret "") ;;
  t1 <- now ;;
  t2 <- now ;;
  upsert_macro (make_macro_doc macro_code macro_name macro_desc t1 t2) ;;
  macro_record <- gets (fun w => find (macro_has_code macro_code) (macros w)) ;;
  match macro_record with
  | None => raise TypeError
  | Some macro_record =>
      import_details sh (m_id macro_record) macro_code totals
  end.

Definition Workbook : Type := list Sheet.

Definition EXCEL_FILE : string :=
  "resources/MACRO PROCESSUS NETWORKS & IS (MAJ).xlsx".

(** [import_data()]; the workbook is [None] when the file does not exist. *)
Definition import_data (xl : option Workbook) : M unit :=
  match xl with
  | None => print ("File not found: " ++ EXCEL_FILE)
  | Some sheets =>
      print ("Found " ++ str_nat (List.length sheets) ++ " sheets (Macros).") ;;
      totals <- for_each import_sheet sheets (0, 0) ;;
      print (String nl "--- Import Summary ---") ;;
      print ("Total Macros: " ++ str_nat (List.length sheets)) ;;
      print ("Total Processes: " ++ str_nat (fst totals)) ;;
      print ("Total Tasks: " ++ str_nat (snd totals)) ;;
      print "----------------------"
  end.

End Importer.

(** ** Bulk status updater *)

Definition is_draft (d : Document) : bool := String.eqb (doc_status d) "draft".

(** [update_many({'status': 'draft'}, {'$set': {'status': 'approved'}})]:
    the documents afterwards and [modified_count]. *)
Definition update_many_status (docs : list Document) : list Document * nat :=
  (map (fun d => if is_draft d then doc_with_status "approved" d else d) docs,
   List.length (filter is_draft docs)).

Definition update_status : M unit :=
  fun w =>
    let (docs, modified_count) := update_many_status (documents w) in
    (print ("Updated " ++ str_nat modified_count
            ++ " documents from Draft to Approved"))
      (set_documents docs w).

(** * Properties *)

(** ** Strings *)

Lemma take_all (n : nat) (s : string) :
  String.length s <= n -> take n s = s.
Proof.
  revert n; induction s as [|c r IH]; intros [|n] H; simpl in *;
    try reflexivity; try lia.
  f_equal. apply IH. lia.
Qed.

Lemma take_length (n : nat) (s : string) :
  String.length (take n s) = Nat.min n (String.length s).
Proof.
  revert n; induction s as [|c r IH]; intros [|n]; simpl; auto.
Qed.

Lemma take_prefix (n : nat) (s : string) :
  exists r, s = take n s ++ r.
Proof.
  revert n; induction s as [|c r IH]; intros [|n]; simpl.
  - now exists "".
  - now exists "".
  - now exists (String c r).
  - destruct (IH n) as [q Hq]. exists q. now rewrite <- Hq.
Qed.

Lemma append_length (a b : string) :
  String.length (a ++ b) = String.length a + String.length b.
Proof. induction a; simpl; auto. Qed.

Lemma append_nil_r (a : string) : a ++ "" = a.
Proof. induction a; simpl; congruence. Qed.

Lemma append_assoc (a b c : string) : (a ++ b) ++ c = a ++ (b ++ c).
Proof. induction a; simpl; congruence. Qed.

Lemma append_inj_l (a b c : string) : a ++ b = a ++ c -> b = c.
Proof. induction a; simpl; intros H; [assumption|]. inversion H; auto. Qed.

(** ** Short description of a macro (C8) *)

(** C8: the short description stored for a macro is the description itself
    when it has at most 100 characters, and otherwise its first 100
    characters followed by three dots; nothing is appended unless the
    description was cut. *)
Theorem short_description_spec (d : string) :
  (String.length d <= 100 -> short_description d = d)
  /\ (100 < String.length d ->
      short_description d = take 100 d ++ "..."
      /\ String.length (take 100 d) = 100
      /\ (exists r, d = take 100 d ++ r))
  /\ (forall by_id c n t1 t2,
        m_short_description (make_macro_doc by_id c n d t1 t2)
        = short_description d
        /\ m_description (make_macro_doc by_id c n d t1 t2) = d).
Proof.
  unfold short_description.
  split; [|split].
  - intros H. destruct (Nat.ltb_spec 100 (String.length d)); [lia|reflexivity].
  - intros H. destruct (Nat.ltb_spec 100 (String.length d)); [|lia].
    repeat split.
    + rewrite take_length. lia.
    + apply take_prefix.
  - intros. split; reflexivity.
Qed.

Definition long_text : string :=
  "0123456789012345678901234567890123456789012345678901234567890123456789"
  ++ "0123456789012345678901234567890123456789".

Lemma short_description_spec_witness :
  short_description "Cette macro couvre la strategie" =
    "Cette macro couvre la strategie"
  /\ short_description long_text = take 100 long_text ++ "...".
Proof.
  split.
  - apply (proj1 (short_description_spec _)). simpl. lia.
  - apply (proj1 (proj2 (short_description_spec long_text))).
    vm_compute. lia.
Defined.

(** ** Bulk status updater (C7) *)

Definition is_approved (d : Document) : bool :=
  String.eqb (doc_status d) "approved".

Lemma doc_with_status_same (d : Document) :
  doc_with_status (doc_status d) d = d.
Proof. now destruct d. Qed.

Lemma update_many_status_nth (docs : list Document) (i : nat) (d : Document) :
  nth_error docs i = Some d ->
  nth_error (fst (update_many_status docs)) i
  = Some (if is_draft d then doc_with_status "approved" d else d).
Proof.
  intros H. simpl. rewrite nth_error_map, H. reflexivity.
Qed.

Lemma filter_length_all {A} (p : A -> bool) (l : list A) :
  List.length (filter p l) = List.length l -> Forall (fun x => p x = true) l.
Proof.
  induction l as [|x r IH]; simpl; intros H; [constructor|].
  destruct (p x) eqn:E; simpl in H.
  - constructor; [assumption|]. apply IH. lia.
  - pose proof (filter_length_le p r). lia.
Qed.

Lemma filter_disjoint_length {A} (p q : A -> bool) (l : list A) :
  (forall x, p x = true -> q x = false) ->
  List.length (filter p l) + List.length (filter q l) <= List.length l.
Proof.
  intros D. induction l as [|x r IH]; simpl; [lia|].
  destruct (p x) eqn:E; [rewrite (D _ E)|destruct (q x)]; simpl; lia.
Qed.

(** C7: the updater rewrites the status of exactly the draft documents to
    approved, keeps every other field and every other document and the
    other collections as they are, and reports how many documents it
    changed; with 5 drafts and 3 approved documents all 8 end approved and
    the count is 5. *)
Theorem update_status_spec (w : World) :
  exists w',
    update_status w = Ok tt w'
    /\ macros w' = macros w
    /\ departments w' = departments w
    /\ job_positions w' = job_positions w
    /\ List.length (documents w') = List.length (documents w)
    /\ (forall i d, nth_error (documents w) i = Some d ->
          exists d', nth_error (documents w') i = Some d'
            /\ doc_with_status (doc_status d) d' = d
            /\ (doc_status d = "draft" -> doc_status d' = "approved")
            /\ (doc_status d <> "draft" -> d' = d))
    /\ console w' =
         app (console w)
          ["Updated " ++ str_nat (List.length (filter is_draft (documents w)))
           ++ " documents from Draft to Approved"]
    /\ (List.length (filter is_draft (documents w)) = 5 ->
        List.length (filter is_approved (documents w)) = 3 ->
        List.length (documents w) = 8 ->
        Forall (fun d => doc_status d = "approved") (documents w')
        /\ snd (update_many_status (documents w)) = 5).
Proof.
  eexists. split; [reflexivity|]. simpl.
  repeat split; try reflexivity.
  - apply length_map.
  - intros i d H. rewrite nth_error_map, H. simpl.
    eexists; split; [reflexivity|].
    unfold is_draft. destruct (String.eqb_spec (doc_status d) "draft") as [E|E].
    + repeat split; try tauto. now destruct d.
    + repeat split; try tauto. apply doc_with_status_same.
  - rename H into H5, H0 into H3, H1 into H8.
    apply Forall_forall. intros d' Hin.
    apply in_map_iff in Hin. destruct Hin as [d [<- Hin]].
    destruct (is_draft d) eqn:E; [reflexivity|].
    assert (Hall : Forall (fun x => (is_draft x || is_approved x)%bool = true)
                          (documents w)).
    { apply filter_length_all.
      assert (Hle := filter_length_le
                (fun x => (is_draft x || is_approved x)%bool) (documents w)).
      assert (Hge : List.length (filter is_draft (documents w))
                    + List.length (filter is_approved (documents w))
                    <= List.length
                         (filter (fun x => (is_draft x || is_approved x)%bool)
                                 (documents w))).
      { clear. induction (documents w) as [|x r IH]; simpl; [lia|].
        unfold is_draft, is_approved in *.
        destruct (String.eqb_spec (doc_status x) "draft") as [E1|E1];
          destruct (String.eqb_spec (doc_status x) "approved") as [E2|E2];
          simpl; try lia.
        rewrite E1 in E2. discriminate. }
      lia. }
    rewrite Forall_forall in Hall. specialize (Hall d Hin).
    rewrite E in Hall. simpl in Hall.
    now apply String.eqb_eq.
  - assumption.
Qed.

Definition sample_doc (i : ObjectId) (status : string) : Document :=
  mkDocument i 0 ("Macro01_P" ++ str_nat i) ("Process " ++ str_nat i) "" []
    [] status "1.0" true 0 0 0 (mkContributors [] [] [])
    (mkMetadata [] [] [] [] []).

Definition eight_documents : World :=
  set_documents
    [sample_doc 1 "draft"; sample_doc 2 "approved"; sample_doc 3 "draft";
     sample_doc 4 "draft"; sample_doc 5 "approved"; sample_doc 6 "draft";
     sample_doc 7 "approved"; sample_doc 8 "draft"]
    empty_world.

Lemma update_status_spec_witness :
  exists w',
    update_status eight_documents = Ok tt w'
    /\ Forall (fun d => doc_status d = "approved") (documents w')
    /\ snd (update_many_status (documents eight_documents)) = 5.
Proof.
  destruct (update_status_spec eight_documents)
    as (w' & Hrun & _ & _ & _ & _ & _ & _ & Hscn).
  exists w'. split; [exact Hrun|].
  apply Hscn; reflexivity.
Defined.

(** ** Stakeholder names and base codes (C2) *)

Fixpoint all_chars (p : ascii -> bool) (s : string) : bool :=
  match s with
  | "" => true
  | String c r => (p c && all_chars p r)%bool
  end.

Fixpoint count_chars (p : ascii -> bool) (s : string) : nat :=
  match s with
  | "" => 0
  | String c r => (if p c then 1 else 0) + count_chars p r
  end.

Fixpoint filter_chars (p : ascii -> bool) (s : string) : string :=
  match s with
  | "" => ""
  | String c r => if p c then String c (filter_chars p r) else filter_chars p r
  end.

Definition non (p : ascii -> bool) (c : ascii) : bool := negb (p c).

Lemma all_chars_app (p : ascii -> bool) (a b : string) :
  all_chars p (a ++ b) = (all_chars p a && all_chars p b)%bool.
Proof. induction a; simpl; [reflexivity|]. rewrite IHa. now rewrite andb_assoc. Qed.

Lemma split_on_cons (sep : ascii -> bool) (s : string) :
  exists p ps, split_on sep s = p :: ps.
Proof.
  induction s as [|c r IH]; simpl; [now eexists; eexists|].
  destruct (sep c); [now eexists; eexists|].
  destruct IH as (p & ps & ->). now eexists; eexists.
Qed.

Lemma split_on_pieces (sep : ascii -> bool) (s : string) :
  Forall (fun p => all_chars (non sep) p = true) (split_on sep s).
Proof.
  induction s as [|c r IH]; simpl.
  - repeat constructor.
  - destruct (sep c) eqn:E.
    + constructor; [reflexivity|assumption].
    + destruct (split_on sep r) as [|p ps].
      * constructor; [|constructor]. simpl. unfold non. now rewrite E.
      * inversion IH; subst. constructor; [|assumption].
        simpl. unfold non at 1. now rewrite E.
Qed.

Lemma split_on_length (sep : ascii -> bool) (s : string) :
  List.length (split_on sep s) = S (count_chars sep s).
Proof.
  induction s as [|c r IH]; simpl; [reflexivity|].
  destruct (sep c); simpl; [now rewrite IH|].
  destruct (split_on sep r); simpl in *; lia.
Qed.

Lemma split_on_join (sep : ascii -> bool) (s : string) :
  join (split_on sep s) = filter_chars (non sep) s.
Proof.
  induction s as [|c r IH]; simpl; [reflexivity|].
  unfold non at 1. destruct (sep c); simpl; [assumption|].
  destruct (split_on_cons sep r) as (p & ps & E). rewrite E in *.
  simpl in *. now rewrite IH.
Qed.

Lemma rstrip_idem (s : string) : rstrip (rstrip s) = rstrip s.
Proof.
  induction s as [|c r IH]; simpl; [reflexivity|].
  destruct (is_empty (rstrip r) && isspace c)%bool eqn:E; simpl;
    [reflexivity|].
  now rewrite IH, E.
Qed.

Lemma lstrip_head (s : string) :
  lstrip s = "" \/ exists c r, lstrip s = String c r /\ isspace c = false.
Proof.
  induction s as [|c r IH]; simpl; [now left|].
  destruct (isspace c) eqn:E; [assumption|]. right. now exists c, r.
Qed.

Lemma lstrip_fixed (c : ascii) (r : string) :
  isspace c = false -> lstrip (String c r) = String c r.
Proof. intros E. simpl. now rewrite E. Qed.

Lemma strip_trimmed (s : string) :
  lstrip (strip s) = strip s /\ rstrip (strip s) = strip s.
Proof.
  unfold strip. split; [|apply rstrip_idem].
  destruct (lstrip_head s) as [->|(c & r & -> & E)]; [reflexivity|].
  simpl. rewrite E, andb_false_r. simpl. now rewrite E.
Qed.

Lemma words_aux_nonempty (cur s : string) :
  cur <> "" -> words_aux cur s <> [].
Proof.
  revert cur; induction s as [|c r IH]; intros cur H; simpl.
  - destruct cur; [congruence|simpl; discriminate].
  - destruct (isspace c).
    + destruct cur; [congruence|simpl; discriminate].
    + apply IH. destruct cur; discriminate.
Qed.

Lemma words_aux_spec (cur s : string) :
  all_chars (non isspace) cur = true ->
  Forall (fun w => w <> "" /\ all_chars (non isspace) w = true)
         (words_aux cur s)
  /\ join (words_aux cur s) = cur ++ filter_chars (non isspace) s.
Proof.
  revert cur; induction s as [|c r IH]; intros cur H;
    cbn [words_aux filter_chars].
  - destruct cur; simpl.
    + split; [constructor|reflexivity].
    + split; [|reflexivity].
      constructor; [split; [discriminate|assumption]|constructor].
  - assert (Hn : non isspace c = negb (isspace c)) by reflexivity.
    rewrite Hn. destruct (isspace c) eqn:E; cbn [negb].
    + destruct (IH "" eq_refl) as [F J]. cbn [append] in J.
      destruct cur; cbn [is_empty]; [now split|].
      split; [constructor; [split; [discriminate|assumption]|assumption]|].
      unfold join in *. cbn [fold_right]. now rewrite J.
    + destruct (IH (cur ++ String c "")) as [F J].
      { rewrite all_chars_app, H. cbn [all_chars andb]. now rewrite Hn. }
      split; [assumption|]. now rewrite J, append_assoc.
Qed.

Lemma words_of_trimmed (n : string) :
  lstrip n = n -> n <> "" -> words n <> [].
Proof.
  intros L N. destruct n as [|c r]; [congruence|].
  unfold words. simpl in *. destruct (isspace c) eqn:E.
  - exfalso. clear -L E.
    assert (H : forall s, String.length (lstrip s) <= String.length s).
    { induction s as [|a s IH]; simpl; [lia|].
      destruct (isspace a); simpl; lia. }
    specialize (H r). rewrite L in H. simpl in H. lia.
  - apply words_aux_nonempty. discriminate.
Qed.

Lemma is_empty_true (s : string) : is_empty s = true <-> s = "".
Proof. destruct s; simpl; split; congruence. Qed.

Lemma candidate_names_filter (d_content : string) :
  candidate_names d_content
  = filter (fun n => Nat.leb 2 (String.length n))
           (map strip (split_on dir_sep d_content)).
Proof.
  unfold candidate_names. destruct d_content; reflexivity.
Qed.

Lemma rstrip_length (s : string) :
  String.length (rstrip s) <= String.length s.
Proof.
  induction s as [|c r IH]; simpl; [lia|].
  destruct (is_empty (rstrip r) && isspace c)%bool; simpl; lia.
Qed.

Lemma rstrip_blank_end (r : string) (c : ascii) :
  isspace c = true -> rstrip (r ++ String c "") = rstrip r.
Proof.
  intros E. induction r as [|a r IH]; simpl; [now rewrite E|].
  now rewrite IH.
Qed.

(** *** Cutting, trimming and splitting into words, as relations *)

(** [ps] are the pieces of [s] between its separators, in order. *)
Inductive cut_at (sep : ascii -> bool) : string -> list string -> Prop :=
| cut_last p : all_chars (non sep) p = true -> cut_at sep p [p]
| cut_more p c rest ps :
    all_chars (non sep) p = true -> sep c = true -> cut_at sep rest ps ->
    cut_at sep (p ++ String c rest) (p :: ps).

Lemma split_on_cut (sep : ascii -> bool) (s : string) :
  cut_at sep s (split_on sep s).
Proof.
  induction s as [|c r IH]; simpl.
  - now apply cut_last.
  - destruct (sep c) eqn:E.
    + now apply (cut_more sep "" c r).
    + assert (Hn : non sep c = true) by (unfold non; now rewrite E).
      destruct (split_on_cons sep r) as (p & ps & Es). rewrite Es in *.
      inversion IH; subst.
      * apply cut_last. simpl. now rewrite Hn.
      * apply (cut_more sep (String c p)); auto. simpl. now rewrite Hn.
Qed.

Lemma lstrip_split (s : string) :
  exists a, s = a ++ lstrip s /\ all_chars isspace a = true.
Proof.
  induction s as [|c r (a & E & H)]; simpl; [now exists ""|].
  destruct (isspace c) eqn:Ec.
  - exists (String c a). simpl. rewrite Ec, H. now rewrite <- E.
  - now exists "".
Qed.

Lemma rstrip_split (s : string) :
  exists b, s = rstrip s ++ b /\ all_chars isspace b = true.
Proof.
  induction s as [|c r (b & E & H)]; simpl; [now exists ""|].
  destruct (is_empty (rstrip r) && isspace c)%bool eqn:Ec.
  - apply andb_prop in Ec. destruct Ec as [E1 E2].
    apply is_empty_true in E1. rewrite E1 in E. simpl in E. subst r.
    exists (String c b). simpl. now rewrite E2, H.
  - exists b. simpl. now rewrite <- E.
Qed.

(** [t] is [s] without the blanks at its two ends. *)
Definition trimmed_of (s t : string) : Prop :=
  (exists a b, s = a ++ t ++ b
               /\ all_chars isspace a = true /\ all_chars isspace b = true)
  /\ (forall c r, t = String c r -> isspace c = false)
  /\ (forall r c, t = r ++ String c "" -> isspace c = false).

Lemma strip_trimmed_of (s : string) : trimmed_of s (strip s).
Proof.
  destruct (strip_trimmed s) as [L R]. split; [|split].
  - destruct (lstrip_split s) as (a & Ea & Ha).
    destruct (rstrip_split (lstrip s)) as (b & Eb & Hb).
    exists a, b. unfold strip. now rewrite <- Eb, <- Ea.
  - intros c r E. rewrite E in L.
    destruct (lstrip_head (String c r)) as [H|(c' & r' & H & Hc)];
      rewrite L in H; [discriminate|]. now inversion H; subst.
  - intros r c E. rewrite E in R.
    destruct (isspace c) eqn:Hc; [|reflexivity]. exfalso.
    rewrite (rstrip_blank_end r c Hc) in R.
    pose proof (rstrip_length r) as Hl. rewrite R, append_length in Hl.
    simpl in Hl. lia.
Qed.

(** [ws] are the words of [s]: the maximal runs of characters that are not
    blanks, in order. *)
Inductive words_of : string -> list string -> Prop :=
| words_none g : all_chars isspace g = true -> words_of g []
| words_more g w rest ws :
    all_chars isspace g = true ->
    w <> "" -> all_chars (non isspace) w = true ->
    (rest = "" \/ exists c r, rest = String c r /\ isspace c = true) ->
    words_of rest ws ->
    words_of (g ++ w ++ rest) (w :: ws).

Lemma words_of_blank (c : ascii) (r : string) (ws : list string) :
  isspace c = true -> words_of r ws -> words_of (String c r) ws.
Proof.
  intros Ec H.
  inversion H as [g Hg Eg Ew|g w rest ws' Hg Hw Hn Hr Hrest Eg Ew].
  - apply words_none. simpl. now rewrite Ec.
  - apply (words_more (String c g) w rest ws'); auto.
    simpl. now rewrite Ec.
Qed.

Lemma words_aux_of (s : string) :
  forall cur,
    all_chars (non isspace) cur = true ->
    (cur = "" -> words_of s (words_aux cur s))
    /\ (cur <> "" ->
        exists w rest ws,
          words_aux cur s = (cur ++ w) :: ws
          /\ s = w ++ rest
          /\ all_chars (non isspace) w = true
          /\ (rest = "" \/ exists c r, rest = String c r /\ isspace c = true)
          /\ words_of rest ws).
Proof.
  induction s as [|c r IH]; intros cur Hcur; cbn [words_aux].
  - split.
    + intros ->. simpl. now apply words_none.
    + intros Hne. destruct cur as [|a cur]; [congruence|]. cbn [is_empty].
      exists "", "", []. rewrite append_nil_r.
      repeat split; auto. now apply words_none.
  - destruct (isspace c) eqn:Ec.
    + destruct (IH "" eq_refl) as [IH0 _]. specialize (IH0 eq_refl).
      apply (words_of_blank c r _ Ec) in IH0.
      split.
      * intros ->. cbn [is_empty]. exact IH0.
      * intros Hne. destruct cur as [|a cur]; [congruence|]. cbn [is_empty].
        exists "", (String c r), (words_aux "" r). rewrite append_nil_r.
        split; [reflexivity|]. split; [reflexivity|].
        split; [reflexivity|]. split; [|exact IH0].
        right. now exists c, r.
    + assert (Hc : non isspace c = true) by (unfold non; now rewrite Ec).
      assert (Hcur' : all_chars (non isspace) (cur ++ String c "") = true).
      { rewrite all_chars_app, Hcur. simpl. now rewrite Hc. }
      destruct (IH (cur ++ String c "") Hcur') as [_ IH1].
      assert (Hne' : cur ++ String c "" <> "") by (destruct cur; discriminate).
      destruct (IH1 Hne') as (w & rest & ws & Ew & Er & Hw & Hr & Hrest).
      rewrite Ew, append_assoc. cbn [append].
      split.
      * intros ->. cbn [append].
        rewrite Er.
        apply (words_more "" (String c w) rest ws); auto; try discriminate.
        simpl. now rewrite Hc.
      * intros _. exists (String c w), rest, ws.
        split; [reflexivity|]. split; [cbn [append]; now rewrite Er|].
        split; [simpl; now rewrite Hc|]. now split.
Qed.

Lemma words_words_of (s : string) : words_of s (words s).
Proof. now apply (words_aux_of s "" eq_refl). Qed.

(** *** Upper case, as a relation *)

Definition sharp_s : ascii := "223"%char.

(** The characters whose upper case lies in the range modelled: all but
    U+00B5 and U+00FF.  A text that holds one of these two is outside the
    model wherever it is put in upper case. *)
Definition has_upper (c : ascii) : bool :=
  negb (N.eqb (code c) 181 || N.eqb (code c) 255).

(** The lower-case letters that have an upper-case letter of their own:
    a to z, and U+00E0 to U+00FE but the division sign. *)
Definition lowercase_letter (c : ascii) : bool :=
  (in_range 97 122 c
   || (in_range 224 254 c && negb (N.eqb (code c) 247)))%bool.

(** [u] is [s] in upper case: each character of [s] gives the character
    that is the same up to case and is not a lower-case letter, and a
    sharp s gives two letters S. *)
Inductive upper_cased : string -> string -> Prop :=
| upper_cased_nil : upper_cased "" ""
| upper_cased_sharp r u :
    upper_cased r u -> upper_cased (String sharp_s r) ("SS" ++ u)
| upper_cased_char c C r u :
    has_upper c = true -> c <> sharp_s ->
    lower_char C = lower_char c -> lowercase_letter C = false ->
    upper_cased r u -> upper_cased (String c r) (String C u).

Lemma upper_char_cased (c : ascii) :
  has_upper c = true -> c <> sharp_s ->
  exists C, upper_char c = String C ""
            /\ lower_char C = lower_char c /\ lowercase_letter C = false.
Proof.
  destruct c as [[] [] [] [] [] [] [] []]; intros H N;
    try discriminate H; try (exfalso; apply N; reflexivity);
    eexists; split; try reflexivity; split; reflexivity.
Qed.

Definition unlower (c : ascii) : ascii :=
  if lowercase_letter c then shift_up c else c.

Lemma unlower_lower (C : ascii) :
  lowercase_letter C = false -> unlower (lower_char C) = C.
Proof.
  destruct C as [[] [] [] [] [] [] [] []]; intros H;
    try discriminate H; reflexivity.
Qed.

Lemma upper_cased_upper (s : string) :
  all_chars has_upper s = true -> upper_cased s (upper s).
Proof.
  induction s as [|c r IH]; cbn [all_chars upper]; intros H.
  - constructor.
  - apply andb_prop in H. destruct H as [Hc Hr].
    destruct (ascii_dec c sharp_s) as [->|N].
    + apply upper_cased_sharp. now apply IH.
    + destruct (upper_char_cased c Hc N) as (C & -> & L & U).
      cbn [append]. apply upper_cased_char; auto.
Qed.

Lemma upper_cased_unique (s u u' : string) :
  upper_cased s u -> upper_cased s u' -> u = u'.
Proof.
  intros H. revert u'. induction H as [|r u H IH|c C r u Hc N L U H IH];
    intros u' H'.
  - now inversion H'.
  - inversion H' as [|r' v Hv|c' C' r' v Hc' N']; subst.
    + f_equal. now apply IH.
    + congruence.
  - inversion H' as [|r' v Hv|c' C' r' v Hc' N' L' U' Hv]; subst.
    + congruence.
    + f_equal; [|now apply IH].
      rewrite <- (unlower_lower C U), <- (unlower_lower C' U'). congruence.
Qed.

Lemma all_chars_take (p : ascii -> bool) (k : nat) (s : string) :
  all_chars p s = true -> all_chars p (take k s) = true.
Proof.
  revert k; induction s as [|c r IH]; intros [|k] H; simpl in *; auto.
  apply andb_prop in H. destruct H as [H1 H2]. now rewrite H1, IH.
Qed.

Lemma all_chars_filter (p q : ascii -> bool) (s : string) :
  all_chars p s = true -> all_chars p (filter_chars q s) = true.
Proof.
  induction s as [|c r IH]; simpl; auto. intros H.
  apply andb_prop in H. destruct H as [H1 H2].
  destruct (q c); simpl; [now rewrite H1, IH|now apply IH].
Qed.

Lemma all_chars_join (p : ascii -> bool) (l : list string) :
  all_chars p (join l) = true <-> Forall (fun w => all_chars p w = true) l.
Proof.
  induction l as [|w r IH]; simpl.
  - split; auto.
  - rewrite all_chars_app, andb_true_iff, IH. split.
    + intros [H1 H2]. now constructor.
    + intros H. inversion H; subst. now split.
Qed.

Lemma all_chars_first_letters (p : ascii -> bool) (n : string) :
  all_chars p n = true ->
  all_chars p (join (first_letters (words n))) = true.
Proof.
  intros H. destruct (words_aux_spec "" n eq_refl) as [_ J].
  cbn [append] in J. fold (words n) in J.
  pose proof (all_chars_filter p (non isspace) n H) as Hf.
  rewrite <- J in Hf. apply all_chars_join in Hf. apply all_chars_join.
  clear J H. induction Hf as [|w r Hw _ IH]; [constructor|].
  destruct w as [|c w]; simpl; [exact IH|].
  constructor; [|exact IH]. simpl in *. apply andb_prop in Hw.
  destruct Hw as [-> _]. reflexivity.
Qed.

Lemma first_letters_spec (ws : list string) :
  Forall (fun w => w <> "") ws ->
  Forall2 (fun w l => exists r, w = l ++ r /\ String.length l = 1)
          ws (first_letters ws).
Proof.
  induction 1 as [|w r Hw _ IH]; [constructor|].
  destruct w as [|c w]; [congruence|]. simpl.
  constructor; [|exact IH]. now exists w.
Qed.

(** C2: a directions cell is cut at every newline and comma, each piece is
    trimmed of the blanks at its ends and the pieces shorter than 2
    characters are dropped.  The base code of a name is, in upper case, its
    first 3 characters when it is one word, and else the first letters of
    its words, 4 at most.  Upper case is meant as a relation that does not
    refer to the function computing it: every character gives the
    character equal to it up to case that is not a lower-case letter, a
    sharp s gives SS, and one string at most is a given string in upper
    case; it is stated for the names without U+00B5 and U+00FF, whose upper
    case lies outside the characters modelled.  "Direction Network
    Engineering, IT" gives DNE and IT, in that order. *)
Theorem stakeholder_candidates_spec (d_content : string) :
  let pieces := split_on dir_sep d_content in
  cut_at dir_sep d_content pieces
  /\ Forall (fun p => all_chars (non dir_sep) p = true) pieces
  /\ List.length pieces = S (count_chars dir_sep d_content)
  /\ join pieces = filter_chars (non dir_sep) d_content
  /\ candidate_names d_content
     = filter (fun n => Nat.leb 2 (String.length n)) (map strip pieces)
  /\ (forall p, trimmed_of p (strip p))
  /\ (forall n, In n (candidate_names d_content) ->
        lstrip n = n /\ rstrip n = n /\ 2 <= String.length n
        /\ words n <> [])
  /\ (forall n,
        words_of n (words n)
        /\ Forall (fun w => w <> "" /\ all_chars (non isspace) w = true)
                  (words n)
        /\ join (words n) = filter_chars (non isspace) n
        /\ Forall2 (fun w l => exists r, w = l ++ r /\ String.length l = 1)
                   (words n) (first_letters (words n)))
  /\ (forall k s,
        (exists r, s = take k s ++ r)
        /\ String.length (take k s) = Nat.min k (String.length s))
  /\ (forall n,
        all_chars has_upper n = true ->
        (List.length (words n) <= 1 ->
         upper_cased (take 3 n) (base_code_of n))
        /\ (1 < List.length (words n) ->
            upper_cased (take 4 (join (first_letters (words n))))
                        (base_code_of n)))
  /\ (forall s u u', upper_cased s u -> upper_cased s u' -> u = u')
  /\ map (fun n => (n, base_code_of n))
         (candidate_names "Direction Network Engineering, IT")
     = [("Direction Network Engineering", "DNE"); ("IT", "IT")]
  /\ map (fun n => (n, base_code_of n))
         (candidate_names
            ("  achats " ++ String nl ",x, ressources humaines ,"))
     = [("achats", "ACH"); ("ressources humaines", "RH")]
  /\ base_code_of "informatique" = "INF"
  /\ base_code_of "direction des systemes d information" = "DDSD"
  /\ base_code_of (String e_acute "cole") = String "201"%char "CO"
  /\ base_code_of (String sharp_s "ab") = "SSAB".
Proof.
  cbv zeta.
  split; [apply split_on_cut|].
  split; [apply split_on_pieces|].
  split; [apply split_on_length|].
  split; [apply split_on_join|].
  split; [apply candidate_names_filter|].
  split; [apply strip_trimmed_of|].
  split; [|split; [|split; [|split; [|split;
    [apply upper_cased_unique|repeat split]]]]].
  - intros n Hin. rewrite candidate_names_filter in Hin.
    apply filter_In in Hin. destruct Hin as [Hin Hlen].
    apply in_map_iff in Hin. destruct Hin as (p & <- & _).
    apply Nat.leb_le in Hlen.
    destruct (strip_trimmed p) as [L R].
    repeat split; try assumption.
    apply words_of_trimmed; [assumption|].
    intros E. rewrite E in Hlen. simpl in Hlen. lia.
  - intros n. destruct (words_aux_spec "" n eq_refl) as [F J].
    split; [apply words_words_of|]. split; [exact F|]. split; [exact J|].
    apply first_letters_spec. eapply Forall_impl; [|exact F]. simpl. tauto.
  - intros k s. split; [apply take_prefix|apply take_length].
  - intros n H. unfold base_code_of. split; intros L.
    + destruct (Nat.ltb_spec 1 (List.length (words n))); [lia|].
      apply upper_cased_upper. now apply all_chars_take.
    + destruct (Nat.ltb_spec 1 (List.length (words n))); [|lia].
      apply upper_cased_upper. now apply all_chars_take,
        all_chars_first_letters.
Qed.

Lemma stakeholder_candidates_spec_witness :
  upper_cased (take 3 "informatique") (base_code_of "informatique")
  /\ upper_cased
       (take 4 (join (first_letters (words "direction des achats"))))
       (base_code_of "direction des achats")
  /\ (lstrip "IT" = "IT" /\ rstrip "IT" = "IT" /\ 2 <= String.length "IT"
      /\ words "IT" <> []).
Proof.
  pose proof (stakeholder_candidates_spec "Direction Network Engineering, IT")
    as H.
  cbv zeta in H.
  destruct H as (_ & _ & _ & _ & _ & _ & Hn & _ & _ & Hc & _).
  split; [|split].
  - apply (Hc "informatique"); [reflexivity|]. simpl. lia.
  - apply (Hc "direction des achats"); [reflexivity|]. vm_compute. lia.
  - apply Hn. vm_compute. right. left. reflexivity.
Defined.

(** ** Macro code and name (C6) *)

Definition stops_at (p : ascii -> bool) (b : string) : Prop :=
  match b with
  | "" => True
  | String c _ => p c = false
  end.

Lemma span_sound (p : ascii -> bool) (s a b : string) :
  span p s = (a, b) -> s = a ++ b /\ all_chars p a = true /\ stops_at p b.
Proof.
  revert a b; induction s as [|c r IH]; simpl; intros a b H.
  - inversion H; subst. simpl. auto.
  - destruct (p c) eqn:E.
    + destruct (span p r) as [a' b'] eqn:S. inversion H; subst.
      destruct (IH _ _ eq_refl) as (-> & A & B). simpl. rewrite E. auto.
    + inversion H; subst. simpl. auto.
Qed.

Lemma span_greedy (p : ascii -> bool) (a b : string) :
  all_chars p a = true -> stops_at p b -> span p (a ++ b) = (a, b).
Proof.
  induction a as [|c r IH]; simpl; intros A B.
  - destruct b as [|c r]; simpl in *; [reflexivity|now rewrite B].
  - apply andb_prop in A. destruct A as [A1 A2].
    now rewrite A1, (IH A2 B).
Qed.

Lemma match_literal_ci_sound (l s lit r : string) :
  match_literal_ci l s = Some (lit, r) -> s = lit ++ r /\ lower lit = l.
Proof.
  revert s lit r; induction l as [|x l IH]; intros s lit r; simpl.
  - intros H. inversion H; subst. auto.
  - destruct s as [|c s]; [discriminate|].
    destruct (Ascii.eqb_spec (lower_char c) x) as [E|E]; [|discriminate].
    destruct (match_literal_ci l s) as [[m rest]|] eqn:M; [|discriminate].
    intros H. inversion H; subst.
    destruct (IH _ _ _ M) as [-> <-]. auto.
Qed.

Lemma match_literal_ci_complete (lit r : string) :
  match_literal_ci (lower lit) (lit ++ r) = Some (lit, r).
Proof.
  induction lit as [|c lit IH]; simpl; [reflexivity|].
  now rewrite Ascii.eqb_refl, IH.
Qed.

Definition not_nl (c : ascii) : bool := negb (Ascii.eqb c nl).

(** The title pattern read as a description of the text at the start of
    [s]: which pieces it is made of and what the two groups are. *)
Definition title_at (sep : ascii -> bool) (s g1 g2 : string) : Prop :=
  exists lit ws ds ws2 c ws3 post,
    s = lit ++ ws ++ ds ++ ws2 ++ String c (ws3 ++ g2 ++ post)
    /\ lower lit = "macro"
    /\ all_chars isspace ws = true
    /\ all_chars isdigit ds = true /\ ds <> ""
    /\ all_chars isspace ws2 = true
    /\ sep c = true
    /\ all_chars isspace ws3 = true /\ stops_at isspace (g2 ++ post)
    /\ all_chars not_nl g2 = true /\ stops_at not_nl post
    /\ g1 = lit ++ ws ++ ds.

Definition plain_sep (sep : ascii -> bool) : Prop :=
  forall c, sep c = true -> isspace c = false /\ isdigit c = false.

Lemma digit_not_space (c : ascii) : isdigit c = true -> isspace c = false.
Proof.
  destruct c as [[] [] [] [] [] [] [] []]; vm_compute; congruence.
Qed.

Lemma space_not_digit (c : ascii) : isspace c = true -> isdigit c = false.
Proof.
  destruct c as [[] [] [] [] [] [] [] []]; vm_compute; congruence.
Qed.

Lemma title_sep_plain : plain_sep title_sep.
Proof.
  intros c. destruct c as [[] [] [] [] [] [] [] []]; vm_compute;
    intros H; try discriminate H; split; reflexivity.
Qed.

Lemma is_empty_false (s : string) : is_empty s = false <-> s <> "".
Proof. destruct s; simpl; split; congruence. Qed.

Lemma match_title_here_sound (sep : ascii -> bool) (s g1 g2 : string) :
  match_title_here sep s = Some (g1, g2) -> title_at sep s g1 g2.
Proof.
  unfold match_title_here.
  destruct (match_literal_ci "macro" s) as [[lit r1]|] eqn:L; [|discriminate].
  apply match_literal_ci_sound in L. destruct L as [-> Hl].
  destruct (span isspace r1) as [ws r2] eqn:S1.
  destruct (span isdigit r2) as [ds r3] eqn:S2.
  destruct (is_empty ds) eqn:Ed; [discriminate|].
  destruct (span isspace r3) as [ws2 r4] eqn:S3.
  destruct r4 as [|c r5]; [discriminate|].
  destruct (sep c) eqn:Ec; [|discriminate].
  destruct (span isspace r5) as [ws3 r6] eqn:S4.
  destruct (span not_nl r6) as [g post] eqn:S5.
  fold not_nl. rewrite S5. intros H. inversion H; subst.
  apply span_sound in S1, S2, S3, S4, S5.
  destruct S1 as (-> & A1 & _), S2 as (-> & A2 & _), S3 as (-> & A3 & _),
           S4 as (-> & A4 & B4), S5 as (-> & A5 & B5).
  exists lit, ws, ds, ws2, c, ws3, post.
  rewrite is_empty_false in Ed. repeat split; auto.
Qed.

Lemma stops_at_app (p : ascii -> bool) (a b : string) (q : ascii -> bool) :
  a <> "" -> all_chars q a = true ->
  (forall c, q c = true -> p c = false) -> stops_at p (a ++ b).
Proof.
  intros N A Q. destruct a as [|c r]; [congruence|]. simpl in *.
  apply andb_prop in A. apply Q, A.
Qed.

Lemma match_title_here_complete (sep : ascii -> bool) (s g1 g2 : string) :
  plain_sep sep -> title_at sep s g1 g2 ->
  match_title_here sep s = Some (g1, g2).
Proof.
  intros P (lit & ws & ds & ws2 & c & ws3 & post & -> & Hl & A1 & A2 & N2
            & A3 & Ec & A4 & B4 & A5 & B5 & ->).
  unfold match_title_here. rewrite <- Hl, match_literal_ci_complete.
  destruct (P c Ec) as [Ps Pd].
  rewrite (span_greedy isspace ws _ A1)
    by (apply stops_at_app with (q := isdigit);
        auto using digit_not_space).
  assert (D : stops_at isdigit (ws2 ++ String c (ws3 ++ g2 ++ post))).
  { destruct ws2 as [|x ws2]; simpl in *; [assumption|].
    apply andb_prop in A3. apply space_not_digit, A3. }
  rewrite (span_greedy isdigit ds _ A2 D).
  apply is_empty_false in N2. rewrite N2.
  rewrite (span_greedy isspace ws2 (String c _) A3 Ps).
  rewrite Ec, (span_greedy isspace ws3 _ A4 B4).
  fold not_nl. now rewrite (span_greedy not_nl g2 _ A5 B5).
Qed.

Lemma search_title_none (sep : ascii -> bool) (t : string) :
  search_title sep t = None <->
  (forall p r, t = p ++ r -> match_title_here sep r = None).
Proof.
  induction t as [|c t IH]; cbn [search_title].
  - split.
    + intros H p r E. destruct p; [|discriminate]. simpl in E. subst r.
      destruct (match_title_here sep ""); [destruct p; discriminate|auto].
    + intros H. now rewrite (H "" "" eq_refl).
  - destruct (match_title_here sep (String c t)) as [g|] eqn:M.
    + split; [discriminate|]. intros H.
      specialize (H "" _ eq_refl). congruence.
    + rewrite IH. split; intros H p r E.
      * destruct p as [|x p]; simpl in E; [now subst r|].
        inversion E; subst. eapply H; reflexivity.
      * apply (H (String c p)). simpl. now rewrite E.
Qed.

Lemma search_title_some (sep : ascii -> bool) (t : string) (g : string * string) :
  search_title sep t = Some g <->
  (exists pre rest, t = pre ++ rest
     /\ match_title_here sep rest = Some g
     /\ forall p r, t = p ++ r -> String.length p < String.length pre ->
                    match_title_here sep r = None).
Proof.
  induction t as [|c t IH]; cbn [search_title].
  - destruct (match_title_here sep "") as [g'|] eqn:M.
    + split.
      * intros H. inversion H; subst. exists "", "". simpl.
        repeat split; auto. intros; lia.
      * intros (pre & rest & E & Hm & _).
        destruct pre; [|discriminate]. simpl in E. subst rest. congruence.
    + split; [discriminate|].
      intros (pre & rest & E & Hm & _).
      destruct pre; [|discriminate]. simpl in E. subst rest. congruence.
  - destruct (match_title_here sep (String c t)) as [g'|] eqn:M.
    + split.
      * intros H. inversion H; subst. exists "", (String c t). simpl.
        repeat split; auto. intros; lia.
      * intros (pre & rest & E & Hm & Hn).
        destruct pre as [|x pre]; simpl in E.
        -- subst rest. congruence.
        -- specialize (Hn "" _ eq_refl). simpl in Hn.
           rewrite Hn in M; [discriminate|lia].
    + rewrite IH. split.
      * intros (pre & rest & -> & Hm & Hn).
        exists (String c pre), rest. repeat split; auto.
        intros p r E L. destruct p as [|x p]; simpl in E.
        -- now subst r.
        -- inversion E; subst. eapply Hn; [eassumption|]. simpl in L. lia.
      * intros (pre & rest & E & Hm & Hn).
        destruct pre as [|x pre]; simpl in E.
        -- subst rest. congruence.
        -- inversion E; subst. exists pre, rest. repeat split; auto.
           intros p r E' L. apply (Hn (String x p)).
           ++ simpl. now rewrite E'.
           ++ simpl. lia.
Qed.

(** No position of [t] carries the title pattern. *)
Definition no_title_in (sep : ascii -> bool) (t : string) : Prop :=
  forall p r a b, t = p ++ r -> ~ title_at sep r a b.

(** The leftmost position of [t] that carries the pattern, with its groups. *)
Definition first_title_in (sep : ascii -> bool) (t g1 g2 : string) : Prop :=
  exists pre rest,
    t = pre ++ rest /\ title_at sep rest g1 g2
    /\ forall p r, t = p ++ r -> String.length p < String.length pre ->
                   forall a b, ~ title_at sep r a b.

Lemma search_title_none_iff (sep : ascii -> bool) (t : string) :
  plain_sep sep -> (search_title sep t = None <-> no_title_in sep t).
Proof.
  intros P. rewrite search_title_none. unfold no_title_in. split.
  - intros H p r a b E T. apply match_title_here_complete in T; [|exact P].
    rewrite (H _ _ E) in T. discriminate.
  - intros H p r E.
    destruct (match_title_here sep r) as [[a b]|] eqn:M; [|reflexivity].
    apply match_title_here_sound in M. exfalso. eapply H; eassumption.
Qed.

Lemma search_title_some_iff (sep : ascii -> bool) (t g1 g2 : string) :
  plain_sep sep ->
  (search_title sep t = Some (g1, g2) <-> first_title_in sep t g1 g2).
Proof.
  intros P. rewrite search_title_some. unfold first_title_in.
  split; intros (pre & rest & E & M & L); exists pre, rest;
    (split; [exact E|]); split.
  - now apply match_title_here_sound.
  - intros p r E' Hl a b T. apply match_title_here_complete in T; [|exact P].
    rewrite (L _ _ E' Hl) in T. discriminate.
  - now apply match_title_here_complete.
  - intros p r E' Hl.
    destruct (match_title_here sep r) as [[a b]|] eqn:M'; [|reflexivity].
    apply match_title_here_sound in M'. exfalso. eapply L; eassumption.
Qed.

Definition not_blank (c : ascii) : bool := negb (Ascii.eqb c " ").

Lemma remove_spaces_filter (s : string) :
  remove_spaces s = filter_chars not_blank s.
Proof.
  induction s as [|c r IH]; simpl; [reflexivity|].
  unfold not_blank at 1. destruct (Ascii.eqb c " "); simpl; congruence.
Qed.



(** The separators and the removal of blanks as the specification words
    them: colon or hyphen, and every whitespace character. *)
Definition spec_title_sep (c : ascii) : bool :=
  (Ascii.eqb c ":" || Ascii.eqb c "-")%bool.

Definition spec_remove_whitespace (s : string) : string :=
  filter_chars (non isspace) s.

(** The sentence of the specification on the code and name of a macro. *)
Definition macro_claim_as_stated (macro_text sheet : string) : Prop :=
  match search_title spec_title_sep macro_text with
  | Some (g1, g2) =>
      extract_macro macro_text sheet = (spec_remove_whitespace g1, strip g2)
  | None =>
      extract_macro macro_text sheet
      = (spec_remove_whitespace (take 10 sheet), sheet)
  end.

Definition tab : ascii := "009"%char.


(** ** Department codes (C3) *)

Lemma str_nat_inj (a b : nat) : str_nat a = str_nat b -> a = b.
Proof.
  unfold str_nat. intros H.
  apply (f_equal NilEmpty.uint_of_string) in H.
  rewrite !NilEmpty.usu in H. inversion H.
  now apply DecimalNat.Unsigned.to_uint_inj.
Qed.

Lemma str_nat_nonempty (n : nat) : str_nat n <> "".
Proof.
  unfold str_nat. intros H.
  apply (f_equal NilEmpty.uint_of_string) in H.
  rewrite NilEmpty.usu in H. simpl in H. inversion H as [E].
  pose proof (DecimalNat.Unsigned.of_to n) as O. rewrite E in O.
  simpl in O. subst n. discriminate.
Qed.

(** The candidates of the probe loop: the base code, then the base code
    followed by 1, 2, 3, ... *)
Definition cand (base_code : string) (k : nat) : string :=
  match k with
  | 0 => base_code
  | S _ => base_code ++ str_nat k
  end.

Lemma append_self (a b : string) : a = a ++ b -> b = "".
Proof.
  intros H. apply (append_inj_l a). now rewrite append_nil_r.
Qed.

Lemma cand_inj (base_code : string) (i j : nat) :
  cand base_code i = cand base_code j -> i = j.
Proof.
  destruct i, j; simpl; intros H; auto.
  - apply append_self in H. now apply str_nat_nonempty in H.
  - symmetry in H. apply append_self in H. now apply str_nat_nonempty in H.
  - apply append_inj_l in H. now apply str_nat_inj.
Qed.

(** A candidate is accepted when no department holds it or the department
    found under it has the name being resolved. *)
Definition accepted (depts : list Department) (dir_name c : string) : Prop :=
  match find (dept_has_code c) depts with
  | None => True
  | Some existing => d_name existing = dir_name
  end.

Definition rejected (depts : list Department) (dir_name c : string) : Prop :=
  exists existing,
    find (dept_has_code c) depts = Some existing
    /\ d_name existing <> dir_name.

Lemma accepted_not_rejected depts dir_name c :
  accepted depts dir_name c -> ~ rejected depts dir_name c.
Proof.
  unfold accepted. intros A (e & F & N). rewrite F in A. contradiction.
Qed.

Lemma probe_loop_sound depts base_code dir_name :
  forall fuel k c,
    probe_loop fuel depts base_code dir_name (cand base_code k) (S k) = Some c ->
    exists j, k <= j /\ c = cand base_code j
              /\ accepted depts dir_name c
              /\ forall i, k <= i < j ->
                           rejected depts dir_name (cand base_code i).
Proof.
  induction fuel as [|fuel IH]; intros k c; simpl; [discriminate|].
  destruct (find (dept_has_code (cand base_code k)) depts) as [e|] eqn:F.
  - destruct (String.eqb_spec (d_name e) dir_name) as [E|E].
    + intros H. inversion H; subst c. exists k. repeat split; auto.
      * unfold accepted. now rewrite F.
      * intros i Hi. lia.
    + intros H. change (base_code ++ str_nat (S k)) with (cand base_code (S k)) in H.
      destruct (IH _ _ H) as (j & Hj & -> & A & R).
      exists j. repeat split; auto; [lia|].
      intros i Hi. destruct (Nat.eq_dec i k) as [->|Hne].
      * exists e. auto.
      * apply R. lia.
  - intros H. inversion H; subst c. exists k. repeat split; auto.
    + unfold accepted. now rewrite F.
    + intros i Hi. lia.
Qed.

Lemma rejected_in_codes depts dir_name c :
  rejected depts dir_name c -> In c (map d_code depts).
Proof.
  intros (e & F & _). apply find_some in F. destruct F as [Hin Hc].
  apply String.eqb_eq in Hc. subst c. now apply in_map.
Qed.

Lemma rejected_bound depts base_code dir_name (k : nat) :
  (forall i, i < k -> rejected depts dir_name (cand base_code i)) ->
  k <= List.length depts.
Proof.
  intros R.
  assert (Hinc : incl (map (cand base_code) (seq 0 k)) (map d_code depts)).
  { intros c Hc. apply in_map_iff in Hc. destruct Hc as (i & <- & Hi).
    apply in_seq in Hi. eapply rejected_in_codes, R. lia. }
  assert (Hnd : NoDup (map (cand base_code) (seq 0 k))).
  { apply Injective_map_NoDup; [|apply seq_NoDup].
    intros i j. apply cand_inj. }
  pose proof (NoDup_incl_length Hnd Hinc) as L.
  now rewrite !length_map, length_seq in L.
Qed.

Lemma probe_loop_enough depts base_code dir_name :
  forall fuel k,
    List.length depts < fuel + k ->
    (forall i, i < k -> rejected depts dir_name (cand base_code i)) ->
    probe_loop fuel depts base_code dir_name (cand base_code k) (S k) <> None.
Proof.
  induction fuel as [|fuel IH]; intros k L R.
  - apply rejected_bound in R. simpl in L. lia.
  - simpl.
    destruct (find (dept_has_code (cand base_code k)) depts) as [e|] eqn:F;
      [|discriminate].
    destruct (String.eqb_spec (d_name e) dir_name) as [E|E]; [discriminate|].
    change (base_code ++ str_nat (S k)) with (cand base_code (S k)).
    apply IH; [lia|].
    intros i Hi. destruct (Nat.eq_dec i k) as [->|Hne].
    + exists e. auto.
    + apply R. lia.
Qed.

Lemma probe_loop_more_fuel depts base_code dir_name :
  forall fuel extra candidate counter c,
    probe_loop fuel depts base_code dir_name candidate counter = Some c ->
    probe_loop (fuel + extra) depts base_code dir_name candidate counter
    = Some c.
Proof.
  induction fuel as [|fuel IH]; intros extra candidate counter c; simpl;
    [discriminate|].
  destruct (find (dept_has_code candidate) depts) as [e|]; auto.
  destruct (String.eqb (d_name e) dir_name); auto.
Qed.

(** The loop ends, and within as many rounds as there are departments plus
    one. *)
Lemma probe_loop_terminates depts dir_name :
  probe_loop (S (List.length depts)) depts (base_code_of dir_name) dir_name
             (base_code_of dir_name) 1
  = Some (unique_code depts dir_name).
Proof.
  unfold unique_code.
  destruct (probe_loop (S (List.length depts)) depts (base_code_of dir_name)
              dir_name (base_code_of dir_name) 1) eqn:P; [reflexivity|].
  exfalso. revert P.
  apply (probe_loop_enough depts (base_code_of dir_name) dir_name
           (S (List.length depts)) 0); [lia|]. intros i Hi. lia.
Qed.

Lemma unique_code_spec depts dir_name :
  exists j,
    unique_code depts dir_name = cand (base_code_of dir_name) j
    /\ accepted depts dir_name (unique_code depts dir_name)
    /\ (forall i, i < j -> rejected depts dir_name
                                    (cand (base_code_of dir_name) i))
    /\ j <= List.length depts.
Proof.
  pose proof (probe_loop_terminates depts dir_name) as P.
  apply (probe_loop_sound depts (base_code_of dir_name) dir_name _ 0) in P.
  destruct P as (j & _ & E & A & R).
  exists j. repeat split; auto.
  - intros i Hi. apply R. lia.
  - apply (rejected_bound depts (base_code_of dir_name) dir_name).
    intros i Hi. apply R. lia.
Qed.

Lemma unique_code_least depts dir_name (j : nat) :
  accepted depts dir_name (cand (base_code_of dir_name) j) ->
  (forall i, i < j -> rejected depts dir_name (cand (base_code_of dir_name) i)) ->
  unique_code depts dir_name = cand (base_code_of dir_name) j.
Proof.
  intros A R. destruct (unique_code_spec depts dir_name) as (j' & E & A' & R' & _).
  rewrite E in *. f_equal.
  destruct (Nat.lt_trichotomy j' j) as [L|[L|L]]; auto.
  - exfalso. apply (accepted_not_rejected _ _ _ A'). now apply R.
  - exfalso. apply (accepted_not_rejected _ _ _ A). now apply R'.
Qed.

(** ** Reasoning about runs *)

From Stdlib Require Import RelationClasses.

(** [steps R m]: whatever [m] does to the world, and however it ends, the
    world before and the world after are related by [R]. *)
Definition steps {A} (R : World -> World -> Prop) (m : M A) : Prop :=
  forall w, match m w with
            | Ok _ w' => R w w'
            | Raised _ w' => R w w'
            end.

Section StepRules.

Context (R : World -> World -> Prop) `{!PreOrder R}.

Lemma steps_ret {A} (a : A) : steps R (ret a).
Proof. intros w. simpl. reflexivity. Qed.

Lemma steps_raise {A} (e : Exn) : steps R (@raise A e).
Proof. intros w. simpl. reflexivity. Qed.

Lemma steps_gets {A} (f : World -> A) : steps R (gets f).
Proof. intros w. simpl. reflexivity. Qed.

Lemma steps_bind {A B} (m : M A) (k : A -> M B) :
  steps R m -> (forall a, steps R (k a)) -> steps R (bind m k).
Proof.
  intros Hm Hk w. unfold bind. specialize (Hm w).
  destruct (m w) as [a w1|e w1]; [|assumption].
  specialize (Hk a w1). destruct (k a w1); etransitivity; eassumption.
Qed.

Lemma steps_for_each {A S} (body : A -> S -> M S) (l : list A) (s : S) :
  (forall x s', In x l -> steps R (body x s')) -> steps R (for_each body l s).
Proof.
  revert s; induction l as [|x r IH]; intros s H; simpl.
  - apply steps_ret.
  - apply steps_bind; [apply H; now left|].
    intros s'. apply IH. intros y s'' Hy. apply H. now right.
Qed.

Lemma steps_modify (f : World -> World) :
  (forall w, R w (f w)) -> steps R (modify f).
Proof. intros H w. apply H. Qed.

Lemma steps_now :
  (forall w, R w (set_clock (S (clock w)) w)) -> steps R now.
Proof. intros H w. apply H. Qed.

End StepRules.

(** Relations between the world before and after. *)
Definition keeps {A} (f : World -> A) : World -> World -> Prop :=
  fun w w' => f w' = f w.

Definition grows {A} (f : World -> list A) : World -> World -> Prop :=
  fun w w' => exists l, f w' = (f w ++ l)%list.

Definition maintains (I : World -> Prop) : World -> World -> Prop :=
  fun w w' => I w -> I w'.

Definition both (R1 R2 : World -> World -> Prop) : World -> World -> Prop :=
  fun w w' => R1 w w' /\ R2 w w'.

#[export] Instance keeps_preorder {A} (f : World -> A) : PreOrder (keeps f).
Proof.
  split; unfold keeps; [intros w; reflexivity|].
  intros a b c H1 H2. congruence.
Qed.

#[export] Instance grows_preorder {A} (f : World -> list A) :
  PreOrder (grows f).
Proof.
  split; unfold grows.
  - intros w. exists []. now rewrite app_nil_r.
  - intros a b c [l1 H1] [l2 H2]. exists (l1 ++ l2)%list.
    now rewrite H2, H1, app_assoc.
Qed.

#[export] Instance maintains_preorder (I : World -> Prop) :
  PreOrder (maintains I).
Proof. split; unfold maintains; [intros w; auto|intros a b c; auto]. Qed.

#[export] Instance both_preorder R1 R2 `{!PreOrder R1} `{!PreOrder R2} :
  PreOrder (both R1 R2).
Proof.
  split; unfold both.
  - intros w. split; reflexivity.
  - intros a b c [H1 H2] [H3 H4]. split; etransitivity; eassumption.
Qed.

Lemma steps_both {A} R1 R2 (m : M A) :
  steps R1 m -> steps R2 m -> steps (both R1 R2) m.
Proof.
  intros H1 H2 w. specialize (H1 w). specialize (H2 w).
  destruct (m w); split; assumption.
Qed.

Lemma steps_weaken {A} (R1 R2 : World -> World -> Prop) (m : M A) :
  (forall w w', R1 w w' -> R2 w w') -> steps R1 m -> steps R2 m.
Proof.
  intros H H1 w. specialize (H1 w). destruct (m w); auto.
Qed.

(** What a collection operation leaves alone is read off its definition. *)
Ltac leaf :=
  intros;
  unfold keeps, upsert;
  repeat match goal with
         | |- context [if ?b then _ else _] => destruct b
         end;
  reflexivity.

Ltac rule L := apply L; try typeclasses eauto.

Ltac step_rule :=
  lazymatch goal with
  | |- steps _ (ret _) => rule @steps_ret
  | |- steps _ (raise _) => rule @steps_raise
  | |- steps _ (gets _) => rule @steps_gets
  | |- steps _ (bind _ _) => rule @steps_bind; [|intros]
  | |- steps _ now => rule @steps_now; solve [leaf]
  | |- steps _ (modify _) => rule @steps_modify; solve [leaf]
  | |- steps _ (print _) => rule @steps_modify; solve [leaf]
  | |- steps _ (for_each _ _ _) => rule @steps_for_each; intros
  | |- steps _ (match ?x with _ => _ end) => destruct x
  end.

Ltac step_rules := repeat step_rule.

Lemma resolve_department_keeps_documents (n : string) :
  steps (keeps documents) (resolve_department n).
Proof. unfold resolve_department, insert_department_if_absent,
         insert_job_position_if_absent. step_rules. Qed.

Lemma resolve_department_keeps_macros (n : string) :
  steps (keeps macros) (resolve_department n).
Proof. unfold resolve_department, insert_department_if_absent,
         insert_job_position_if_absent. step_rules. Qed.

(** ** Lists as collections *)

Lemma existsb_find {A} (p : A -> bool) (l : list A) :
  existsb p l = match find p l with Some _ => true | None => false end.
Proof.
  induction l as [|x r IH]; simpl; [reflexivity|].
  destruct (p x); simpl; auto.
Qed.

Lemma find_app {A} (p : A -> bool) (l l' : list A) :
  find p (l ++ l')%list
  = match find p l with Some x => Some x | None => find p l' end.
Proof.
  induction l as [|x r IH]; simpl; [reflexivity|].
  destruct (p x); auto.
Qed.

Lemma find_true {A} (p : A -> bool) (l : list A) (x : A) :
  find p l = Some x -> p x = true.
Proof. intros H. now apply find_some in H. Qed.

Lemma find_upsert {A} (p : A -> bool) (f : A -> A) (g : ObjectId -> A)
    (l : list A) (nid : ObjectId) :
  (forall x, p x = true -> p (f x) = true) ->
  p (g nid) = true ->
  find p (fst (upsert p f g l nid))
  = match find p l with
    | Some x => Some (f x)
    | None => Some (g nid)
    end.
Proof.
  intros Hf Hg. unfold upsert. rewrite existsb_find.
  destruct (find p l) as [x|] eqn:F; simpl.
  - clear Hg. induction l as [|y r IH]; simpl in *; [discriminate|].
    destruct (p y) eqn:E.
    + inversion F; subst. simpl. now rewrite (Hf _ E).
    + simpl. rewrite E. auto.
  - rewrite find_app, F. simpl. now rewrite Hg.
Qed.

Lemma upsert_absent {A} (p : A -> bool) (f : A -> A) (g : ObjectId -> A)
    (l : list A) (nid : ObjectId) :
  find p l = None -> upsert p f g l nid = ((l ++ [g nid])%list, S nid).
Proof. intros F. unfold upsert. now rewrite existsb_find, F. Qed.

Lemma update_first_id {A} (p : A -> bool) (l : list A) :
  update_first p (fun x => x) l = l.
Proof.
  induction l as [|x r IH]; simpl; [reflexivity|].
  destruct (p x); congruence.
Qed.

Lemma upsert_present_keep {A} (p : A -> bool) (g : ObjectId -> A)
    (l : list A) (nid : ObjectId) (x : A) :
  find p l = Some x -> upsert p (fun old => old) g l nid = (l, nid).
Proof.
  intros F. unfold upsert. now rewrite existsb_find, F, update_first_id.
Qed.

(** ** What resolving one name does *)

Lemma dept_has_name_refl i n c a t1 t2 :
  dept_has_name n (mkDepartment i n c a t1 t2) = true.
Proof. unfold dept_has_name. simpl. apply String.eqb_refl. Qed.

(** The world after [resolve_department]: a department is appended when
    the name is new, and a job position when the pair of the name and the
    department id is new. *)
Definition resolved_world (n : string) (w : World) : World :=
  let code := unique_code (departments w) n in
  let w1 :=
    match find (dept_has_name n) (departments w) with
    | Some _ => set_clock (2 + clock w) w
    | None =>
        set_next_id (S (next_id w))
          (set_departments
             (departments w
              ++ [mkDepartment (next_id w) n code true (clock w)
                               (S (clock w))])%list
             (set_clock (2 + clock w) w))
    end in
  let dep :=
    match find (dept_has_name n) (departments w) with
    | Some d => d_id d
    | None => next_id w
    end in
  match find (jp_has_key n dep) (job_positions w1) with
  | Some _ => set_clock (2 + clock w1) w1
  | None =>
      set_next_id (S (next_id w1))
        (set_job_positions
           (job_positions w1
            ++ [mkJobPosition (next_id w1) n dep (code ++ "-H") true
                              (clock w1) (S (clock w1))])%list
           (set_clock (2 + clock w1) w1))
  end.

Lemma resolve_department_run (n : string) (w : World) :
  resolve_department n w = Ok tt (resolved_world n w).
Proof.
  unfold resolve_department, resolved_world, bind, gets, now,
    insert_department_if_absent, insert_job_position_if_absent, modify.
  cbn [clock set_clock departments next_id job_positions].
  destruct (find (dept_has_name n) (departments w)) as [d|] eqn:F.
  - rewrite (upsert_present_keep _ _ _ _ _ F).
    cbn [departments set_next_id set_departments next_id job_positions
         clock set_clock]. rewrite F.
    destruct (find (jp_has_key n (d_id d)) (job_positions w)) as [j|] eqn:J.
    + rewrite (upsert_present_keep _ _ _ _ _ J). destruct w; reflexivity.
    + rewrite (upsert_absent _ _ _ _ _ J). destruct w; reflexivity.
  - rewrite (upsert_absent _ _ _ _ _ F).
    cbn [departments set_next_id set_departments next_id job_positions
         clock set_clock].
    rewrite find_app, F. cbn [find]. rewrite dept_has_name_refl.
    cbn [d_id].
    destruct (find (jp_has_key n (next_id w)) (job_positions w)) as [j|] eqn:J.
    + rewrite (upsert_present_keep _ _ _ _ _ J). destruct w; reflexivity.
    + rewrite (upsert_absent _ _ _ _ _ J). destruct w; reflexivity.
Qed.

Lemma departments_resolved (n : string) (w : World) :
  departments (resolved_world n w)
  = match find (dept_has_name n) (departments w) with
    | Some _ => departments w
    | None =>
        (departments w
         ++ [mkDepartment (next_id w) n (unique_code (departments w) n) true
                          (clock w) (S (clock w))])%list
    end.
Proof.
  unfold resolved_world.
  destruct (find (dept_has_name n) (departments w)) as [d|];
    match goal with
    | |- context [find ?p ?l] => destruct (find p l)
    end; reflexivity.
Qed.

Lemma accepted_new_name_free depts n c :
  find (dept_has_name n) depts = None ->
  accepted depts n c -> find (dept_has_code c) depts = None.
Proof.
  unfold accepted. intros F A.
  destruct (find (dept_has_code c) depts) as [e|] eqn:E; [|reflexivity].
  apply find_some in E. destruct E as [Hin _].
  eapply find_none in F; [|exact Hin].
  unfold dept_has_name in F. rewrite A, String.eqb_refl in F. discriminate.
Qed.

(** Codes stay pairwise distinct when a name is resolved. *)
Lemma resolve_keeps_codes_distinct (n : string) (w : World) :
  NoDup (map d_code (departments w)) ->
  NoDup (map d_code (departments (resolved_world n w))).
Proof.
  intros ND. rewrite departments_resolved.
  destruct (find (dept_has_name n) (departments w)) as [d|] eqn:F;
    [assumption|].
  rewrite map_app. simpl.
  apply NoDup_app; [assumption|repeat constructor; auto|].
  intros c Hc [<-|[]].
  destruct (unique_code_spec (departments w) n) as (_ & _ & A & _).
  apply (accepted_new_name_free _ _ _ F) in A.
  apply in_map_iff in Hc. destruct Hc as (e & Ec & Hin).
  eapply find_none in A; [|exact Hin].
  unfold dept_has_code in A. rewrite Ec, String.eqb_refl in A.
  discriminate.
Qed.

Lemma find_last {A} (p : A -> bool) (l : list A) (x : A) :
  find p l = None -> p x = true -> find p (l ++ [x])%list = Some x.
Proof. intros F H. rewrite find_app, F. simpl. now rewrite H. Qed.

Lemma find_last_skip {A} (p : A -> bool) (l : list A) (x : A) :
  p x = false -> find p (l ++ [x])%list = find p l.
Proof.
  intros H. rewrite find_app. simpl. rewrite H. now destruct (find p l).
Qed.

Lemma two_new_names (w : World) (n1 n2 : string) :
  n1 <> n2 ->
  find (dept_has_name n1) (departments w) = None ->
  find (dept_has_name n2) (departments w) = None ->
  let c1 := unique_code (departments w) n1 in
  let D1 := mkDepartment (next_id w) n1 c1 true (clock w) (S (clock w)) in
  let w1 := resolved_world n1 w in
  let c2 := unique_code (departments w1) n2 in
  let w2 := resolved_world n2 w1 in
  departments w1 = (departments w ++ [D1])%list
  /\ (exists D2, departments w2 = (departments w ++ [D1; D2])%list
                 /\ d_name D2 = n2 /\ d_code D2 = c2)
  /\ find (dept_has_code c1) (departments w) = None
  /\ c1 <> c2.
Proof.
  intros Hne F1 F2 c1 D1 w1 c2 w2.
  assert (E1 : departments w1 = (departments w ++ [D1])%list).
  { unfold w1. now rewrite departments_resolved, F1. }
  assert (F2' : find (dept_has_name n2) (departments w1) = None).
  { rewrite E1, find_last_skip; [assumption|].
    unfold dept_has_name. simpl. now apply String.eqb_neq. }
  assert (A1 : find (dept_has_code c1) (departments w) = None).
  { destruct (unique_code_spec (departments w) n1) as (_ & _ & A & _).
    now apply (accepted_new_name_free _ _ _ F1). }
  split; [exact E1|]. split; [|split; [exact A1|]].
  - exists (mkDepartment (next_id w1) n2 c2 true (clock w1) (S (clock w1))).
    unfold w2. rewrite departments_resolved, F2'.
    change (unique_code (departments w1) n2) with c2.
    rewrite E1, <- app_assoc. repeat split.
  - intros Hc.
    destruct (unique_code_spec (departments w1) n2) as (_ & _ & A & _).
    apply (accepted_new_name_free _ _ _ F2') in A. fold c2 in A.
    rewrite <- Hc, E1, (find_last _ _ D1 A1) in A; [discriminate|].
    unfold dept_has_code. simpl. apply String.eqb_refl.
Qed.

(** C3: the probe loop ends; it keeps the base code when that code is free
    or held by the department of the same name, and otherwise takes the
    first of B1, B2, B3, ... that is free or held by the department of the
    same name; two different new names therefore receive different codes,
    and the second receives B1 when both share the base code B and B and
    B1 were free. *)
Theorem department_code_spec (depts : list Department) (dir_name : string) :
  let B := base_code_of dir_name in
  (forall extra,
      probe_loop (S (List.length depts) + extra) depts B dir_name B 1
      = Some (unique_code depts dir_name))
  /\ (accepted depts dir_name B -> unique_code depts dir_name = B)
  /\ (rejected depts dir_name B ->
      exists k, 1 <= k
        /\ unique_code depts dir_name = B ++ str_nat k
        /\ accepted depts dir_name (B ++ str_nat k)
        /\ forall i, 1 <= i < k -> rejected depts dir_name (B ++ str_nat i))
  /\ (rejected depts dir_name B ->
      find (dept_has_code (B ++ "1")) depts = None ->
      unique_code depts dir_name = B ++ "1")
  /\ (forall w other,
        departments w = depts -> other <> dir_name ->
        find (dept_has_name dir_name) depts = None ->
        find (dept_has_name other) depts = None ->
        exists w2 D1 D2,
          (resolve_department dir_name ;; resolve_department other) w
          = Ok tt w2
          /\ departments w2 = (depts ++ [D1; D2])%list
          /\ d_name D1 = dir_name /\ d_name D2 = other
          /\ d_code D1 = unique_code depts dir_name
          /\ d_code D1 <> d_code D2
          /\ (base_code_of other = B ->
              find (dept_has_code B) depts = None ->
              find (dept_has_code (B ++ "1")) depts = None ->
              d_code D1 = B /\ d_code D2 = B ++ "1")).
Proof.
  cbv zeta. split; [|split; [|split; [|split]]].
  - intros extra. apply probe_loop_more_fuel, probe_loop_terminates.
  - intros A. apply (unique_code_least depts dir_name 0); [exact A|].
    intros i Hi. lia.
  - intros R. destruct (unique_code_spec depts dir_name) as (j & E & A & Rj & _).
    destruct j as [|j].
    + exfalso. rewrite E in A. simpl in A.
      now apply (accepted_not_rejected _ _ _ A).
    + exists (S j). split; [lia|]. split; [exact E|]. split.
      * now rewrite E in A.
      * intros i Hi. destruct i as [|i]; [lia|]. apply (Rj (S i)). lia.
  - intros R F. apply (unique_code_least depts dir_name 1).
    + unfold accepted. simpl. change (str_nat 1) with "1". now rewrite F.
    + intros i Hi. assert (i = 0) as -> by lia. exact R.
  - intros w other <- Hne F1 F2.
    assert (Hne' : dir_name <> other) by congruence.
    destruct (two_new_names w dir_name other Hne' F1 F2)
      as (E1 & (D2 & E2 & N2 & C2) & A1 & Hc).
    eexists. eexists. exists D2. unfold bind.
    rewrite resolve_department_run, resolve_department_run.
    split; [reflexivity|]. split; [exact E2|].
    split; [reflexivity|]. split; [exact N2|]. split; [reflexivity|].
    split; [simpl; now rewrite C2|].
    intros HB FB FB1. simpl.
    assert (EB : unique_code (departments w) dir_name = base_code_of dir_name).
    { apply (unique_code_least _ dir_name 0).
      - unfold accepted. simpl. now rewrite FB.
      - intros i Hi. lia. }
    split; [exact EB|]. rewrite C2.
    rewrite <- HB. apply (unique_code_least _ other 1).
    + unfold accepted. simpl. change (str_nat 1) with "1".
      rewrite E1, find_last_skip; [now rewrite HB, FB1|].
      unfold dept_has_code. simpl. rewrite EB, HB.
      apply String.eqb_neq. intros H. apply append_self in H. discriminate.
    + intros i Hi. assert (i = 0) as -> by lia. simpl.
      eexists. split.
      * rewrite E1. apply find_last; [now rewrite HB|].
        unfold dept_has_code. simpl. rewrite EB, HB. apply String.eqb_refl.
      * simpl. exact Hne'.
Qed.

Definition one_department : list Department :=
  [mkDepartment 1 "Direction Technique" "DT" true 0 1].

Lemma department_code_spec_witness :
  unique_code one_department "Direction Technique" = "DT"
  /\ unique_code one_department "Direction Transport" = "DT1"
  /\ exists w2 D1 D2,
       (resolve_department "Direction Technique" ;;
        resolve_department "Direction Transport") empty_world = Ok tt w2
       /\ departments w2 = [D1; D2]
       /\ d_code D1 = "DT" /\ d_code D2 = "DT1".
Proof.
  split; [|split].
  - apply (proj1 (proj2 (department_code_spec one_department
                           "Direction Technique"))).
    reflexivity.
  - apply (proj1 (proj2 (proj2 (proj2 (department_code_spec one_department
                                         "Direction Transport"))))).
    + eexists. split; [reflexivity|]. simpl. discriminate.
    + reflexivity.
  - destruct (proj2 (proj2 (proj2 (proj2
                (department_code_spec [] "Direction Technique"))))
                empty_world "Direction Transport" eq_refl)
      as (w2 & D1 & D2 & Hrun & Hd & _ & _ & _ & _ & Hc);
      [discriminate|reflexivity|reflexivity|].
    exists w2, D1, D2. split; [exact Hrun|]. split; [exact Hd|].
    apply Hc; reflexivity.
Defined.

Lemma bind_ok {A B} (m : M A) (k : A -> M B) (w : World) (a : A)
    (w' : World) :
  m w = Ok a w' -> (x <- m ;; k x) w = k a w'.
Proof. intros H. unfold bind. now rewrite H. Qed.

Lemma bind_raised {A B} (m : M A) (k : A -> M B) (w : World) (e : Exn)
    (w' : World) :
  m w = Raised e w' -> (x <- m ;; k x) w = Raised e w'.
Proof. intros H. unfold bind. now rewrite H. Qed.

Lemma now_run (w : World) : now w = Ok (clock w) (set_clock (S (clock w)) w).
Proof. reflexivity. Qed.

(** ** Header detection *)

(** The scan without the world: a row index, no row, or an exception. *)
Fixpoint header_scan (df : DataFrame) (i n : nat) : Exn + option nat :=
  match n with
  | 0 => inr None
  | S n' =>
      match nth_error df i with
      | None => inl IndexError
      | Some row =>
          if is_header_row row then inr (Some i)
          else header_scan df (S i) n'
      end
  end.

Lemma scan_header_pure (df : DataFrame) (n i : nat) (w : World) :
  scan_header df i n w
  = match header_scan df i n with
    | inr r => Ok r w
    | inl e => Raised e w
    end.
Proof.
  revert i; induction n as [|n IH]; intros i; simpl; [reflexivity|].
  destruct (nth_error df i) as [row|]; [|reflexivity].
  destruct (is_header_row row); [reflexivity|apply IH].
Qed.

Definition no_header_in (df : DataFrame) (lo hi : nat) : Prop :=
  forall j row, lo <= j < hi -> nth_error df j = Some row ->
                is_header_row row = false.

Lemma header_scan_spec (df : DataFrame) (n i : nat) :
  i <= List.length df ->
  match header_scan df i n with
  | inr (Some h) =>
      i <= h < i + n /\ no_header_in df i h
      /\ exists row, nth_error df h = Some row /\ is_header_row row = true
  | inr None => i + n <= List.length df /\ no_header_in df i (i + n)
  | inl e =>
      e = IndexError /\ List.length df < i + n
      /\ no_header_in df i (List.length df)
  end.
Proof.
  revert i; induction n as [|n IH]; intros i Hi; simpl.
  - split; [lia|]. intros j row Hj. lia.
  - destruct (nth_error df i) as [row|] eqn:E.
    + assert (Hlt : i < List.length df).
      { apply nth_error_Some. congruence. }
      destruct (is_header_row row) eqn:H.
      * split; [lia|]. split; [intros j r Hj; lia|]. now exists row.
      * specialize (IH (S i) Hlt).
        assert (Hstep : forall hi, no_header_in df (S i) hi ->
                                   no_header_in df i hi).
        { intros hi N j r Hj Hr. destruct (Nat.eq_dec j i) as [->|Hne].
          - congruence.
          - apply (N j r); [lia|assumption]. }
        destruct (header_scan df (S i) n) as [e|[h|]].
        -- destruct IH as (-> & L & N). repeat split; auto. lia.
        -- destruct IH as (L & N & R). repeat split; auto; lia.
        -- destruct IH as (L & N). split; [lia|].
           apply Hstep. now replace (i + S n) with (S i + n) by lia.
    + apply nth_error_None in E. split; [reflexivity|]. split; [lia|].
      intros j r Hj. lia.
Qed.

Lemma find_header_row_run (df : DataFrame) (w : World) :
  find_header_row df w
  = match header_scan df 0 10 with
    | inr r => Ok r w
    | inl e => Raised e w
    end.
Proof. apply scan_header_pure. Qed.

(** ** The macro record of a sheet *)

(** Code, name and description of the macro, when the cells that hold them
    can be read. *)
Definition macro_info (sh : Sheet) : option (string * string * string) :=
  let df := sheet_frame sh in
  match nth_error df 0 with
  | Some (title_cell :: _) =>
      let (macro_code, macro_name) :=
        extract_macro (clean_text title_cell) (sheet_name sh) in
      if Nat.ltb 3 (shape0 df) then
        match nth_error df 3 with
        | Some (x :: _) => Some (macro_code, macro_name, clean_text x)
        | _ => None
        end
      else Some (macro_code, macro_name, "")
  | _ => None
  end.

Definition processing_line (sh : Sheet) : string :=
  String nl "Processing Macro: " ++ sheet_name sh.

Definition macro_id_for (macro_code : string) (w : World) : ObjectId :=
  match find (macro_has_code macro_code) (macros w) with
  | Some old => m_id old
  | None => next_id w
  end.

Section MacroStep.

Variable CREATED_BY_ID : ObjectId.

(** The macros collection once the record of the sheet is written. *)
Definition macros_upserted (macro_code macro_name macro_desc : string)
    (w : World) : list Macro * ObjectId :=
  let md := make_macro_doc CREATED_BY_ID macro_code macro_name macro_desc
                           (clock w) (S (clock w)) in
  upsert (macro_has_code macro_code)
         (fun old => macro_with_id (m_id old) md)
         (fun i => macro_with_id i md)
         (macros w) (next_id w).

(** The world at the point where header detection starts. *)
Definition macro_upserted (sh : Sheet)
    (macro_code macro_name macro_desc : string) (w : World) : World :=
  let (l, n) := macros_upserted macro_code macro_name macro_desc w in
  mkWorld l (departments w) (job_positions w) (documents w) n
          (2 + clock w) (console w ++ [processing_line sh])%list.

Lemma find_macros_upserted (macro_code macro_name macro_desc : string)
    (w : World) :
  find (macro_has_code macro_code)
       (fst (macros_upserted macro_code macro_name macro_desc w))
  = Some (macro_with_id (macro_id_for macro_code w)
            (make_macro_doc CREATED_BY_ID macro_code macro_name macro_desc
                            (clock w) (S (clock w)))).
Proof.
  unfold macros_upserted, macro_id_for. rewrite find_upsert.
  - now destruct (find (macro_has_code macro_code) (macros w)).
  - intros x _. unfold macro_has_code. simpl. apply String.eqb_refl.
  - unfold macro_has_code. simpl. apply String.eqb_refl.
Qed.

Lemma import_sheet_run (sh : Sheet) (totals : nat * nat) (w : World)
    (macro_code macro_name macro_desc : string) :
  macro_info sh = Some (macro_code, macro_name, macro_desc) ->
  import_sheet CREATED_BY_ID sh totals w
  = import_details CREATED_BY_ID sh (macro_id_for macro_code w) macro_code
      totals (macro_upserted sh macro_code macro_name macro_desc w).
Proof.
  intros H. unfold macro_info in H. unfold import_sheet.
  destruct (nth_error (sheet_frame sh) 0) as [[|title_cell r0]|] eqn:E0;
    try discriminate.
  set (w1 := set_console (console w ++ [processing_line sh])%list w).
  rewrite (bind_ok _ _ w tt w1) by reflexivity.
  rewrite (bind_ok _ _ w1 title_cell w1)
    by (unfold iloc; now rewrite E0).
  destruct (extract_macro (clean_text title_cell) (sheet_name sh))
    as [code name].
  assert (D : (if Nat.ltb 3 (shape0 (sheet_frame sh))
               then x <- iloc (sheet_frame sh) 3 0 ;; ret (clean_text x)
               else ret "") w1 = Ok macro_desc w1
              /\ code = macro_code /\ name = macro_name).
  { destruct (Nat.ltb 3 (shape0 (sheet_frame sh))).
    - destruct (nth_error (sheet_frame sh) 3) as [[|x r3]|] eqn:E3;
        try discriminate.
      inversion H; subst. unfold bind, iloc. now rewrite E3.
    - inversion H; subst. auto. }
  destruct D as (D & -> & ->).
  rewrite (bind_ok _ _ w1 macro_desc w1 D).
  rewrite (bind_ok _ _ _ _ _ (now_run w1)).
  rewrite (bind_ok _ _ _ _ _ (now_run _)).
  pose proof (find_macros_upserted macro_code macro_name macro_desc w) as F.
  unfold macro_upserted.
  destruct (macros_upserted macro_code macro_name macro_desc w) as [l n] eqn:U.
  cbn [fst] in F.
  rewrite (bind_ok _ _ _ tt
             (mkWorld l (departments w) (job_positions w) (documents w) n
                      (2 + clock w) (console w ++ [processing_line sh])%list)).
  - unfold bind, gets. cbn [macros]. now rewrite F.
  - unfold upsert_macro, modify. f_equal. unfold macros_upserted in U.
    subst w1. destruct w. cbn in U |- *. now rewrite U.
Qed.

End MacroStep.

Lemma steps_scan_header R `{!PreOrder R} (df : DataFrame) (i n : nat) :
  steps R (scan_header df i n).
Proof.
  intros w. rewrite scan_header_pure.
  destruct (header_scan df i n); reflexivity.
Qed.

Create HintDb steps_db.
#[export] Hint Resolve resolve_department_keeps_documents
  resolve_department_keeps_macros : steps_db.

Ltac run_rule :=
  lazymatch goal with
  | |- steps _ (scan_header _ _ _) => rule @steps_scan_header
  | |- steps _ (resolve_department _) => solve [auto with steps_db]
  | |- steps _ (let _ := _ in _) => cbv zeta
  | |- _ => step_rule
  end.

Ltac run_rules := repeat run_rule.

Ltac unfold_importer :=
  unfold import_details, import_rows, process_row, start_process,
    append_task, flush_tasks, resolve_stakeholders, upsert_document,
    set_document_tasks, find_header_row.

Section SheetLevel.

Variable CREATED_BY_ID : ObjectId.

Lemma import_details_keeps_macros sh macro_id macro_code totals :
  steps (keeps macros)
        (import_details CREATED_BY_ID sh macro_id macro_code totals).
Proof. unfold_importer. run_rules. Qed.

Definition warning_line (sh : Sheet) : string :=
  "  Warning: Could not find header row for " ++ sheet_name sh
  ++ ". Skipping details.".

Lemma import_details_skip sh macro_id macro_code totals w :
  header_scan (sheet_frame sh) 0 10 = inr None ->
  import_details CREATED_BY_ID sh macro_id macro_code totals w
  = Ok totals (set_console (console w ++ [warning_line sh])%list w).
Proof.
  intros H. unfold import_details.
  rewrite (bind_ok _ _ w None w) by now rewrite find_header_row_run, H.
  reflexivity.
Qed.

(** C9: the macro record of a sheet is written before header detection
    starts.  Whatever happens afterwards the macros collection is the one
    that upsert left; when no header row is found the sheet is left with a
    warning, and departments, job positions and documents are as before
    while the macros collection holds the new content of the record. *)
Theorem macro_upsert_precedes_details (sh : Sheet) (totals : nat * nat)
    (w : World) (macro_code macro_name macro_desc : string) :
  macro_info sh = Some (macro_code, macro_name, macro_desc) ->
  let w_up := macro_upserted CREATED_BY_ID sh macro_code macro_name
                             macro_desc w in
  find (macro_has_code macro_code) (macros w_up)
  = Some (macro_with_id (macro_id_for macro_code w)
            (make_macro_doc CREATED_BY_ID macro_code macro_name macro_desc
                            (clock w) (S (clock w))))
  /\ import_sheet CREATED_BY_ID sh totals w
     = import_details CREATED_BY_ID sh (macro_id_for macro_code w) macro_code
                      totals w_up
  /\ match import_sheet CREATED_BY_ID sh totals w with
     | Ok _ w' => macros w' = macros w_up
     | Raised _ w' => macros w' = macros w_up
     end
  /\ (header_scan (sheet_frame sh) 0 10 = inr None ->
      exists w',
        import_sheet CREATED_BY_ID sh totals w = Ok totals w'
        /\ macros w' = macros w_up
        /\ departments w' = departments w
        /\ job_positions w' = job_positions w
        /\ documents w' = documents w
        /\ console w'
           = (console w ++ [processing_line sh; warning_line sh])%list).
Proof.
  intros H w_up.
  assert (Hw : macros w_up
               = fst (macros_upserted CREATED_BY_ID macro_code macro_name
                                      macro_desc w)
               /\ departments w_up = departments w
               /\ job_positions w_up = job_positions w
               /\ documents w_up = documents w
               /\ console w_up = (console w ++ [processing_line sh])%list).
  { unfold w_up, macro_upserted.
    destruct (macros_upserted _ _ _ _ w). repeat split. }
  destruct Hw as (Hm & Hd & Hj & Hdoc & Hc).
  split; [rewrite Hm; apply find_macros_upserted|].
  rewrite (import_sheet_run _ _ _ _ _ _ _ H). fold w_up.
  split; [reflexivity|]. split.
  - apply (import_details_keeps_macros sh _ macro_code totals w_up).
  - intros Hs. rewrite (import_details_skip _ _ _ _ _ Hs).
    eexists. split; [reflexivity|]. cbn. rewrite Hc, <- app_assoc.
    repeat split; assumption.
Qed.

(** ** Sheets with fewer than 10 rows and no header row (C4) *)

Lemma header_scan_short (df : DataFrame) :
  shape0 df < 10 -> no_header_in df 0 (shape0 df) ->
  header_scan df 0 10 = inl IndexError.
Proof.
  intros L N. pose proof (header_scan_spec df 10 0 (Nat.le_0_l _)) as S.
  unfold shape0 in *.
  destruct (header_scan df 0 10) as [e|[h|]].
  - now destruct S as [-> _].
  - destruct S as (_ & _ & row & E & H).
    assert (h < List.length df) by (apply nth_error_Some; congruence).
    rewrite (N h row) in H; [discriminate|lia|assumption].
  - destruct S as [S _]. simpl in S. lia.
Qed.

Lemma header_scan_long (df : DataFrame) :
  10 <= shape0 df -> no_header_in df 0 10 ->
  header_scan df 0 10 = inr None.
Proof.
  intros L N. pose proof (header_scan_spec df 10 0 (Nat.le_0_l _)) as S.
  unfold shape0 in *.
  destruct (header_scan df 0 10) as [e|[h|]].
  - destruct S as (_ & S & _). simpl in S. lia.
  - destruct S as (Hh & _ & row & E & H).
    rewrite (N h row) in H; [discriminate|lia|assumption].
  - reflexivity.
Qed.

Definition found_line (n : nat) : string :=
  "Found " ++ str_nat n ++ " sheets (Macros).".

(** C4 on the code: a sheet with fewer than 10 rows, none of them a header
    row, is not skipped.  Reading the row after the last one raises
    [IndexError]; the exception leaves [import_data], so the sheets that
    follow are not imported and no summary is printed. *)
Theorem short_sheet_without_header_aborts (sh : Sheet) (rest : list Sheet)
    (w : World) (macro_code macro_name macro_desc : string) :
  macro_info sh = Some (macro_code, macro_name, macro_desc) ->
  shape0 (sheet_frame sh) < 10 ->
  no_header_in (sheet_frame sh) 0 (shape0 (sheet_frame sh)) ->
  exists w',
    import_data CREATED_BY_ID (Some (sh :: rest)) w = Raised IndexError w'
    /\ departments w' = departments w
    /\ job_positions w' = job_positions w
    /\ documents w' = documents w
    /\ console w'
       = (console w
          ++ [found_line (S (List.length rest)); processing_line sh])%list.
Proof.
  intros H L N. unfold import_data.
  set (w0 := set_console
               (console w ++ [found_line (S (List.length rest))])%list w).
  rewrite (bind_ok _ _ w tt w0) by reflexivity.
  set (w_up := macro_upserted CREATED_BY_ID sh macro_code macro_name
                              macro_desc w0).
  exists w_up. split.
  - apply bind_raised. cbn [for_each]. apply bind_raised.
    rewrite (import_sheet_run _ _ _ _ _ _ _ H). unfold import_details.
    apply bind_raised. rewrite find_header_row_run.
    now rewrite (header_scan_short _ L N).
  - unfold w_up, macro_upserted.
    destruct (macros_upserted _ _ _ _ w0). cbn. rewrite <- app_assoc.
    repeat split.
Qed.

(** ** A task row before any process (C10) *)

Definition row_title (df : DataFrame) (col_map : ColMap) (row : list Cell)
  : string := read_col df row (process_title col_map).
Definition row_desc (df : DataFrame) (col_map : ColMap) (row : list Cell)
  : string := read_col df row (process_desc col_map).
Definition row_tasks (df : DataFrame) (col_map : ColMap) (row : list Cell)
  : string := read_col df row (tasks col_map).
Definition row_directions (df : DataFrame) (col_map : ColMap)
    (row : list Cell) : string := read_col df row (directions col_map).

(** Every row of a frame has as many cells as the frame has columns. *)
Definition rectangular (df : DataFrame) : Prop :=
  forall row, In row df -> List.length row = shape1 df.

Lemma is_empty_eq (s : string) : is_empty s = false -> s <> "".
Proof. now destruct s. Qed.

Lemma walk_raises df col_map macro_id macro_code :
  forall rows st w j row,
    current_process_doc st = None ->
    nth_error rows j = Some row ->
    row_tasks df col_map row <> "" ->
    (forall i r, i <= j -> nth_error rows i = Some r ->
                 row_title df col_map r = "") ->
    for_each (process_row CREATED_BY_ID df col_map macro_id macro_code)
             rows st w
    = Raised TypeError w.
Proof.
  induction rows as [|r rs IH]; intros st w j row Hd Hj Ht Hn.
  - destruct j; discriminate.
  - cbn [for_each].
    assert (Hr : row_title df col_map r = "").
    { apply (Hn 0); [lia|reflexivity]. }
    unfold process_row at 1. fold (row_title df col_map r).
    fold (row_tasks df col_map r). rewrite Hr. cbn [is_empty negb andb].
    destruct (is_empty (row_tasks df col_map r)) eqn:E.
    + cbn [negb]. rewrite (bind_ok _ _ w st w) by reflexivity.
      destruct j as [|j].
      * inversion Hj; subst. apply is_empty_true in E. contradiction.
      * apply (IH st w j row); auto.
        intros i r' Hi Hr'. apply (Hn (S i)); [lia|assumption].
    + cbn [negb]. apply bind_raised. unfold bind, ret, append_task.
      now rewrite Hd.
Qed.

Lemma header_row_nonempty (row : list Cell) :
  is_header_row row = true -> row <> [].
Proof. intros H ->. discriminate. Qed.

Lemma rectangular_macro_info (sh : Sheet) (h : nat) :
  rectangular (sheet_frame sh) ->
  header_scan (sheet_frame sh) 0 10 = inr (Some h) ->
  exists info, macro_info sh = Some info.
Proof.
  intros Rc Hs. pose proof (header_scan_spec (sheet_frame sh) 10 0
                              (Nat.le_0_l _)) as S.
  rewrite Hs in S. destruct S as (_ & _ & hrow & Eh & Hh).
  assert (Hcols : 0 < shape1 (sheet_frame sh)).
  { rewrite <- (Rc hrow) by (eapply nth_error_In; eassumption).
    apply header_row_nonempty in Hh. destruct hrow; [congruence|simpl; lia]. }
  assert (Hcell : forall i row, nth_error (sheet_frame sh) i = Some row ->
                                exists x r, row = x :: r).
  { intros i row E. apply nth_error_In in E. apply Rc in E.
    destruct row as [|x r]; [simpl in E; lia|eauto]. }
  unfold macro_info.
  destruct (nth_error (sheet_frame sh) 0) as [row0|] eqn:E0.
  - destruct (Hcell _ _ E0) as (x & r & ->).
    destruct (extract_macro (clean_text x) (sheet_name sh)) as [c n].
    destruct (Nat.ltb_spec 3 (shape0 (sheet_frame sh))) as [L|L]; [|eauto].
    destruct (nth_error (sheet_frame sh) 3) as [row3|] eqn:E3.
    + destruct (Hcell _ _ E3) as (x3 & r3 & ->). eauto.
    + apply nth_error_None in E3. unfold shape0 in L. lia.
  - apply nth_error_None in E0.
    assert (h < List.length (sheet_frame sh))
      by (apply nth_error_Some; congruence).
    lia.
Qed.

Lemma for_each_raises {A S} (body : A -> S -> M S) (before : list A)
    (x : A) (after : list A) :
  (forall s w, exists e w', body x s w = Raised e w') ->
  forall s w, exists e w',
    for_each body (before ++ x :: after)%list s w = Raised e w'.
Proof.
  intros H. induction before as [|y r IH]; intros s w; cbn [app for_each].
  - destruct (H s w) as (e & w' & E). exists e, w'.
    now apply bind_raised.
  - unfold bind. destruct (body y s w) as [s' w1|e w1]; [apply IH|eauto].
Qed.

(** C10: the cell reads are the only part of the loop body under the
    handler.  In a sheet whose header row is found, a data row with a
    non-empty tasks cell that comes before any row with a non-empty title
    makes the task step subscript the absent current process: the sheet
    ends in [TypeError], nothing catches it, and a run over a workbook
    that holds such a sheet ends in an exception. *)
Theorem task_before_process_raises (sh : Sheet) (h j : nat)
    (row : list Cell) :
  let df := sheet_frame sh in
  let col_map := build_col_map (nth h df []) in
  rectangular df ->
  header_scan df 0 10 = inr (Some h) ->
  nth_error (skipn (S h) df) j = Some row ->
  row_tasks df col_map row <> "" ->
  (forall i r, i <= j -> nth_error (skipn (S h) df) i = Some r ->
               row_title df col_map r = "") ->
  (forall totals w, exists w',
      import_sheet CREATED_BY_ID sh totals w = Raised TypeError w'
      /\ documents w' = documents w)
  /\ (forall before after w, exists e w',
        import_data CREATED_BY_ID (Some (before ++ sh :: after)%list) w
        = Raised e w').
Proof.
  intros df col_map Rc Hs Hj Ht Hn.
  destruct (rectangular_macro_info sh h Rc Hs) as ([[code name] desc] & Hi).
  assert (Hsheet : forall totals w, exists w',
             import_sheet CREATED_BY_ID sh totals w = Raised TypeError w'
             /\ documents w' = documents w).
  { intros totals w. rewrite (import_sheet_run _ _ _ _ _ _ _ Hi).
    eexists. split.
    - unfold import_details. fold df.
      erewrite bind_ok by (rewrite find_header_row_run; fold df;
                           now rewrite Hs).
      unfold import_rows. apply bind_raised.
      eapply walk_raises; eauto.
    - unfold macro_upserted. now destruct (macros_upserted _ _ _ _ w). }
  split; [exact Hsheet|].
  intros before after w. unfold import_data.
  erewrite bind_ok by reflexivity.
  destruct (for_each_raises (import_sheet CREATED_BY_ID) before sh after)
    with (s := (0, 0))
         (w := set_console
                 (console w
                  ++ [found_line (List.length (before ++ sh :: after)%list)])%list
                 w)
    as (e & w' & E).
  - intros s w0. destruct (Hsheet s w0) as (w' & E & _). eauto.
  - exists e, w'. now apply bind_raised.
Qed.

End SheetLevel.

Definition short_sheet : Sheet :=
  mkSheet "Annexe"
    [[Text "Liste des annexes"; NaN]; [Text "Annexe A"; Text "Glossaire"];
     [Text "Annexe B"; Text "Contacts"]].

Lemma short_sheet_without_header_aborts_witness :
  exists w',
    import_data 0 (Some [short_sheet]) empty_world
    = Raised IndexError w'
    /\ documents w' = [].
Proof.
  destruct (short_sheet_without_header_aborts 0 short_sheet [] empty_world
              "Annexe" "Annexe" "")
    as (w' & Hrun & _ & _ & Hdoc & _).
  - reflexivity.
  - simpl. lia.
  - intros j row Hj Hr. simpl in Hj.
    destruct j as [|[|[|j]]]; try lia; simpl in Hr; inversion Hr;
      reflexivity.
  - exists w'. split; [exact Hrun|exact Hdoc].
Defined.


Definition header_cells : list Cell :=
  [Text "Description"; Text "Process"; Text "Description du process";
   Text ("Identification des " ++ kw_taches); Text "Directions"].

Definition orphan_task_sheet : Sheet :=
  mkSheet "Feuil2"
    [[Text "Macro 02: Exploitation"; NaN; NaN; NaN; NaN];
     [NaN; NaN; NaN; NaN; NaN];
     header_cells;
     [NaN; NaN; NaN; Text "Relever les compteurs"; NaN];
     [NaN; Text "Supervision"; NaN; Text "Surveiller"; Text "IT"]].

Lemma task_before_process_raises_witness :
  (exists w',
      import_sheet 0 orphan_task_sheet (0, 0) empty_world
      = Raised TypeError w'
      /\ documents w' = [])
  /\ exists e w',
       import_data 0 (Some [orphan_task_sheet]) empty_world = Raised e w'.
Proof.
  destruct (task_before_process_raises 0 orphan_task_sheet 2 0
              [NaN; NaN; NaN; Text "Relever les compteurs"; NaN])
    as [Hsheet Hrun].
  - intros row Hin. simpl in Hin.
    repeat (destruct Hin as [<-|Hin]; [reflexivity|]). contradiction.
  - reflexivity.
  - reflexivity.
  - discriminate.
  - intros i r Hi Hr. assert (i = 0) as -> by lia.
    inversion Hr; subst. reflexivity.
  - split; [apply Hsheet|]. apply (Hrun [] []).
Defined.

Definition blank_row : list Cell := [NaN; NaN].

Definition cover_sheet : Sheet :=
  mkSheet "Page de garde"
    [[Text "Macro 00 - Sommaire"; NaN]; blank_row; blank_row;
     [Text "Vue d'ensemble des macro processus"; NaN];
     blank_row; blank_row; blank_row; blank_row; blank_row; blank_row].

Lemma macro_upsert_precedes_details_witness :
  exists w' m,
    import_sheet 0 cover_sheet (0, 0) empty_world = Ok (0, 0) w'
    /\ macros w' = [m]
    /\ m_code m = "Macro00" /\ m_name m = "Sommaire"
    /\ departments w' = [] /\ job_positions w' = [] /\ documents w' = [].
Proof.
  destruct (macro_upsert_precedes_details 0 cover_sheet (0, 0) empty_world
              "Macro00" "Sommaire" "Vue d'ensemble des macro processus"
              eq_refl)
    as (_ & _ & _ & Hskip).
  destruct (Hskip eq_refl) as (w' & Hrun & Hm & Hd & Hj & Hdoc & _).
  exists w'. eexists. split; [exact Hrun|].
  split; [rewrite Hm; reflexivity|]. repeat split; assumption.
Defined.

(** ** Documents: lookups by key and by id *)

Lemma update_first_map {A B} (p : A -> bool) (f : A -> A) (g : A -> B)
    (l : list A) :
  (forall x, g (f x) = g x) -> map g (update_first p f l) = map g l.
Proof.
  intros H. induction l as [|x r IH]; simpl; [reflexivity|].
  destruct (p x); simpl; [now rewrite H|now rewrite IH].
Qed.

Lemma update_first_absent {A} (p : A -> bool) (f : A -> A) (l : list A) :
  find p l = None -> update_first p f l = l.
Proof.
  induction l as [|x r IH]; simpl; [reflexivity|].
  destruct (p x); [discriminate|]. intros H. now rewrite IH.
Qed.

Lemma find_upsert_other {A} (p q : A -> bool) (f : A -> A)
    (g : ObjectId -> A) (l : list A) (nid : ObjectId) :
  (forall x, p x = true -> q x = false /\ q (f x) = false) ->
  q (g nid) = false ->
  find q (fst (upsert p f g l nid)) = find q l.
Proof.
  intros Hf Hg. unfold upsert. destruct (existsb p l); simpl.
  - induction l as [|x r IH]; simpl; [reflexivity|].
    destruct (p x) eqn:E; simpl.
    + destruct (Hf _ E) as [H1 H2]. now rewrite H1, H2.
    + destruct (q x); auto.
  - now apply find_last_skip.
Qed.

Lemma doc_key_with_id t m i d :
  doc_has_key t m (doc_with_id i d) = doc_has_key t m d.
Proof. reflexivity. Qed.

Lemma doc_key_with_tasks t m ts d :
  doc_has_key t m (doc_with_tasks ts d) = doc_has_key t m d.
Proof. reflexivity. Qed.

Lemma doc_has_key_iff t m d :
  doc_has_key t m d = true <-> doc_title d = t /\ doc_macro_id d = m.
Proof.
  unfold doc_has_key. rewrite andb_true_iff, String.eqb_eq, Nat.eqb_eq.
  tauto.
Qed.

Lemma NoDup_map_inj {A B} (f : A -> B) (l : list A) (x y : A) :
  NoDup (map f l) -> In x l -> In y l -> f x = f y -> x = y.
Proof.
  induction l as [|a r IH]; simpl; intros ND Hx Hy E; [contradiction|].
  inversion ND as [|? ? Hn ND']; subst.
  destruct Hx as [->|Hx], Hy as [->|Hy]; auto.
  - exfalso. apply Hn. rewrite E. now apply in_map.
  - exfalso. apply Hn. rewrite <- E. now apply in_map.
Qed.

(** With distinct ids, an update by id reaches the record found by key
    exactly when that record carries the id. *)
Lemma find_key_after_update_by_id (t : string) (m i : ObjectId)
    (ts : list Task) (l : list Document) :
  NoDup (map doc_id l) ->
  find (doc_has_key t m) (update_first (doc_has_id i) (doc_with_tasks ts) l)
  = option_map (fun x => if Nat.eqb (doc_id x) i then doc_with_tasks ts x
                         else x)
               (find (doc_has_key t m) l).
Proof.
  induction l as [|y r IH]; simpl; intros ND; [reflexivity|].
  inversion ND as [|? ? Hn ND']; subst.
  unfold doc_has_id at 1. destruct (Nat.eqb_spec (doc_id y) i) as [E|E].
  - simpl. rewrite doc_key_with_tasks.
    destruct (doc_has_key t m y) eqn:K; simpl.
    + now rewrite E, Nat.eqb_refl.
    + destruct (find (doc_has_key t m) r) as [x|] eqn:F; [|reflexivity].
      simpl. apply find_some in F. destruct F as [Hin _].
      destruct (Nat.eqb_spec (doc_id x) i) as [E'|E']; [|reflexivity].
      exfalso. apply Hn. rewrite E, <- E'. now apply in_map.
  - simpl. destruct (doc_has_key t m y) eqn:K; simpl.
    + destruct (Nat.eqb_spec (doc_id y) i); [contradiction|reflexivity].
    + now apply IH.
Qed.

(** Ids of documents are pairwise distinct and below the id counter. *)
Definition wf_docs (w : World) : Prop :=
  NoDup (map doc_id (documents w))
  /\ Forall (fun d => doc_id d < next_id w) (documents w).

Lemma wf_docs_empty : wf_docs empty_world.
Proof. split; constructor. Qed.

Lemma wf_docs_update (w : World) (p : Document -> bool)
    (f : Document -> Document) :
  (forall x, doc_id (f x) = doc_id x) ->
  wf_docs w -> wf_docs (set_documents (update_first p f (documents w)) w).
Proof.
  intros Hf [ND Hlt]. split; cbn [documents set_documents next_id].
  - now rewrite update_first_map.
  - clear ND. induction (documents w) as [|x r IH]; simpl; [constructor|].
    inversion Hlt; subst.
    destruct (p x); constructor; auto. now rewrite Hf.
Qed.

Lemma wf_docs_upsert (w : World) (p : Document -> bool)
    (data : Document) :
  wf_docs w ->
  let (l, n) := upsert p (fun old => doc_with_id (doc_id old) data)
                       (fun i => doc_with_id i data)
                       (documents w) (next_id w) in
  wf_docs (set_next_id n (set_documents l w)).
Proof.
  intros [ND Hlt]. unfold upsert. destruct (existsb p (documents w)).
  - apply (wf_docs_update w p (fun old => doc_with_id (doc_id old) data));
      [reflexivity|now split].
  - split; cbn [documents set_documents set_next_id next_id].
    + rewrite map_app. simpl. apply NoDup_app; [assumption|
        repeat constructor; auto|].
      intros i Hi [<-|[]]. apply in_map_iff in Hi.
      destruct Hi as (d & E & Hin). rewrite Forall_forall in Hlt.
      specialize (Hlt d Hin). simpl in E. lia.
    + apply Forall_app. split.
      * eapply Forall_impl; [|exact Hlt]. simpl. intros; lia.
      * constructor; [simpl; lia|constructor].
Qed.

(** The documents are as they were and no id was given back. *)
Definition docs_kept (w w' : World) : Prop :=
  documents w' = documents w /\ next_id w <= next_id w'.

#[export] Instance docs_kept_preorder : PreOrder docs_kept.
Proof.
  split; unfold docs_kept.
  - intros w. split; [reflexivity|lia].
  - intros a b c [H1 H2] [H3 H4]. split; [congruence|lia].
Qed.

Lemma docs_kept_wf (w w' : World) : docs_kept w w' -> wf_docs w -> wf_docs w'.
Proof.
  intros [E L] [ND Hlt]. split; rewrite E; [assumption|].
  eapply Forall_impl; [|exact Hlt]. simpl. intros; lia.
Qed.

Lemma resolve_department_docs_kept (n : string) :
  steps docs_kept (resolve_department n).
Proof.
  intros w. rewrite resolve_department_run. unfold resolved_world.
  destruct (find (dept_has_name n) (departments w));
    match goal with
    | |- context [find ?p ?l] => destruct (find p l)
    end; split; cbn; auto.
Qed.

(** ** What a data row does *)

Definition resolve_all (names : list string) (w : World) : World :=
  fold_left (fun w n => resolved_world n w) names w.

Lemma resolve_each_run (names : list string) (w : World) :
  for_each (fun dir_name (_ : unit) => resolve_department dir_name) names tt w
  = Ok tt (resolve_all names w).
Proof.
  revert w. induction names as [|n r IH]; intros w; [reflexivity|].
  cbn [for_each]. rewrite (bind_ok _ _ _ _ _ (resolve_department_run n w)).
  apply IH.
Qed.

Lemma resolve_stakeholders_run (d_content : string) (w : World) :
  resolve_stakeholders d_content w
  = Ok (candidate_names d_content)
       (resolve_all (candidate_names d_content) w).
Proof.
  unfold resolve_stakeholders.
  now rewrite (bind_ok _ _ _ _ _ (resolve_each_run _ w)).
Qed.

Definition flushed (st : Walk) (w : World) : World :=
  match current_process_doc st with
  | Some d =>
      set_documents
        (update_first (doc_has_id (doc_id d))
                      (doc_with_tasks (current_tasks st)) (documents w)) w
  | None => w
  end.

Definition flushed_count (st : Walk) : nat :=
  match current_process_doc st with
  | Some _ => task_count st + List.length (current_tasks st)
  | None => task_count st
  end.

Section Rows.

Variable CREATED_BY_ID : ObjectId.
Variable df : DataFrame.
Variable col_map : ColMap.
Variable macro_id : ObjectId.
Variable macro_code : string.

Lemma flush_tasks_run (st : Walk) (w : World) :
  flush_tasks st w = Ok (flushed_count st) (flushed st w).
Proof.
  unfold flush_tasks, flushed, flushed_count.
  now destruct (current_process_doc st).
Qed.

Definition process_ref (n : nat) : string := macro_code ++ "_P" ++ str_nat n.

(** The record written when a row opens a process, as a function of the
    world [w2] in which the stakeholders are resolved. *)
Definition new_doc_data (p_title p_desc d_content : string) (n : nat)
    (w2 : World) : Document :=
  make_doc_data CREATED_BY_ID macro_id (process_ref n) p_title p_desc
                (candidate_names d_content) (clock w2) (S (clock w2)).

Definition new_doc_id (p_title : string) (w2 : World) : ObjectId :=
  match find (doc_has_key p_title macro_id) (documents w2) with
  | Some old => doc_id old
  | None => next_id w2
  end.

Definition new_doc (p_title p_desc d_content : string) (n : nat)
    (w2 : World) : Document :=
  doc_with_id (new_doc_id p_title w2)
              (new_doc_data p_title p_desc d_content n w2).

Definition upserted_world (dd : Document) (w2 : World) : World :=
  let (l, n) := upsert (doc_has_key (doc_title dd) (doc_macro_id dd))
                  (fun old => doc_with_id (doc_id old) dd)
                  (fun i => doc_with_id i dd)
                  (documents w2) (next_id w2) in
  mkWorld (macros w2) (departments w2) (job_positions w2) l n
          (2 + clock w2) (console w2).

Definition started_world (p_title p_desc d_content : string) (st : Walk)
    (w : World) : World :=
  let w2 := resolve_all (candidate_names d_content) (flushed st w) in
  upserted_world
    (new_doc_data p_title p_desc d_content (S (process_count st)) w2) w2.

Definition started_walk (p_title p_desc d_content : string) (st : Walk)
    (w : World) : Walk :=
  let w2 := resolve_all (candidate_names d_content) (flushed st w) in
  mkWalk (Some p_title)
         (Some (new_doc p_title p_desc d_content (S (process_count st)) w2))
         [] (S (process_count st)) (flushed_count st)
         (S (total_processes st)).

Lemma find_upserted (dd : Document) (w2 : World) (t : string)
    (m : ObjectId) :
  doc_title dd = t -> doc_macro_id dd = m ->
  find (doc_has_key t m) (documents (upserted_world dd w2))
  = Some (doc_with_id
            (match find (doc_has_key t m) (documents w2) with
             | Some old => doc_id old
             | None => next_id w2
             end) dd).
Proof.
  intros <- <-. unfold upserted_world.
  pose proof (find_upsert (doc_has_key (doc_title dd) (doc_macro_id dd))
                (fun old => doc_with_id (doc_id old) dd)
                (fun i => doc_with_id i dd) (documents w2) (next_id w2)) as F.
  destruct (upsert _ _ _ (documents w2) (next_id w2)) as [l n].
  cbn [documents fst] in *. rewrite F.
  - now destruct (find _ (documents w2)).
  - intros x _. rewrite doc_key_with_id. apply doc_has_key_iff. auto.
  - rewrite doc_key_with_id. apply doc_has_key_iff. auto.
Qed.

Lemma start_process_run (p_title p_desc d_content : string) (st : Walk)
    (w : World) :
  start_process CREATED_BY_ID macro_id macro_code p_title p_desc d_content
                st w
  = Ok (started_walk p_title p_desc d_content st w)
       (started_world p_title p_desc d_content st w).
Proof.
  unfold start_process.
  rewrite (bind_ok _ _ _ _ _ (flush_tasks_run st w)).
  rewrite (bind_ok _ _ _ _ _ (resolve_stakeholders_run d_content _)).
  set (w2 := resolve_all (candidate_names d_content) (flushed st w)).
  rewrite (bind_ok _ _ _ _ _ (now_run w2)).
  rewrite (bind_ok _ _ _ _ _ (now_run _)).
  cbn [clock set_clock].
  fold (process_ref (S (process_count st))).
  fold (new_doc_data p_title p_desc d_content (S (process_count st)) w2).
  set (dd := new_doc_data p_title p_desc d_content (S (process_count st)) w2).
  rewrite (bind_ok _ _ _ tt (upserted_world dd w2)).
  - unfold bind, gets, ret.
    now rewrite (find_upserted dd w2 p_title macro_id eq_refl eq_refl).
  - reflexivity.
Qed.

Definition opens (row : list Cell) (st : Walk) : bool :=
  (negb (is_empty (row_title df col_map row))
   && title_differs (row_title df col_map row) (current_process_title st))%bool.

Definition with_task (t_content : string) (d : Document) (st : Walk) : Walk :=
  let n := S (List.length (current_tasks st)) in
  mkWalk (current_process_title st) (current_process_doc st)
         (current_tasks st
          ++ [mkTask (doc_process_code d ++ "_T" ++ str_nat n) t_content n])%list
         (process_count st) (task_count st) (total_processes st).

Lemma append_task_run (t_content : string) (st : Walk) (w : World) :
  append_task t_content st w
  = match current_process_doc st with
    | Some d => Ok (with_task t_content d st) w
    | None => Raised TypeError w
    end.
Proof.
  unfold append_task, with_task. now destruct (current_process_doc st).
Qed.

Lemma process_row_run (row : list Cell) (st : Walk) (w : World) :
  process_row CREATED_BY_ID df col_map macro_id macro_code row st w
  = let st1 := if opens row st
               then started_walk (row_title df col_map row)
                      (row_desc df col_map row)
                      (row_directions df col_map row) st w
               else st in
    let w1 := if opens row st
              then started_world (row_title df col_map row)
                     (row_desc df col_map row)
                     (row_directions df col_map row) st w
              else w in
    if is_empty (row_tasks df col_map row) then Ok st1 w1
    else match current_process_doc st1 with
         | Some d => Ok (with_task (row_tasks df col_map row) d st1) w1
         | None => Raised TypeError w1
         end.
Proof.
  unfold process_row. fold (row_title df col_map row).
  fold (row_desc df col_map row) (row_tasks df col_map row)
       (row_directions df col_map row).
  fold (opens row st). cbv zeta.
  destruct (opens row st).
  - rewrite (bind_ok _ _ _ _ _ (start_process_run _ _ _ st w)).
    destruct (is_empty (row_tasks df col_map row)); [reflexivity|].
    cbn [negb]. apply append_task_run.
  - rewrite (bind_ok _ _ w st w) by reflexivity.
    destruct (is_empty (row_tasks df col_map row)); [reflexivity|].
    cbn [negb]. apply append_task_run.
Qed.

(** *** Process groups, as the rows define them *)

(** A group: the title, description and directions of its opening row and
    the non-empty tasks cells of its rows, in order. *)
Record Group : Type := mkGroup {
  g_title : string;
  g_desc : string;
  g_directions : string;
  g_tasks : list string
}.

Definition head_title (gs : list Group) : option string :=
  option_map g_title (hd_error gs).

Definition add_task (t : string) (gs : list Group) : list Group :=
  match gs with
  | g :: r =>
      mkGroup (g_title g) (g_desc g) (g_directions g)
              (g_tasks g ++ [t])%list :: r
  | [] => []
  end.

(** The groups after one more row, most recent first: the row opens a group
    when its title is non-empty and differs from the title of the open
    group; a non-empty tasks cell goes to the open group. *)
Definition add_row (gs : list Group) (row : list Cell) : list Group :=
  let t := row_title df col_map row in
  let gs1 :=
    if (negb (is_empty t) && title_differs t (head_title gs))%bool
    then mkGroup t (row_desc df col_map row) (row_directions df col_map row)
                 [] :: gs
    else gs in
  if is_empty (row_tasks df col_map row) then gs1
  else add_task (row_tasks df col_map row) gs1.

Definition groups_rev (rows : list (list Cell)) : list Group :=
  fold_left add_row rows [].

(** Tasks numbered from [k + 1] under a process code. *)
Fixpoint number_from (pc : string) (k : nat) (descs : list string)
  : list Task :=
  match descs with
  | [] => []
  | x :: r =>
      mkTask (pc ++ "_T" ++ str_nat (S k)) x (S k) :: number_from pc (S k) r
  end.

Definition numbered (pc : string) (descs : list string) : list Task :=
  number_from pc 0 descs.

Lemma number_from_app pc k a x :
  number_from pc k (a ++ [x])%list
  = (number_from pc k a
     ++ [mkTask (pc ++ "_T" ++ str_nat (S (k + List.length a))) x
                (S (k + List.length a))])%list.
Proof.
  revert k; induction a as [|y r IH]; intros k; simpl.
  - now rewrite Nat.add_0_r.
  - rewrite IH. now replace (S k + List.length r) with (k + S (List.length r))
      by lia.
Qed.

Lemma number_from_length pc k descs :
  List.length (number_from pc k descs) = List.length descs.
Proof. revert k; induction descs; intros k; simpl; auto. Qed.

Lemma number_from_orders pc k descs :
  map t_order (number_from pc k descs) = seq (S k) (List.length descs).
Proof.
  revert k; induction descs as [|x r IH]; intros k; simpl; [reflexivity|].
  now rewrite IH.
Qed.

Lemma number_from_codes pc k descs :
  Forall (fun t => t_code t = pc ++ "_T" ++ str_nat (t_order t))
         (number_from pc k descs).
Proof.
  revert k; induction descs as [|x r IH]; intros k; simpl; constructor; auto.
Qed.

Lemma number_from_descriptions pc k descs :
  map t_description (number_from pc k descs) = descs.
Proof.
  revert k; induction descs as [|x r IH]; intros k; simpl; [reflexivity|].
  now rewrite IH.
Qed.

(** *** The walk follows the groups *)

(** [d] is the record written for group [g] as process number [k], at a
    time not before [c0]; its tasks are left open. *)
Definition doc_of_group (c0 : Time) (g : Group) (k : nat) (d : Document)
  : Prop :=
  exists i t1,
    c0 <= t1
    /\ d = doc_with_tasks (doc_tasks d)
             (doc_with_id i
                (make_doc_data CREATED_BY_ID macro_id (process_ref k)
                   (g_title g) (g_desc g) (candidate_names (g_directions g))
                   t1 (S t1))).

(** The store holds the record of group [g], tasks included. *)
Definition recorded (c0 : Time) (w : World) (g : Group) (k : nat) : Prop :=
  exists d,
    find (doc_has_key (g_title g) macro_id) (documents w) = Some d
    /\ doc_of_group c0 g k d
    /\ doc_tasks d = numbered (process_ref k) (g_tasks g).

Definition last_of_title (later : list Group) (g : Group) : Prop :=
  forall g', In g' later -> g_title g' <> g_title g.

Definition open_ok (c0 : Time) (w : World) (g : Group) (k : nat) (st : Walk)
  : Prop :=
  exists d,
    current_process_doc st = Some d
    /\ find (doc_has_key (g_title g) macro_id) (documents w) = Some d
    /\ doc_of_group c0 g k d
    /\ current_tasks st = numbered (process_ref k) (g_tasks g).

Definition closed_ok (c0 : Time) (w : World) (later closed : list Group)
  : Prop :=
  forall pre g r,
    closed = (pre ++ g :: r)%list ->
    last_of_title (later ++ pre)%list g ->
    recorded c0 w g (S (List.length r)).

Definition tracks (c0 : Time) (gs : list Group) (st : Walk) (w : World)
  : Prop :=
  c0 <= clock w
  /\ wf_docs w
  /\ process_count st = List.length gs
  /\ current_process_title st = head_title gs
  /\ match gs with
     | [] => current_process_doc st = None
     | g :: r =>
         open_ok c0 w g (S (List.length r)) st /\ closed_ok c0 w [g] r
     end.

Lemma resolve_all_docs_kept (names : list string) (w : World) :
  docs_kept w (resolve_all names w)
  /\ clock w <= clock (resolve_all names w)
  /\ macros (resolve_all names w) = macros w.
Proof.
  unfold resolve_all. revert w.
  induction names as [|n r IH]; intros w; cbn [fold_left].
  - split; [reflexivity|]. split; [lia|reflexivity].
  - destruct (IH (resolved_world n w)) as (K & C & Mc).
    pose proof (resolve_department_docs_kept n w) as K0.
    rewrite resolve_department_run in K0.
    assert (C0 : clock w <= clock (resolved_world n w)
                 /\ macros (resolved_world n w) = macros w).
    { unfold resolved_world.
      destruct (find (dept_has_name n) (departments w));
        match goal with
        | |- context [find ?p ?l] => destruct (find p l)
        end; cbn; split; auto; lia. }
    split; [etransitivity; eassumption|]. split; [lia|].
    rewrite Mc. apply C0.
Qed.

Lemma find_flushed (t : string) (st : Walk) (w : World) :
  wf_docs w ->
  find (doc_has_key t macro_id) (documents (flushed st w))
  = option_map
      (fun x =>
         match current_process_doc st with
         | Some d => if Nat.eqb (doc_id x) (doc_id d)
                     then doc_with_tasks (current_tasks st) x else x
         | None => x
         end)
      (find (doc_has_key t macro_id) (documents w)).
Proof.
  intros [ND _]. unfold flushed.
  destruct (current_process_doc st) as [d|].
  - cbn [documents set_documents]. now apply find_key_after_update_by_id.
  - now destruct (find _ (documents w)).
Qed.

Lemma wf_flushed (st : Walk) (w : World) : wf_docs w -> wf_docs (flushed st w).
Proof.
  intros H. unfold flushed. destruct (current_process_doc st); [|assumption].
  now apply wf_docs_update.
Qed.

Lemma wf_upserted (dd : Document) (w2 : World) :
  wf_docs w2 -> wf_docs (upserted_world dd w2).
Proof.
  intros H. unfold upserted_world.
  pose proof (wf_docs_upsert w2 (doc_has_key (doc_title dd) (doc_macro_id dd))
                dd H) as U.
  destruct (upsert _ _ _ (documents w2) (next_id w2)) as [l n].
  exact U.
Qed.

Lemma wf_started (t desc dirs : string) (st : Walk) (w : World) :
  wf_docs w -> wf_docs (started_world t desc dirs st w).
Proof.
  intros H. unfold started_world. apply wf_upserted.
  eapply docs_kept_wf; [apply resolve_all_docs_kept|]. now apply wf_flushed.
Qed.

Lemma clock_upserted (dd : Document) (w2 : World) :
  clock (upserted_world dd w2) = 2 + clock w2.
Proof.
  unfold upserted_world. now destruct (upsert _ _ _ (documents w2) (next_id w2)).
Qed.

Lemma clock_flushed (st : Walk) (w : World) : clock (flushed st w) = clock w.
Proof. unfold flushed. now destruct (current_process_doc st). Qed.

Lemma clock_started (t desc dirs : string) (st : Walk) (w : World) :
  clock w <= clock (started_world t desc dirs st w).
Proof.
  unfold started_world. rewrite clock_upserted.
  pose proof (resolve_all_docs_kept (candidate_names dirs) (flushed st w))
    as (_ & C & _).
  rewrite clock_flushed in C. lia.
Qed.

Lemma find_upserted_other (dd : Document) (w2 : World) (t : string) :
  doc_macro_id dd = macro_id -> doc_title dd <> t ->
  find (doc_has_key t macro_id) (documents (upserted_world dd w2))
  = find (doc_has_key t macro_id) (documents w2).
Proof.
  intros Hm Ht. unfold upserted_world.
  pose proof (find_upsert_other
                (doc_has_key (doc_title dd) (doc_macro_id dd))
                (doc_has_key t macro_id)
                (fun old => doc_with_id (doc_id old) dd)
                (fun i => doc_with_id i dd) (documents w2) (next_id w2)) as F.
  destruct (upsert _ _ _ (documents w2) (next_id w2)) as [l n].
  cbn [documents fst] in *. apply F.
  - intros x Hx. apply doc_has_key_iff in Hx. destruct Hx as [Hx _].
    unfold doc_has_key. cbn [doc_title doc_with_id].
    split; apply andb_false_iff; left; apply String.eqb_neq; congruence.
  - unfold doc_has_key. cbn [doc_title doc_with_id].
    apply andb_false_iff; left; now apply String.eqb_neq.
Qed.

Lemma find_started_other (t desc dirs : string) (st : Walk) (w : World)
    (t' : string) :
  t <> t' ->
  find (doc_has_key t' macro_id) (documents (started_world t desc dirs st w))
  = find (doc_has_key t' macro_id) (documents (flushed st w)).
Proof.
  intros Ht. unfold started_world.
  rewrite find_upserted_other; [|reflexivity|exact Ht].
  now destruct (resolve_all_docs_kept (candidate_names dirs) (flushed st w))
    as ([-> _] & _).
Qed.

Lemma distinct_titles_distinct_ids (w : World) (t1 t2 : string)
    (x d : Document) :
  wf_docs w ->
  find (doc_has_key t1 macro_id) (documents w) = Some x ->
  find (doc_has_key t2 macro_id) (documents w) = Some d ->
  t1 <> t2 -> doc_id x <> doc_id d.
Proof.
  intros [ND _] F1 F2 Ht E.
  apply find_some in F1, F2. destruct F1 as [I1 K1], F2 as [I2 K2].
  apply doc_has_key_iff in K1, K2.
  assert (x = d) by (eapply NoDup_map_inj; eauto).
  subst. destruct K1, K2. congruence.
Qed.

Lemma doc_of_group_tasks c0 g k d ts :
  doc_of_group c0 g k d -> doc_of_group c0 g k (doc_with_tasks ts d).
Proof.
  intros (i & t1 & C & E). exists i, t1. split; [assumption|].
  rewrite E. reflexivity.
Qed.

Lemma doc_of_group_code c0 g k d :
  doc_of_group c0 g k d -> doc_process_code d = process_ref k.
Proof. intros (i & t1 & _ & ->). reflexivity. Qed.

Lemma recorded_after_flush c0 (st : Walk) (w : World) (g : Group) (k : nat)
    (t0 : string) (d : Document) :
  wf_docs w ->
  current_process_doc st = Some d ->
  find (doc_has_key t0 macro_id) (documents w) = Some d ->
  g_title g <> t0 ->
  recorded c0 w g k -> recorded c0 (flushed st w) g k.
Proof.
  intros WF Hd Fd Ht (x & Fx & Dx & Tx).
  exists x. split; [|auto].
  rewrite (find_flushed _ _ _ WF), Fx, Hd. cbn [option_map].
  pose proof (distinct_titles_distinct_ids w _ _ x d WF Fx Fd Ht) as Hne.
  apply Nat.eqb_neq in Hne. now rewrite Hne.
Qed.

Lemma open_recorded_after_flush c0 (st : Walk) (w : World) (g : Group)
    (k : nat) :
  wf_docs w -> open_ok c0 w g k st -> recorded c0 (flushed st w) g k.
Proof.
  intros WF (d & Hd & Fd & Dd & Td).
  exists (doc_with_tasks (current_tasks st) d). split; [|split].
  - rewrite (find_flushed _ _ _ WF), Fd, Hd. cbn [option_map].
    now rewrite Nat.eqb_refl.
  - now apply doc_of_group_tasks.
  - exact Td.
Qed.

Lemma recorded_after_start c0 (t desc dirs : string) (st : Walk) (w : World)
    (g : Group) (k : nat) :
  t <> g_title g ->
  recorded c0 (flushed st w) g k ->
  recorded c0 (started_world t desc dirs st w) g k.
Proof.
  intros Ht (x & Fx & Dx & Tx). exists x. split; [|auto].
  now rewrite find_started_other.
Qed.

(** After the flush every group that is the last of its title is
    recorded. *)
Lemma closed_after_flush c0 (gs : list Group) (st : Walk) (w : World) :
  tracks c0 gs st w -> closed_ok c0 (flushed st w) [] gs.
Proof.
  intros (C & WF & PC & CT & H) pre g r E L.
  destruct gs as [|g0 r0]; [destruct pre; discriminate|].
  destruct H as [Ho Hc].
  destruct pre as [|p pre']; cbn [app] in E; inversion E; subst.
  - now apply open_recorded_after_flush.
  - destruct Ho as (d & Hd & Fd & _).
    apply (recorded_after_flush c0 st w g _ (g_title p) d WF Hd Fd).
    + intros Heq. apply (L p); [now left|congruence].
    + apply (Hc pre' g r eq_refl). exact L.
Qed.

Lemma tracks_open c0 (gs : list Group) (st : Walk) (w : World)
    (t desc dirs : string) :
  tracks c0 gs st w ->
  title_differs t (head_title gs) = true ->
  tracks c0 (mkGroup t desc dirs [] :: gs)
         (started_walk t desc dirs st w) (started_world t desc dirs st w).
Proof.
  intros T Hdiff. pose proof (closed_after_flush c0 gs st w T) as Hfl.
  destruct T as (C & WF & PC & CT & H).
  pose proof (resolve_all_docs_kept (candidate_names dirs) (flushed st w))
    as (_ & Cl & _). rewrite clock_flushed in Cl.
  split; [pose proof (clock_started t desc dirs st w); lia|].
  split; [now apply wf_started|].
  split; [cbn; now rewrite PC|]. split; [reflexivity|]. split.
  - eexists. split; [reflexivity|]. cbn [g_title]. split; [|split].
    + unfold started_world. cbv zeta.
      rewrite (find_upserted
                 (new_doc_data t desc dirs (S (process_count st))
                    (resolve_all (candidate_names dirs) (flushed st w)))
                 _ t macro_id eq_refl eq_refl).
      unfold new_doc, new_doc_id. reflexivity.
    + exists (new_doc_id t (resolve_all (candidate_names dirs)
                                          (flushed st w))).
      exists (clock (resolve_all (candidate_names dirs) (flushed st w))).
      split; [lia|]. rewrite <- PC. reflexivity.
    + reflexivity.
  - intros pre g r E L. apply recorded_after_start.
    + intros Ht. apply (L (mkGroup t desc dirs [])); [now left|].
      exact Ht.
    + apply (Hfl pre g r E). intros g' Hin. apply L. now right.
Qed.

Lemma tracks_task c0 (gs : list Group) (st : Walk) (w : World)
    (t : string) (d : Document) :
  tracks c0 gs st w ->
  current_process_doc st = Some d ->
  tracks c0 (add_task t gs) (with_task t d st) w.
Proof.
  intros (C & WF & PC & CT & H) Hd.
  destruct gs as [|g r]; [congruence|]. destruct H as [Ho Hc].
  split; [assumption|]. split; [assumption|].
  split; [exact PC|]. split; [exact CT|]. cbn [add_task]. split.
  - destruct Ho as (d0 & Hd0 & Fd & Dd & Td).
    assert (d0 = d) by congruence. subst d0.
    exists d. split; [exact Hd|]. split; [exact Fd|]. split; [exact Dd|].
    cbn [with_task current_tasks g_tasks]. unfold numbered in *.
    rewrite number_from_app, <- Td.
    rewrite (doc_of_group_code _ _ _ _ Dd).
    replace (List.length (current_tasks st)) with (List.length (g_tasks g));
      [reflexivity|].
    now rewrite Td, number_from_length.
  - intros pre x r' E L. apply (Hc pre x r' E).
    intros g' Hin. destruct Hin as [<-|Hin].
    + exact (L _ (or_introl eq_refl)).
    + apply L. now right.
Qed.

Lemma tracks_step c0 (gs : list Group) (st : Walk) (w : World)
    (row : list Cell) (st' : Walk) (w' : World) :
  tracks c0 gs st w ->
  process_row CREATED_BY_ID df col_map macro_id macro_code row st w
  = Ok st' w' ->
  tracks c0 (add_row gs row) st' w'.
Proof.
  intros T. rewrite process_row_run. cbv zeta. unfold add_row, opens.
  assert (CT : current_process_title st = head_title gs) by apply T.
  rewrite CT.
  destruct (negb (is_empty (row_title df col_map row))
            && title_differs (row_title df col_map row) (head_title gs))%bool
    eqn:O.
  - apply andb_prop in O. destruct O as [_ O].
    pose proof (tracks_open c0 gs st w _ (row_desc df col_map row)
                  (row_directions df col_map row) T O) as T'.
    destruct (is_empty (row_tasks df col_map row)).
    + intros E. inversion E; subst. exact T'.
    + cbn [started_walk current_process_doc]. intros E.
      inversion E; subst. now apply tracks_task.
  - destruct (is_empty (row_tasks df col_map row)).
    + intros E. inversion E; subst. exact T.
    + destruct (current_process_doc st) as [d|] eqn:Hd; [|discriminate].
      intros E. inversion E; subst. now apply tracks_task.
Qed.

Lemma for_each_cons {A S} (body : A -> S -> M S) (x : A) (r : list A)
    (s s' : S) (w w' : World) :
  for_each body (x :: r) s w = Ok s' w' ->
  exists s1 w1, body x s w = Ok s1 w1 /\ for_each body r s1 w1 = Ok s' w'.
Proof.
  cbn [for_each]. unfold bind.
  destruct (body x s w) as [s1 w1|]; [eauto|discriminate].
Qed.

Lemma tracks_walk c0 (rows : list (list Cell)) :
  forall gs st w st' w',
    tracks c0 gs st w ->
    for_each (process_row CREATED_BY_ID df col_map macro_id macro_code)
             rows st w = Ok st' w' ->
    tracks c0 (fold_left add_row rows gs) st' w'.
Proof.
  induction rows as [|row r IH]; intros gs st w st' w' T E.
  - inversion E; subst. exact T.
  - apply for_each_cons in E. destruct E as (s1 & w1 & E1 & E2).
    cbn [fold_left]. eapply IH; [|exact E2].
    eapply tracks_step; eassumption.
Qed.

Lemma tracks_initial (w : World) (n : nat) :
  wf_docs w -> tracks (clock w) [] (mkWalk None None [] 0 0 n) w.
Proof. intros WF. repeat split; auto; apply WF. Qed.

Lemma recorded_same_documents c0 (w w' : World) (g : Group) (k : nat) :
  documents w' = documents w -> recorded c0 w g k -> recorded c0 w' g k.
Proof. intros E (d & F & H). exists d. now rewrite E. Qed.

Lemma import_rows_recorded (h : nat) (totals res : nat * nat)
    (w w' : World) :
  col_map = build_col_map (nth h df []) ->
  wf_docs w ->
  import_rows CREATED_BY_ID df h macro_id macro_code totals w = Ok res w' ->
  closed_ok (clock w) w' [] (groups_rev (skipn (S h) df)).
Proof.
  intros Hcm WF. unfold import_rows. rewrite <- Hcm. cbv zeta.
  unfold bind at 1.
  destruct (for_each _ (skipn (S h) df) _ w) as [st1 w1|] eqn:Ew;
    [|discriminate].
  pose proof (tracks_walk (clock w) _ _ _ _ _ _
                (tracks_initial w (fst totals) WF) Ew) as T.
  fold (groups_rev (skipn (S h) df)) in T.
  pose proof (closed_after_flush _ _ _ _ T) as Hfl.
  destruct (current_process_doc st1) as [d|] eqn:Hd.
  - rewrite (bind_ok _ _ w1 (flushed_count st1, snd totals + flushed_count st1)
                     (flushed st1 w1))
      by now rewrite (bind_ok _ _ _ _ _ (flush_tasks_run st1 w1)).
    intros E. inversion E; subst.
    intros pre g r Eg L.
    eapply recorded_same_documents; [|apply (Hfl pre g r Eg L)]. reflexivity.
  - intros E. inversion E; subst.
    intros pre g r Eg L.
    eapply recorded_same_documents; [|apply (Hfl pre g r Eg L)].
    cbn [documents set_console]. unfold flushed. now rewrite Hd.
Qed.

(** What one row does to the walk: it opens a process exactly when its
    title is non-empty and is not the title of the open process, and a
    non-empty tasks cell adds one task, numbered after those gathered. *)
Lemma process_row_spec (row : list Cell) (st st' : Walk) (w w' : World) :
  process_row CREATED_BY_ID df col_map macro_id macro_code row st w
  = Ok st' w' ->
  let t := row_title df col_map row in
  let tc := row_tasks df col_map row in
  (opens row st = true <->
     t <> "" /\ current_process_title st <> Some t)
  /\ (opens row st = true ->
      process_count st' = S (process_count st)
      /\ current_process_title st' = Some t)
  /\ (opens row st = false ->
      process_count st' = process_count st
      /\ current_process_title st' = current_process_title st
      /\ current_process_doc st' = current_process_doc st
      /\ w' = w)
  /\ (tc = "" ->
      current_tasks st' = if opens row st then [] else current_tasks st)
  /\ (tc <> "" ->
      exists d,
        current_process_doc st' = Some d
        /\ let before := if opens row st then [] else current_tasks st in
           current_tasks st'
           = (before
              ++ [mkTask (doc_process_code d ++ "_T"
                          ++ str_nat (S (List.length before)))
                         tc (S (List.length before))])%list).
Proof.
  rewrite process_row_run. cbv zeta. intros E.
  assert (Hop : opens row st = true <->
                row_title df col_map row <> ""
                /\ current_process_title st <> Some (row_title df col_map row)).
  { unfold opens. rewrite andb_true_iff, negb_true_iff, is_empty_false.
    unfold title_differs. destruct (current_process_title st) as [c|].
    - rewrite negb_true_iff, String.eqb_neq. split; intros [H1 H2];
        (split; [assumption|congruence]).
    - split; intros [H1 H2]; (split; [assumption|]); [discriminate|reflexivity]. }
  split; [exact Hop|].
  destruct (opens row st);
    destruct (is_empty (row_tasks df col_map row)) eqn:Et.
  - inversion E; subst. apply is_empty_true in Et.
    repeat split; try discriminate; try reflexivity. intros; contradiction.
  - cbn [started_walk current_process_doc] in E. inversion E; subst.
    apply is_empty_false in Et.
    repeat split; try discriminate; try (intros; contradiction).
    intros _. eexists. split; reflexivity.
  - inversion E; subst. apply is_empty_true in Et.
    repeat split; try discriminate; try reflexivity. intros; contradiction.
  - destruct (current_process_doc st) as [d|] eqn:Hd; [|discriminate].
    inversion E; subst. apply is_empty_false in Et.
    repeat split; try discriminate; try (intros; contradiction); auto.
    intros _. exists d. split; [exact Hd|reflexivity].
Qed.

End Rows.

(** ** Rows, groups and the tasks recorded (C1) *)

Lemma wf_macro_upserted CREATED_BY_ID sh code name desc (w : World) :
  wf_docs w -> wf_docs (macro_upserted CREATED_BY_ID sh code name desc w).
Proof.
  intros [ND Hlt]. unfold macro_upserted, macros_upserted, upsert.
  destruct (existsb _ (macros w)); split; cbn; auto.
  eapply Forall_impl; [|exact Hlt]. simpl. intros; lia.
Qed.

Lemma clock_macro_upserted CREATED_BY_ID sh code name desc (w : World) :
  clock (macro_upserted CREATED_BY_ID sh code name desc w) = 2 + clock w.
Proof.
  unfold macro_upserted. now destruct (macros_upserted _ _ _ _ w).
Qed.

(** The effect of one data row on the walk. *)
Definition row_effect (df : DataFrame) (col_map : ColMap) (row : list Cell)
    (st st' : Walk) (w w' : World) : Prop :=
  let t := row_title df col_map row in
  let tc := row_tasks df col_map row in
  (opens df col_map row st = true <->
     t <> "" /\ current_process_title st <> Some t)
  /\ (opens df col_map row st = true ->
      process_count st' = S (process_count st)
      /\ current_process_title st' = Some t)
  /\ (opens df col_map row st = false ->
      process_count st' = process_count st
      /\ current_process_title st' = current_process_title st
      /\ current_process_doc st' = current_process_doc st
      /\ w' = w)
  /\ (tc = "" ->
      current_tasks st'
      = if opens df col_map row st then [] else current_tasks st)
  /\ (tc <> "" ->
      exists d,
        current_process_doc st' = Some d
        /\ let before := if opens df col_map row st then []
                         else current_tasks st in
           current_tasks st'
           = (before
              ++ [mkTask (doc_process_code d ++ "_T"
                          ++ str_nat (S (List.length before)))
                         tc (S (List.length before))])%list).

(** The record of a group in the store after the sheet. *)
Definition group_record (macro_code : string) (g : Group) (k : nat)
    (d : Document) : Prop :=
  doc_process_code d = macro_code ++ "_P" ++ str_nat k
  /\ doc_title d = g_title g
  /\ doc_description d = g_desc g
  /\ doc_stakeholders d = candidate_names (g_directions g)
  /\ List.length (doc_tasks d) = List.length (g_tasks g)
  /\ map t_order (doc_tasks d) = seq 1 (List.length (g_tasks g))
  /\ map t_description (doc_tasks d) = g_tasks g
  /\ Forall (fun t => t_code t
                      = doc_process_code d ++ "_T" ++ str_nat (t_order t))
            (doc_tasks d).

Lemma recorded_group_record CREATED_BY_ID macro_id macro_code c0 w g k :
  recorded CREATED_BY_ID macro_id macro_code c0 w g k ->
  exists d,
    find (doc_has_key (g_title g) macro_id) (documents w) = Some d
    /\ group_record macro_code g k d
    /\ c0 <= doc_created_at d
    /\ doc_status d = "draft".
Proof.
  intros (d & F & (i & t1 & C & E) & T). exists d. split; [exact F|].
  assert (Hc : doc_process_code d = macro_code ++ "_P" ++ str_nat k)
    by (rewrite E; reflexivity).
  unfold group_record. rewrite T, Hc. unfold numbered, process_ref.
  rewrite number_from_length, number_from_orders, number_from_descriptions.
  repeat split; try (rewrite E; reflexivity).
  - apply number_from_codes.
  - rewrite E. exact C.
Qed.

(** C1, as the code has it: below a detected header row, a row opens a new
    process exactly when its title cell is non-empty (after trimming) and
    differs from the title of the open process, and each row with a
    non-empty tasks cell adds one task to the open process.  When the sheet
    is imported without exception, every group that is the last one of its
    title in the sheet has its record in the store, with the process code
    of its rank and exactly the tasks of its rows: as many as the non-empty
    tasks cells from its opening row to the row before the next group, with
    orders 1, 2, ..., n and codes <process_code>_T<order>. *)
Theorem process_groups_recorded (CREATED_BY_ID : ObjectId) (sh : Sheet)
    (h : nat) (macro_code macro_name macro_desc : string)
    (totals res : nat * nat) (w w' : World) :
  let df := sheet_frame sh in
  let col_map := build_col_map (nth h df []) in
  let macro_id := macro_id_for macro_code w in
  macro_info sh = Some (macro_code, macro_name, macro_desc) ->
  header_scan df 0 10 = inr (Some h) ->
  wf_docs w ->
  import_sheet CREATED_BY_ID sh totals w = Ok res w' ->
  (forall row st st' w1 w1',
      process_row CREATED_BY_ID df col_map macro_id macro_code row st w1
      = Ok st' w1' ->
      row_effect df col_map row st st' w1 w1')
  /\ (forall pre g r,
        groups_rev df col_map (skipn (S h) df) = (pre ++ g :: r)%list ->
        last_of_title pre g ->
        exists d,
          find (doc_has_key (g_title g) macro_id) (documents w') = Some d
          /\ group_record macro_code g (S (List.length r)) d).
Proof.
  intros df col_map macro_id Hi Hs WF E. split.
  - intros row st st' w1 w1' Er.
    exact (process_row_spec CREATED_BY_ID df col_map macro_id macro_code
             row st st' w1 w1' Er).
  - rewrite (import_sheet_run _ _ _ _ _ _ _ Hi) in E.
    unfold import_details in E. fold df in E.
    rewrite (bind_ok _ _ _ (Some h) _) in E
      by (rewrite find_header_row_run; fold df; now rewrite Hs).
    pose proof (import_rows_recorded CREATED_BY_ID df col_map macro_id
                  macro_code h totals res _ w' eq_refl
                  (wf_macro_upserted _ _ _ _ _ _ WF) E) as Hrec.
    intros pre g r Eg L.
    destruct (recorded_group_record _ _ _ _ _ _ _ (Hrec pre g r Eg L))
      as (d & F & G & _).
    exists d. split; assumption.
Qed.

(** A sheet in which the title of the first group comes back after another
    group. *)
Definition regrouped_sheet : Sheet :=
  mkSheet "Feuil1"
    [[Text "Macro 01: Strategie"; NaN; NaN; NaN; NaN];
     [NaN; NaN; NaN; NaN; NaN];
     header_cells;
     [Text "Cette macro couvre la strategie"; Text "Planifier";
      Text "Plan annuel"; Text "Recenser les besoins";
      Text "Direction Network Engineering, IT"];
     [NaN; NaN; NaN; Text "Arbitrer"; NaN];
     [NaN; Text "Deployer"; Text "Mise en service"; Text "Installer";
      Text "IT"];
     [NaN; NaN; NaN; NaN; NaN];
     [NaN; NaN; NaN; Text "Recetter"; NaN];
     [NaN; Text "Planifier"; Text "Revision"; Text "Reviser le plan";
      Text "Direction Technique"];
     [NaN; NaN; NaN; NaN; NaN]].

Definition regrouped_result : World :=
  match import_sheet 0 regrouped_sheet (0, 0) empty_world with
  | Ok _ w' => w'
  | Raised _ w' => w'
  end.

Lemma regrouped_sheet_run :
  import_sheet 0 regrouped_sheet (0, 0) empty_world
  = Ok (3, 5) regrouped_result.
Proof. vm_compute. reflexivity. Qed.

Lemma process_groups_recorded_witness :
  exists d,
    find (doc_has_key "Deployer" 0) (documents regrouped_result) = Some d
    /\ group_record "Macro01"
         (mkGroup "Deployer" "Mise en service" "IT" ["Installer"; "Recetter"])
         2 d.
Proof.
  destruct (process_groups_recorded 0 regrouped_sheet 2 "Macro01" "Strategie"
              "Cette macro couvre la strategie" (0, 0) (3, 5) empty_world
              regrouped_result eq_refl eq_refl wf_docs_empty
              regrouped_sheet_run) as [_ H].
  apply (H [mkGroup "Planifier" "Revision" "Direction Technique"
                    ["Reviser le plan"]]
           (mkGroup "Deployer" "Mise en service" "IT"
                    ["Installer"; "Recetter"])
           [mkGroup "Planifier" "Plan annuel"
                    "Direction Network Engineering, IT"
                    ["Recenser les besoins"; "Arbitrer"]]).
  - reflexivity.
  - intros g' [<-|[]]. discriminate.
Defined.

(** The sentence on recorded tasks read for every group of the sheet, as
    the specification words it. *)
Definition groups_claim_as_stated (sh : Sheet) (h : nat)
    (macro_code : string) (w w' : World) : Prop :=
  let df := sheet_frame sh in
  let col_map := build_col_map (nth h df []) in
  forall pre g r,
    groups_rev df col_map (skipn (S h) df) = (pre ++ g :: r)%list ->
    exists d,
      find (doc_has_key (g_title g) (macro_id_for macro_code w))
           (documents w') = Some d
      /\ List.length (doc_tasks d) = List.length (g_tasks g).

(** C1 as stated fails: in [regrouped_sheet] the first group, Planifier,
    has two task rows, and the record of Planifier ends with the single
    task of the third group. *)
Lemma groups_claim_counterexample :
  import_sheet 0 regrouped_sheet (0, 0) empty_world
  = Ok (3, 5) regrouped_result
  /\ ~ groups_claim_as_stated regrouped_sheet 2 "Macro01" empty_world
         regrouped_result.
Proof.
  split; [exact regrouped_sheet_run|].
  intros H.
  destruct (H [mkGroup "Planifier" "Revision" "Direction Technique"
                       ["Reviser le plan"];
               mkGroup "Deployer" "Mise en service" "IT"
                       ["Installer"; "Recetter"]]
              (mkGroup "Planifier" "Plan annuel"
                       "Direction Network Engineering, IT"
                       ["Recenser les besoins"; "Arbitrer"])
              [] eq_refl) as (d & F & L).
  vm_compute in F. inversion F; subst. vm_compute in L. discriminate.
Qed.

(** ** Two runs in a row (C5) *)

(** *** Lookups only grow *)

(** What a lookup by [q] finds in [l] is found in [l'] under the same
    identity. *)
Definition lookup_le {A I} (ident : A -> I) (q : A -> bool)
    (l l' : list A) : Prop :=
  forall x, find q l = Some x ->
            exists y, find q l' = Some y /\ ident y = ident x.

Lemma lookup_le_refl {A I} (ident : A -> I) (q : A -> bool) (l : list A) :
  lookup_le ident q l l.
Proof. intros x F. eauto. Qed.

Lemma lookup_le_trans {A I} (ident : A -> I) (q : A -> bool)
    (l1 l2 l3 : list A) :
  lookup_le ident q l1 l2 -> lookup_le ident q l2 l3 ->
  lookup_le ident q l1 l3.
Proof.
  intros H1 H2 x F. destruct (H1 x F) as (y & Fy & Ey).
  destruct (H2 y Fy) as (z & Fz & Ez). exists z. split; congruence.
Qed.

Lemma lookup_le_update_first {A I} (ident : A -> I) (p q : A -> bool)
    (f : A -> A) (l : list A) :
  (forall x, p x = true -> q (f x) = q x /\ ident (f x) = ident x) ->
  lookup_le ident q l (update_first p f l).
Proof.
  intros Hf. induction l as [|a r IH]; intros x F; simpl in *;
    [discriminate|].
  destruct (p a) eqn:P.
  - destruct (Hf a P) as [Hq Hi]. simpl. rewrite Hq.
    destruct (q a).
    + inversion F; subst. eauto.
    + eauto.
  - simpl. destruct (q a); [eauto|]. now apply IH.
Qed.

Lemma lookup_le_app {A I} (ident : A -> I) (q : A -> bool) (l r : list A) :
  lookup_le ident q l (l ++ r)%list.
Proof. intros x F. rewrite find_app, F. eauto. Qed.

Lemma lookup_le_upsert {A I} (ident : A -> I) (p q : A -> bool) (f : A -> A)
    (g : ObjectId -> A) (l : list A) (nid : ObjectId) :
  (forall x, p x = true -> q (f x) = q x /\ ident (f x) = ident x) ->
  lookup_le ident q l (fst (upsert p f g l nid)).
Proof.
  intros Hf. unfold upsert. destruct (existsb p l); simpl.
  - now apply lookup_le_update_first.
  - apply lookup_le_app.
Qed.

Definition no_ident {A} (x : A) : unit := tt.

(** Every lookup that succeeds in [w] succeeds in [w'], under the same
    id. *)
Definition below (w w' : World) : Prop :=
  (forall c, lookup_le m_id (macro_has_code c) (macros w) (macros w'))
  /\ (forall n, lookup_le d_id (dept_has_name n)
                          (departments w) (departments w'))
  /\ (forall t i, lookup_le no_ident (jp_has_key t i)
                            (job_positions w) (job_positions w'))
  /\ (forall t m, lookup_le doc_id (doc_has_key t m)
                            (documents w) (documents w')).

#[export] Instance below_preorder : PreOrder below.
Proof.
  split.
  - intros w. repeat split; intros; apply lookup_le_refl.
  - intros a b c (A1 & A2 & A3 & A4) (B1 & B2 & B3 & B4).
    repeat split; intros; eapply lookup_le_trans; eauto.
Qed.

Lemma below_same (w w' : World) :
  macros w' = macros w -> departments w' = departments w ->
  job_positions w' = job_positions w -> documents w' = documents w ->
  below w w'.
Proof.
  intros H1 H2 H3 H4. unfold below. rewrite H1, H2, H3, H4.
  repeat split; intros; apply lookup_le_refl.
Qed.

Lemma steps_below_now : steps below now.
Proof. intros w. now apply below_same. Qed.

Lemma steps_below_print (s : string) : steps below (print s).
Proof. intros w. now apply below_same. Qed.

Lemma steps_below_upsert_macro (md : Macro) : steps below (upsert_macro md).
Proof.
  intros w. unfold upsert_macro, modify.
  pose proof (fun c => lookup_le_upsert m_id (macro_has_code (m_code md))
                (macro_has_code c)
                (fun old => macro_with_id (m_id old) md)
                (fun i => macro_with_id i md) (macros w) (next_id w)) as L.
  destruct (upsert _ _ _ (macros w) (next_id w)) as [l n].
  repeat split; intros; try apply lookup_le_refl.
  apply L. intros x Hx. split; [|reflexivity].
  unfold macro_has_code in *. simpl. apply String.eqb_eq in Hx.
  now rewrite Hx.
Qed.

Lemma steps_below_insert_department n c t1 t2 :
  steps below (insert_department_if_absent n c t1 t2).
Proof.
  intros w. unfold insert_department_if_absent, modify.
  pose proof (fun q => lookup_le_upsert d_id (dept_has_name n)
                (dept_has_name q) (fun old => old)
                (fun i => mkDepartment i n c true t1 t2)
                (departments w) (next_id w)) as L.
  destruct (upsert _ _ _ (departments w) (next_id w)) as [l k].
  repeat split; intros; try apply lookup_le_refl.
  apply L. intros x Hx. split; reflexivity.
Qed.

Lemma steps_below_insert_job_position n dep c t1 t2 :
  steps below (insert_job_position_if_absent n dep c t1 t2).
Proof.
  intros w. unfold insert_job_position_if_absent, modify.
  pose proof (fun t i => lookup_le_upsert no_ident (jp_has_key n dep)
                (jp_has_key t i) (fun old => old)
                (fun i => mkJobPosition i n dep c true t1 t2)
                (job_positions w) (next_id w)) as L.
  destruct (upsert _ _ _ (job_positions w) (next_id w)) as [l k].
  repeat split; intros; try apply lookup_le_refl.
  apply L. intros x Hx. split; reflexivity.
Qed.

Lemma steps_below_upsert_document (dd : Document) :
  steps below (upsert_document dd).
Proof.
  intros w. unfold upsert_document, modify.
  pose proof (fun t m => lookup_le_upsert doc_id
                (doc_has_key (doc_title dd) (doc_macro_id dd))
                (doc_has_key t m)
                (fun old => doc_with_id (doc_id old) dd)
                (fun i => doc_with_id i dd) (documents w) (next_id w)) as L.
  destruct (upsert _ _ _ (documents w) (next_id w)) as [l k].
  repeat split; intros; try apply lookup_le_refl.
  apply L. intros x Hx. split; [|reflexivity].
  rewrite doc_key_with_id. apply doc_has_key_iff in Hx. destruct Hx as [H1 H2].
  unfold doc_has_key. now rewrite H1, H2.
Qed.

Lemma steps_below_set_document_tasks i ts :
  steps below (set_document_tasks i ts).
Proof.
  intros w. unfold set_document_tasks, modify.
  repeat split; intros; try apply lookup_le_refl.
  apply lookup_le_update_first. intros x _. split; reflexivity.
Qed.

#[export] Hint Resolve steps_below_now steps_below_print
  steps_below_upsert_macro steps_below_insert_department
  steps_below_insert_job_position steps_below_upsert_document
  steps_below_set_document_tasks : steps_db.

Ltac below_rule :=
  lazymatch goal with
  | |- steps _ (scan_header _ _ _) => rule @steps_scan_header
  | |- steps _ (let _ := _ in _) => cbv zeta
  | |- steps _ (ret _) => rule @steps_ret
  | |- steps _ (raise _) => rule @steps_raise
  | |- steps _ (gets _) => rule @steps_gets
  | |- steps _ (bind _ _) => rule @steps_bind; [|intros]
  | |- steps _ (for_each _ _ _) => rule @steps_for_each; intros
  | |- steps _ (match ?x with _ => _ end) => destruct x
  | |- steps _ _ => solve [auto with steps_db]
  end.

Ltac below_rules := repeat below_rule.

Lemma steps_below_resolve_department (n : string) :
  steps below (resolve_department n).
Proof. unfold resolve_department. below_rules. Qed.

#[export] Hint Resolve steps_below_resolve_department : steps_db.

Lemma steps_below_flush_tasks (st : Walk) : steps below (flush_tasks st).
Proof. unfold flush_tasks. below_rules. Qed.

Lemma steps_below_resolve_stakeholders (d : string) :
  steps below (resolve_stakeholders d).
Proof. unfold resolve_stakeholders. below_rules. Qed.

#[export] Hint Resolve steps_below_flush_tasks
  steps_below_resolve_stakeholders : steps_db.

Section BelowRuns.

Variable CREATED_BY_ID : ObjectId.

Lemma steps_below_start_process mid code t desc dirs st :
  steps below (start_process CREATED_BY_ID mid code t desc dirs st).
Proof. unfold start_process. below_rules. Qed.

Lemma steps_below_process_row df cm mid code row st :
  steps below (process_row CREATED_BY_ID df cm mid code row st).
Proof.
  pose proof steps_below_start_process.
  unfold process_row, append_task. below_rules.
Qed.

Lemma steps_below_import_rows df h mid code totals :
  steps below (import_rows CREATED_BY_ID df h mid code totals).
Proof.
  pose proof steps_below_process_row.
  unfold import_rows. below_rules.
Qed.

Lemma steps_below_import_details sh mid code totals :
  steps below (import_details CREATED_BY_ID sh mid code totals).
Proof.
  pose proof steps_below_import_rows.
  unfold import_details, find_header_row. below_rules.
Qed.

End BelowRuns.

(** *** The second run finds everything in place *)

Definition macro_sig (m : Macro) : ObjectId * string := (m_id m, m_code m).
Definition doc_sig (d : Document) : ObjectId * string * ObjectId :=
  (doc_id d, doc_title d, doc_macro_id d).

(** Departments and job positions are the same lists; macros and documents
    are the same records (same ids and keys, in the same order) up to their
    content; no id was drawn. *)
Definition stable (w w' : World) : Prop :=
  departments w' = departments w
  /\ job_positions w' = job_positions w
  /\ map macro_sig (macros w') = map macro_sig (macros w)
  /\ map doc_sig (documents w') = map doc_sig (documents w)
  /\ next_id w' = next_id w.

#[export] Instance stable_preorder : PreOrder stable.
Proof.
  split; unfold stable.
  - intros w. repeat split.
  - intros a b c (A1 & A2 & A3 & A4 & A5) (B1 & B2 & B3 & B4 & B5).
    repeat split; congruence.
Qed.

Lemma lookup_le_sig {A I S} (sig : A -> S) (ident : A -> I) (q : A -> bool)
    (l l' : list A) :
  (forall x y, sig x = sig y -> q x = q y /\ ident x = ident y) ->
  map sig l = map sig l' -> lookup_le ident q l l'.
Proof.
  intros Hs. revert l'. induction l as [|a r IH]; intros [|b r'] E x F;
    simpl in *; try discriminate.
  inversion E as [[E1 E2]]. destruct (Hs a b E1) as [Hq Hi].
  rewrite <- Hq. destruct (q a).
  - inversion F; subst. eauto.
  - now apply IH.
Qed.

Lemma stable_is_below (w w' : World) : stable w w' -> below w w'.
Proof.
  intros (Hd & Hj & Hm & Hk & _). unfold below. rewrite Hd, Hj.
  repeat split; intros; try apply lookup_le_refl.
  - apply (lookup_le_sig macro_sig); [|now symmetry].
    intros x y E. inversion E. unfold macro_has_code. split; congruence.
  - apply (lookup_le_sig doc_sig); [|now symmetry].
    intros x y E. inversion E. unfold doc_has_key. split; congruence.
Qed.

Lemma below_stable (x w w' : World) : below x w -> stable w w' -> below x w'.
Proof.
  intros B S. etransitivity; [exact B|now apply stable_is_below].
Qed.

Definition world_of {A} (o : Outcome A) : World :=
  match o with
  | Ok _ w => w
  | Raised _ w => w
  end.

Lemma steps_world_of {A} (R : World -> World -> Prop) (m : M A) (w : World) :
  steps R m -> R w (world_of (m w)).
Proof. intros H. specialize (H w). now destruct (m w). Qed.

(** [sim rel mA mB]: when run B starts in a world that already holds all
    that run A leaves behind, B ends the way A does, with related results,
    and changes nothing but the content of records. *)
Definition sim {A B} (rel : A -> B -> Prop) (mA : M A) (mB : M B) : Prop :=
  forall wA wB,
    below (world_of (mA wA)) wB ->
    match mA wA, mB wB with
    | Ok a _, Ok b wB' => rel a b /\ stable wB wB'
    | Raised e _, Raised e' wB' => e = e' /\ stable wB wB'
    | _, _ => False
    end.

Lemma sim_ret {A B} (rel : A -> B -> Prop) (a : A) (b : B) :
  rel a b -> sim rel (ret a) (ret b).
Proof. intros H wA wB _. simpl. split; [assumption|reflexivity]. Qed.

Lemma sim_raise {A B} (rel : A -> B -> Prop) (e : Exn) :
  sim rel (raise e) (raise e).
Proof. intros wA wB _. simpl. split; reflexivity. Qed.

Lemma sim_bind {A A' B B'} (relA : A -> A' -> Prop) (relB : B -> B' -> Prop)
    (mA : M A) (mB : M A') (kA : A -> M B) (kB : A' -> M B') :
  sim relA mA mB ->
  (forall a, steps below (kA a)) ->
  (forall a b, relA a b -> sim relB (kA a) (kB b)) ->
  sim relB (bind mA kA) (bind mB kB).
Proof.
  intros Hm Hs Hk wA wB H. unfold bind in *. specialize (Hm wA wB).
  destruct (mA wA) as [a wA1|e wA1].
  - assert (H1 : below wA1 wB).
    { etransitivity; [|exact H]. apply steps_world_of, Hs. }
    specialize (Hm H1). destruct (mB wB) as [b wB1|]; [|contradiction].
    destruct Hm as [Hr Hst].
    specialize (Hk a b Hr wA1 wB1 (below_stable _ _ _ H Hst)).
    destruct (kA a wA1), (kB b wB1); try contradiction;
      (split; [apply Hk|etransitivity; [exact Hst|apply Hk]]).
  - specialize (Hm H). destruct (mB wB); [contradiction|exact Hm].
Qed.

Lemma sim_for_each {A S S'} (rel : S -> S' -> Prop) (bodyA : A -> S -> M S)
    (bodyB : A -> S' -> M S') (l : list A) :
  (forall x s, steps below (bodyA x s)) ->
  (forall x s s', rel s s' -> sim rel (bodyA x s) (bodyB x s')) ->
  forall s s', rel s s' -> sim rel (for_each bodyA l s) (for_each bodyB l s').
Proof.
  intros Hs Hb. induction l as [|x r IH]; intros s s' Hr; cbn [for_each].
  - now apply sim_ret.
  - eapply sim_bind; [apply Hb, Hr| |exact IH].
    intros a. apply steps_for_each; [typeclasses eauto|]. intros; apply Hs.
Qed.

Lemma sim_weaken {A B} (rel rel' : A -> B -> Prop) (mA : M A) (mB : M B) :
  (forall a b, rel a b -> rel' a b) -> sim rel mA mB -> sim rel' mA mB.
Proof.
  intros H S wA wB Hb. specialize (S wA wB Hb).
  destruct (mA wA), (mB wB); try contradiction; split; try apply S.
  apply H, S.
Qed.

Definition any {A B} (a : A) (b : B) : Prop := True.

Lemma sim_now : sim any now now.
Proof. intros wA wB _. simpl. repeat split. Qed.

Lemma sim_print (sA sB : string) : sim any (print sA) (print sB).
Proof. intros wA wB _. simpl. repeat split. Qed.

Lemma sim_scan_header (df : DataFrame) (i n : nat) :
  sim eq (scan_header df i n) (scan_header df i n).
Proof.
  intros wA wB _. rewrite !scan_header_pure.
  destruct (header_scan df i n); split; reflexivity.
Qed.

(** Resolving a name that the world already holds. *)
Lemma resolved_world_present (n : string) (w : World) :
  exists d j,
    find (dept_has_name n) (departments (resolved_world n w)) = Some d
    /\ find (jp_has_key n (d_id d)) (job_positions (resolved_world n w))
       = Some j.
Proof.
  unfold resolved_world.
  destruct (find (dept_has_name n) (departments w)) as [d|] eqn:F.
  - cbn [job_positions set_clock].
    destruct (find (jp_has_key n (d_id d)) (job_positions w)) as [j|] eqn:J.
    + exists d, j. cbn. auto.
    + exists d. eexists. cbn [departments job_positions set_clock set_next_id
                            set_job_positions].
      split; [exact F|]. apply find_last; [exact J|].
      unfold jp_has_key. cbn. now rewrite String.eqb_refl, Nat.eqb_refl.
  - set (D := mkDepartment (next_id w) n (unique_code (departments w) n) true
                           (clock w) (S (clock w))).
    assert (FD : find (dept_has_name n) (departments w ++ [D])%list = Some D).
    { apply find_last; [exact F|]. apply dept_has_name_refl. }
    cbn [job_positions set_clock set_next_id set_departments].
    destruct (find (jp_has_key n (next_id w)) (job_positions w)) as [j|] eqn:J.
    + exists D, j. cbn. auto.
    + exists D. eexists. cbn [departments job_positions set_clock set_next_id
                            set_job_positions set_departments].
      split; [exact FD|]. apply find_last; [exact J|].
      unfold jp_has_key. cbn. now rewrite String.eqb_refl, Nat.eqb_refl.
Qed.

Lemma resolved_world_noop (n : string) (w : World) (d : Department)
    (j : JobPosition) :
  find (dept_has_name n) (departments w) = Some d ->
  find (jp_has_key n (d_id d)) (job_positions w) = Some j ->
  resolved_world n w = set_clock (4 + clock w) w.
Proof.
  intros F J. unfold resolved_world. rewrite F.
  cbn [job_positions set_clock]. rewrite J. reflexivity.
Qed.

Lemma sim_resolve_department (n : string) :
  sim any (resolve_department n) (resolve_department n).
Proof.
  intros wA wB H. rewrite !resolve_department_run in *. cbn [world_of] in H.
  destruct (resolved_world_present n wA) as (d & j & Fd & Fj).
  destruct H as (_ & Hd & Hj & _).
  destruct (Hd n d Fd) as (dB & FdB & Ei).
  destruct (Hj n (d_id d) j Fj) as (jB & FjB & _).
  rewrite <- Ei in FjB.
  rewrite (resolved_world_noop n wB dB jB FdB FjB).
  repeat split.
Qed.

Lemma sim_resolve_stakeholders (d_content : string) :
  sim eq (resolve_stakeholders d_content) (resolve_stakeholders d_content).
Proof.
  unfold resolve_stakeholders.
  eapply sim_bind with (relA := any).
  - apply (sim_for_each any); [|intros; apply sim_resolve_department|exact I].
    intros. apply steps_below_resolve_department.
  - intros. apply steps_ret. typeclasses eauto.
  - intros. now apply sim_ret.
Qed.

Lemma update_first_map_matched {A B} (p : A -> bool) (f : A -> A)
    (g : A -> B) (l : list A) :
  (forall x, p x = true -> g (f x) = g x) ->
  map g (update_first p f l) = map g l.
Proof.
  intros H. induction l as [|x r IH]; simpl; [reflexivity|].
  destruct (p x) eqn:P; simpl; [now rewrite (H x P)|now rewrite IH].
Qed.

(** What the second run needs to know of the walk of the first. *)
Definition walk_rel (a b : Walk) : Prop :=
  current_process_title a = current_process_title b
  /\ option_map doc_process_code (current_process_doc a)
     = option_map doc_process_code (current_process_doc b)
  /\ current_tasks a = current_tasks b
  /\ process_count a = process_count b
  /\ task_count a = task_count b
  /\ total_processes a = total_processes b.

Lemma stable_flushed (st : Walk) (w : World) : stable w (flushed st w).
Proof.
  unfold flushed. destruct (current_process_doc st); [|reflexivity].
  repeat split. cbn [documents set_documents].
  now apply update_first_map.
Qed.

Lemma walk_rel_flushed_count (a b : Walk) :
  walk_rel a b -> flushed_count a = flushed_count b.
Proof.
  intros (_ & Hd & Ht & _ & Hc & _). unfold flushed_count.
  destruct (current_process_doc a), (current_process_doc b);
    try discriminate; congruence.
Qed.

Lemma sim_flush_tasks (a b : Walk) :
  walk_rel a b -> sim eq (flush_tasks a) (flush_tasks b).
Proof.
  intros R wA wB _. rewrite !flush_tasks_run.
  split; [now apply walk_rel_flushed_count|apply stable_flushed].
Qed.

Lemma sim_append_task (t : string) (a b : Walk) :
  walk_rel a b -> sim walk_rel (append_task t a) (append_task t b).
Proof.
  intros R wA wB _. rewrite !append_task_run.
  destruct R as (Ht & Hd & Hk & Hp & Hc & Htp).
  destruct (current_process_doc a) as [dA|] eqn:EA,
           (current_process_doc b) as [dB|] eqn:EB; try discriminate.
  - split; [|reflexivity]. inversion Hd as [Hcode].
    unfold walk_rel, with_task. cbn. rewrite EA, EB, Hk, Hcode. cbn.
    repeat split; assumption.
  - split; reflexivity.
Qed.

(** The world after [upsert_document]. *)
Definition doc_upserted (dd : Document) (w : World) : World :=
  let (l, n) := upsert (doc_has_key (doc_title dd) (doc_macro_id dd))
                  (fun old => doc_with_id (doc_id old) dd)
                  (fun i => doc_with_id i dd)
                  (documents w) (next_id w) in
  set_next_id n (set_documents l w).

Lemma upsert_document_run (dd : Document) (w : World) :
  upsert_document dd w = Ok tt (doc_upserted dd w).
Proof. reflexivity. Qed.

Lemma find_doc_upserted (dd : Document) (w : World) (t : string)
    (m : ObjectId) :
  doc_title dd = t -> doc_macro_id dd = m ->
  find (doc_has_key t m) (documents (doc_upserted dd w))
  = Some (doc_with_id
            (match find (doc_has_key t m) (documents w) with
             | Some old => doc_id old
             | None => next_id w
             end) dd).
Proof.
  intros <- <-. unfold doc_upserted.
  pose proof (find_upsert (doc_has_key (doc_title dd) (doc_macro_id dd))
                (fun old => doc_with_id (doc_id old) dd)
                (fun i => doc_with_id i dd) (documents w) (next_id w)) as F.
  destruct (upsert _ _ _ (documents w) (next_id w)) as [l n].
  cbn [documents set_next_id set_documents fst] in *. rewrite F.
  - now destruct (find _ (documents w)).
  - intros x _. rewrite doc_key_with_id. apply doc_has_key_iff. auto.
  - rewrite doc_key_with_id. apply doc_has_key_iff. auto.
Qed.

Lemma doc_upserted_stable (dd : Document) (w : World) (y : Document) :
  find (doc_has_key (doc_title dd) (doc_macro_id dd)) (documents w) = Some y ->
  stable w (doc_upserted dd w).
Proof.
  intros F. unfold doc_upserted, upsert. rewrite existsb_find, F.
  repeat split. cbn [documents set_next_id set_documents].
  apply update_first_map_matched. intros x Hx.
  apply doc_has_key_iff in Hx. destruct Hx as [H1 H2].
  unfold doc_sig. cbn. now rewrite H1, H2.
Qed.

Lemma sim_open_document (rel : Walk -> Walk -> Prop) (ddA ddB : Document)
    (t : string) (m : ObjectId) (mkA mkB : option Document -> Walk) :
  doc_title ddA = t -> doc_macro_id ddA = m ->
  doc_title ddB = t -> doc_macro_id ddB = m ->
  (forall iA iB, rel (mkA (Some (doc_with_id iA ddA)))
                     (mkB (Some (doc_with_id iB ddB)))) ->
  sim rel
      (upsert_document ddA ;;
       doc <- gets (fun w => find (doc_has_key t m) (documents w)) ;;
       ret (mkA doc))
      (upsert_document ddB ;;
       doc <- gets (fun w => find (doc_has_key t m) (documents w)) ;;
       ret (mkB doc)).
Proof.
  intros HtA HmA HtB HmB Hrel wA wB.
  rewrite (bind_ok _ _ wA _ _ (upsert_document_run ddA wA)).
  rewrite (bind_ok _ _ wB _ _ (upsert_document_run ddB wB)).
  unfold bind, gets, ret.
  rewrite (find_doc_upserted ddA wA t m HtA HmA).
  rewrite (find_doc_upserted ddB wB t m HtB HmB).
  cbn [world_of]. intros H. split; [apply Hrel|].
  destruct H as (_ & _ & _ & Hk).
  destruct (Hk t m _ (find_doc_upserted ddA wA t m HtA HmA)) as (y & Fy & _).
  apply (doc_upserted_stable ddB wB y). now rewrite HtB, HmB.
Qed.

Lemma import_sheet_unreadable CREATED_BY_ID (sh : Sheet)
    (totals : nat * nat) (w : World) :
  macro_info sh = None ->
  import_sheet CREATED_BY_ID sh totals w
  = Raised IndexError
           (set_console (console w ++ [processing_line sh])%list w).
Proof.
  intros H. unfold macro_info in H. unfold import_sheet.
  set (w1 := set_console (console w ++ [processing_line sh])%list w).
  rewrite (bind_ok _ _ w tt w1) by reflexivity.
  destruct (nth_error (sheet_frame sh) 0) as [[|title_cell r0]|] eqn:E0.
  - apply bind_raised. unfold iloc. now rewrite E0.
  - rewrite (bind_ok _ _ w1 title_cell w1)
      by (unfold iloc; now rewrite E0).
    destruct (extract_macro (clean_text title_cell) (sheet_name sh))
      as [code name].
    destruct (Nat.ltb 3 (shape0 (sheet_frame sh))); [|discriminate].
    apply bind_raised. apply bind_raised. unfold iloc.
    destruct (nth_error (sheet_frame sh) 3) as [[|x r3]|]; try reflexivity.
    discriminate.
  - apply bind_raised. unfold iloc. now rewrite E0.
Qed.

Section SimRuns.

Variable CREATED_BY_ID : ObjectId.

Lemma sim_start_process mid code t desc dirs (a b : Walk) :
  walk_rel a b ->
  sim walk_rel (start_process CREATED_BY_ID mid code t desc dirs a)
               (start_process CREATED_BY_ID mid code t desc dirs b).
Proof.
  intros R. unfold start_process.
  eapply sim_bind; [apply (sim_flush_tasks a b R)| |].
  { intros. below_rules. }
  intros ca cb <-. cbv zeta.
  eapply sim_bind; [apply sim_resolve_stakeholders| |].
  { intros. below_rules. }
  intros sa sb <-.
  eapply sim_bind; [apply sim_now| |].
  { intros. below_rules. }
  intros t1A t1B _.
  eapply sim_bind; [apply sim_now| |].
  { intros. below_rules. }
  intros t2A t2B _.
  destruct R as (Ht & Hd & Hk & Hp & Hc & Htp).
  apply sim_open_document; try reflexivity.
  intros iA iB. unfold walk_rel. cbn. rewrite Hp, Htp.
  repeat split.
Qed.

Lemma sim_process_row df cm mid code row (a b : Walk) :
  walk_rel a b ->
  sim walk_rel (process_row CREATED_BY_ID df cm mid code row a)
               (process_row CREATED_BY_ID df cm mid code row b).
Proof.
  intros R. unfold process_row. cbv zeta.
  assert (Ht : current_process_title a = current_process_title b) by apply R.
  rewrite Ht.
  eapply sim_bind with (relA := walk_rel).
  - destruct (negb _ && _)%bool; [now apply sim_start_process|
                                  now apply sim_ret].
  - intros s. unfold append_task. below_rules.
  - intros s s' Rs.
    destruct (negb (is_empty (read_col df row (tasks cm))));
      [now apply sim_append_task|now apply sim_ret].
Qed.

Lemma sim_import_rows df h mid code totals :
  sim eq (import_rows CREATED_BY_ID df h mid code totals)
         (import_rows CREATED_BY_ID df h mid code totals).
Proof.
  unfold import_rows. cbv zeta.
  eapply sim_bind with (relA := walk_rel).
  - apply sim_for_each.
    + intros. apply steps_below_process_row.
    + intros. now apply sim_process_row.
    + repeat split.
  - intros s. pose proof steps_below_flush_tasks. below_rules.
  - intros s s' Rs.
    assert (Hres : sim eq
              (match current_process_doc s with
               | Some _ => task_count' <- flush_tasks s ;;
                           ret (task_count', snd totals + task_count')
               | None => ret (task_count s, snd totals)
               end)
              (match current_process_doc s' with
               | Some _ => task_count' <- flush_tasks s' ;;
                           ret (task_count', snd totals + task_count')
               | None => ret (task_count s', snd totals)
               end)).
    { pose proof Rs as (_ & Hd & _ & _ & Hc & _).
      destruct (current_process_doc s), (current_process_doc s');
        try discriminate.
      - eapply sim_bind; [apply (sim_flush_tasks s s' Rs)| |].
        + intros. below_rules.
        + intros x y <-. now apply sim_ret.
      - apply sim_ret. now rewrite Hc. }
    eapply sim_bind; [exact Hres| |].
    + intros. below_rules.
    + intros r r' <-.
      destruct Rs as (_ & _ & _ & Hp & _ & Htp). rewrite Hp.
      eapply sim_bind; [apply sim_print| |].
      * intros. below_rules.
      * intros _ _ _. apply sim_ret. now rewrite Htp.
Qed.

Lemma sim_import_details sh mid code totals :
  sim eq (import_details CREATED_BY_ID sh mid code totals)
         (import_details CREATED_BY_ID sh mid code totals).
Proof.
  unfold import_details, find_header_row. cbv zeta.
  eapply sim_bind; [apply sim_scan_header| |].
  - intros a. pose proof steps_below_import_rows. below_rules.
  - intros o o' <-. destruct o as [h|].
    + apply sim_import_rows.
    + eapply sim_bind; [apply sim_print| |].
      * intros. below_rules.
      * intros. now apply sim_ret.
Qed.

Lemma steps_below_import_sheet sh totals :
  steps below (import_sheet CREATED_BY_ID sh totals).
Proof.
  pose proof steps_below_import_details.
  unfold import_sheet, iloc. below_rules.
Qed.

Lemma steps_below_import_data xl : steps below (import_data CREATED_BY_ID xl).
Proof.
  pose proof steps_below_import_sheet.
  unfold import_data. below_rules.
Qed.

Lemma macro_upserted_stable sh code name desc (w : World) (y : Macro) :
  find (macro_has_code code) (macros w) = Some y ->
  stable w (macro_upserted CREATED_BY_ID sh code name desc w).
Proof.
  intros F. unfold macro_upserted, macros_upserted, upsert.
  rewrite existsb_find, F. repeat split. cbn [macros].
  apply update_first_map_matched. intros x Hx.
  unfold macro_has_code in Hx. apply String.eqb_eq in Hx.
  unfold macro_sig. cbn. now rewrite Hx.
Qed.

Lemma macros_macro_upserted sh code name desc (w : World) :
  macros (macro_upserted CREATED_BY_ID sh code name desc w)
  = fst (macros_upserted CREATED_BY_ID code name desc w).
Proof.
  unfold macro_upserted. now destruct (macros_upserted _ _ _ _ w).
Qed.

Lemma sim_import_sheet sh totals :
  sim eq (import_sheet CREATED_BY_ID sh totals)
         (import_sheet CREATED_BY_ID sh totals).
Proof.
  intros wA wB H.
  destruct (macro_info sh) as [[[code name] desc]|] eqn:Hi.
  - rewrite (import_sheet_run _ _ _ wB _ _ _ Hi).
    rewrite (import_sheet_run _ _ _ wA _ _ _ Hi) in *.
    set (wA1 := macro_upserted CREATED_BY_ID sh code name desc wA) in *.
    assert (H1 : below wA1 wB).
    { etransitivity; [|exact H].
      apply steps_world_of, steps_below_import_details. }
    assert (FA : find (macro_has_code code) (macros wA1)
                 = Some (macro_with_id (macro_id_for code wA)
                           (make_macro_doc CREATED_BY_ID code name desc
                              (clock wA) (S (clock wA))))).
    { unfold wA1. rewrite macros_macro_upserted.
      apply find_macros_upserted. }
    destruct H1 as (Hm & _).
    destruct (Hm code _ FA) as (y & Fy & Ey). cbn [m_id macro_with_id] in Ey.
    assert (Eid : macro_id_for code wB = macro_id_for code wA).
    { unfold macro_id_for at 1. now rewrite Fy. }
    rewrite Eid.
    pose proof (macro_upserted_stable sh code name desc wB y Fy) as St.
    pose proof (sim_import_details sh (macro_id_for code wA) code totals
                  wA1 _ (below_stable _ _ _ H St)) as S.
    destruct (import_details _ sh _ code totals wA1),
             (import_details _ sh _ code totals
                (macro_upserted CREATED_BY_ID sh code name desc wB));
      try contradiction;
      (split; [apply S|etransitivity; [exact St|apply S]]).
  - rewrite !(import_sheet_unreadable _ _ _ _ Hi). repeat split.
Qed.

Lemma sim_import_data xl :
  sim any (import_data CREATED_BY_ID xl) (import_data CREATED_BY_ID xl).
Proof.
  pose proof steps_below_import_sheet as Hb.
  unfold import_data. destruct xl as [sheets|]; [|apply sim_print].
  eapply sim_bind; [apply sim_print| |].
  { intros. below_rules. }
  intros _ _ _.
  eapply sim_bind with (relA := eq).
  - apply sim_for_each; [intros; apply Hb| |reflexivity].
    intros sh s s' <-. apply sim_import_sheet.
  - intros. below_rules.
  - intros s s' <-.
    repeat (eapply sim_bind; [apply sim_print|intros; below_rules|intros]).
    apply sim_print.
Qed.

End SimRuns.

(** *** The records of the processes are rewritten *)

Lemma last_of_title_exists (gs : list Group) (g : Group) :
  In g gs ->
  exists pre g' r,
    gs = (pre ++ g' :: r)%list /\ g_title g' = g_title g
    /\ last_of_title pre g'.
Proof.
  induction gs as [|a rest IH]; intros Hin; [contradiction|].
  destruct (string_dec (g_title a) (g_title g)) as [E|E].
  - exists [], a, rest. repeat split; auto. intros g' [].
  - destruct Hin as [->|Hin]; [congruence|].
    destruct (IH Hin) as (pre & g' & r & -> & Et & L).
    exists (a :: pre), g', r. repeat split; auto.
    intros x [<-|Hx]; [congruence|now apply L].
Qed.

Lemma find_update_first_cases {A} (p q : A -> bool) (f : A -> A)
    (l : list A) (x : A) :
  (forall y, q (f y) = q y) ->
  find q l = Some x ->
  find q (update_first p f l) = Some x
  \/ find q (update_first p f l) = Some (f x).
Proof.
  intros Hq. induction l as [|a r IH]; simpl; [discriminate|].
  destruct (p a); simpl.
  - rewrite Hq. destruct (q a); [|auto].
    intros E. inversion E; subst. now right.
  - destruct (q a); auto.
Qed.

Lemma find_upsert_unrelated {A} (p q : A -> bool) (f : A -> A)
    (g : ObjectId -> A) (l : list A) (nid : ObjectId) :
  (forall x, p x = true -> q x = false) ->
  (forall x, p x = true -> q (f x) = false) ->
  q (g nid) = false ->
  find q (fst (upsert p f g l nid)) = find q l.
Proof.
  intros H1 H2 Hg. apply find_upsert_other; auto.
Qed.

Definition clock_grows (w w' : World) : Prop := clock w <= clock w'.

#[export] Instance clock_grows_preorder : PreOrder clock_grows.
Proof.
  split; unfold clock_grows; [intros w; lia|intros a b c; lia].
Qed.

Lemma clock_resolved (n : string) (w : World) :
  clock w <= clock (resolved_world n w).
Proof.
  unfold resolved_world.
  destruct (find (dept_has_name n) (departments w));
    match goal with
    | |- context [find ?p ?l] => destruct (find p l)
    end; cbn; lia.
Qed.

Section Rewritten.

Variable CREATED_BY_ID : ObjectId.

(** [d] is a record written at a time not before [c0]: apart from its
    tasks and its id, it is the data of a process built then. *)
Definition written (c0 : Time) (d : Document) : Prop :=
  exists i t1 ref desc stk ts,
    c0 <= t1
    /\ d = doc_with_tasks ts
             (doc_with_id i
                (make_doc_data CREATED_BY_ID (doc_macro_id d) ref
                               (doc_title d) desc stk t1 (S t1))).

Lemma written_tasks c0 d ts : written c0 d -> written c0 (doc_with_tasks ts d).
Proof.
  intros (i & t1 & ref & desc & stk & ts0 & C & E).
  exists i, t1, ref, desc, stk, ts. split; [assumption|].
  rewrite E. reflexivity.
Qed.

Lemma written_mono c0 c1 d : c0 <= c1 -> written c1 d -> written c0 d.
Proof.
  intros L (i & t1 & ref & desc & stk & ts & C & E).
  exists i, t1, ref, desc, stk, ts. split; [lia|assumption].
Qed.

Lemma doc_of_group_written mid code c0 g k d :
  doc_of_group CREATED_BY_ID mid code c0 g k d -> written c0 d.
Proof.
  intros (i & t1 & C & E).
  exists i, t1, (process_ref code k), (g_desc g),
    (candidate_names (g_directions g)), (doc_tasks d).
  split; [assumption|]. rewrite E. reflexivity.
Qed.

(** The store holds a record for the key, written not before [c0]. *)
Definition holds (c0 : Time) (t : string) (mid : ObjectId) (w : World)
  : Prop :=
  c0 <= clock w
  /\ exists d,
       find (doc_has_key t mid) (documents w) = Some d /\ written c0 d.

Lemma holds_same_documents c0 t mid (w w' : World) :
  documents w' = documents w -> clock w <= clock w' ->
  holds c0 t mid w -> holds c0 t mid w'.
Proof.
  intros E L [C H]. split; [lia|]. now rewrite E.
Qed.

Lemma holds_now c0 t mid : steps (maintains (holds c0 t mid)) now.
Proof.
  intros w. cbn. unfold maintains.
  apply holds_same_documents; [reflexivity|cbn; lia].
Qed.

Lemma holds_print c0 t mid s : steps (maintains (holds c0 t mid)) (print s).
Proof.
  intros w. cbn. unfold maintains.
  apply holds_same_documents; [reflexivity|cbn; lia].
Qed.

Lemma holds_upsert_macro c0 t mid md :
  steps (maintains (holds c0 t mid)) (upsert_macro md).
Proof.
  intros w. unfold upsert_macro, modify, maintains.
  destruct (upsert _ _ _ (macros w) (next_id w)).
  apply holds_same_documents; [reflexivity|cbn; lia].
Qed.

Lemma holds_set_document_tasks c0 t mid i ts :
  steps (maintains (holds c0 t mid)) (set_document_tasks i ts).
Proof.
  intros w. unfold set_document_tasks, modify, maintains.
  intros [C (d & F & W)]. split; [exact C|].
  cbn [documents set_documents].
  destruct (find_update_first_cases (doc_has_id i) (doc_has_key t mid)
              (doc_with_tasks ts) (documents w) d
              (fun y => doc_key_with_tasks t mid ts y) F) as [F'|F'];
    eexists; (split; [exact F'|]); [assumption|now apply written_tasks].
Qed.

Lemma holds_flushed c0 t mid (st : Walk) (w : World) :
  holds c0 t mid w -> holds c0 t mid (flushed st w).
Proof.
  unfold flushed. destruct (current_process_doc st) as [d|]; [|auto].
  apply (holds_set_document_tasks c0 t mid (doc_id d) (current_tasks st) w).
Qed.

Lemma holds_resolve_all c0 t mid names (w : World) :
  holds c0 t mid w -> holds c0 t mid (resolve_all names w).
Proof.
  destruct (resolve_all_docs_kept names w) as ([E _] & C & _).
  now apply holds_same_documents.
Qed.

Lemma holds_upserted c0 t mid (dd : Document) (w2 : World) m ref ttl dsc
    stk :
  dd = make_doc_data CREATED_BY_ID m ref ttl dsc stk (clock w2)
                     (S (clock w2)) ->
  holds c0 t mid w2 -> holds c0 t mid (upserted_world dd w2).
Proof.
  intros Edd [C (d & F & W)]. split; [rewrite clock_upserted; lia|].
  destruct (doc_has_key t mid dd) eqn:K.
  - apply doc_has_key_iff in K. destruct K as [Kt Km].
    rewrite (find_upserted dd w2 t mid Kt Km).
    eexists. split; [reflexivity|].
    exists (match find (doc_has_key t mid) (documents w2) with
            | Some old => doc_id old
            | None => next_id w2
            end), (clock w2), ref, dsc, stk, [].
    split; [exact C|]. rewrite Edd. reflexivity.
  - exists d. split; [|exact W]. rewrite <- F.
    unfold upserted_world.
    pose proof (find_upsert_unrelated
                  (doc_has_key (doc_title dd) (doc_macro_id dd))
                  (doc_has_key t mid)
                  (fun old => doc_with_id (doc_id old) dd)
                  (fun i => doc_with_id i dd) (documents w2) (next_id w2))
      as U.
    destruct (upsert _ _ _ (documents w2) (next_id w2)) as [l n].
    cbn [documents fst] in *. apply U.
    + intros x Hx. apply doc_has_key_iff in Hx. destruct Hx as [H1 H2].
      unfold doc_has_key in *. now rewrite H1, H2.
    + intros x _. now rewrite doc_key_with_id.
    + now rewrite doc_key_with_id.
Qed.

Lemma holds_start_process c0 t mid mid' code t' desc dirs st :
  steps (maintains (holds c0 t mid))
        (start_process CREATED_BY_ID mid' code t' desc dirs st).
Proof.
  intros w. rewrite start_process_run. unfold maintains. intros H.
  unfold started_world. cbv zeta.
  eapply holds_upserted; [reflexivity|].
  now apply holds_resolve_all, holds_flushed.
Qed.

Lemma holds_flush_tasks c0 t mid st :
  steps (maintains (holds c0 t mid)) (flush_tasks st).
Proof.
  intros w. rewrite flush_tasks_run. unfold maintains. apply holds_flushed.
Qed.

Hint Resolve holds_now holds_print holds_upsert_macro holds_start_process
  holds_flush_tasks : steps_db.

Lemma holds_import_details c0 t mid sh mid' code totals :
  steps (maintains (holds c0 t mid))
        (import_details CREATED_BY_ID sh mid' code totals).
Proof.
  unfold import_details, import_rows, process_row, append_task,
    find_header_row. below_rules.
Qed.

Hint Resolve holds_import_details : steps_db.

Lemma holds_import_sheet c0 t mid sh totals :
  steps (maintains (holds c0 t mid)) (import_sheet CREATED_BY_ID sh totals).
Proof. unfold import_sheet, iloc. below_rules. Qed.

End Rewritten.

(** *** Invariants of a whole run *)

Ltac prim_step :=
  intros w;
  unfold upsert_macro, insert_department_if_absent,
    insert_job_position_if_absent, upsert_document, set_document_tasks,
    print, modify, now, upsert;
  repeat match goal with
         | |- context [if ?b then _ else _] => destruct b
         end.

Lemma clock_grows_now : steps clock_grows now.
Proof. prim_step. unfold clock_grows. cbn. lia. Qed.
Lemma clock_grows_print s : steps clock_grows (print s).
Proof. prim_step. unfold clock_grows. cbn. lia. Qed.
Lemma clock_grows_upsert_macro md : steps clock_grows (upsert_macro md).
Proof. prim_step; unfold clock_grows; cbn; lia. Qed.
Lemma clock_grows_insert_department n c t1 t2 :
  steps clock_grows (insert_department_if_absent n c t1 t2).
Proof. prim_step; unfold clock_grows; cbn; lia. Qed.
Lemma clock_grows_insert_job_position n d c t1 t2 :
  steps clock_grows (insert_job_position_if_absent n d c t1 t2).
Proof. prim_step; unfold clock_grows; cbn; lia. Qed.
Lemma clock_grows_upsert_document dd :
  steps clock_grows (upsert_document dd).
Proof. prim_step; unfold clock_grows; cbn; lia. Qed.
Lemma clock_grows_set_document_tasks i ts :
  steps clock_grows (set_document_tasks i ts).
Proof. prim_step; unfold clock_grows; cbn; lia. Qed.

Lemma wf_now : steps (maintains wf_docs) now.
Proof. prim_step. unfold maintains. intros H. exact H. Qed.
Lemma wf_print s : steps (maintains wf_docs) (print s).
Proof. prim_step. unfold maintains. intros H. exact H. Qed.
Lemma wf_upsert_macro md : steps (maintains wf_docs) (upsert_macro md).
Proof.
  prim_step; unfold maintains; apply docs_kept_wf; split; cbn; auto.
Qed.
Lemma wf_insert_department n c t1 t2 :
  steps (maintains wf_docs) (insert_department_if_absent n c t1 t2).
Proof.
  prim_step; unfold maintains; apply docs_kept_wf; split; cbn; auto.
Qed.
Lemma wf_insert_job_position n d c t1 t2 :
  steps (maintains wf_docs) (insert_job_position_if_absent n d c t1 t2).
Proof.
  prim_step; unfold maintains; apply docs_kept_wf; split; cbn; auto.
Qed.
Lemma wf_upsert_document dd : steps (maintains wf_docs) (upsert_document dd).
Proof.
  intros w. unfold upsert_document, modify, maintains. intros H.
  pose proof (wf_docs_upsert w (doc_has_key (doc_title dd) (doc_macro_id dd))
                dd H) as U.
  now destruct (upsert _ _ _ (documents w) (next_id w)).
Qed.
Lemma wf_set_document_tasks i ts :
  steps (maintains wf_docs) (set_document_tasks i ts).
Proof.
  intros w. unfold set_document_tasks, modify, maintains.
  now apply wf_docs_update.
Qed.

#[export] Hint Resolve clock_grows_now clock_grows_print
  clock_grows_upsert_macro clock_grows_insert_department
  clock_grows_insert_job_position clock_grows_upsert_document
  clock_grows_set_document_tasks wf_now wf_print wf_upsert_macro
  wf_insert_department wf_insert_job_position wf_upsert_document
  wf_set_document_tasks : steps_db.

Ltac unfold_run :=
  unfold import_data, import_sheet, iloc, import_details, import_rows,
    process_row, start_process, append_task, flush_tasks,
    resolve_stakeholders, resolve_department, find_header_row.

Section RunInvariants.

Variable CREATED_BY_ID : ObjectId.

Lemma clock_grows_import_sheet sh totals :
  steps clock_grows (import_sheet CREATED_BY_ID sh totals).
Proof. unfold_run. below_rules. Qed.

Lemma wf_import_sheet sh totals :
  steps (maintains wf_docs) (import_sheet CREATED_BY_ID sh totals).
Proof. unfold_run. below_rules. Qed.

Lemma wf_import_data xl :
  steps (maintains wf_docs) (import_data CREATED_BY_ID xl).
Proof. unfold_run. below_rules. Qed.

Lemma for_each_app_ok {A S} (body : A -> S -> M S) (before : list A) (x : A)
    (after : list A) (s s' : S) (w w' : World) :
  for_each body (before ++ x :: after)%list s w = Ok s' w' ->
  exists s1 w1 s2 w2,
    for_each body before s w = Ok s1 w1
    /\ body x s1 w1 = Ok s2 w2
    /\ for_each body after s2 w2 = Ok s' w'.
Proof.
  revert s w. induction before as [|y r IH]; intros s w E; cbn [app] in E.
  - apply for_each_cons in E. destruct E as (s2 & w2 & E1 & E2).
    exists s, w, s2, w2. repeat split; assumption.
  - apply for_each_cons in E. destruct E as (s1 & w1 & E1 & E2).
    destruct (IH _ _ E2) as (sa & wa & sb & wb & Ea & Eb & Ec).
    exists sa, wa, sb, wb. repeat split; try assumption.
    cbn [for_each]. now rewrite (bind_ok _ _ _ _ _ E1).
Qed.

Lemma holds_mono c0 c1 t mid (w : World) :
  c0 <= c1 -> holds CREATED_BY_ID c1 t mid w -> holds CREATED_BY_ID c0 t mid w.
Proof.
  intros L [C (d & F & W)]. split; [lia|].
  exists d. split; [exact F|]. eapply written_mono; eassumption.
Qed.

(** After a sheet is imported, every title that opened a group in it has
    its record, written during that import, under the macro of the
    sheet. *)
Lemma import_sheet_holds sh totals res (u u' : World) h code name desc g :
  let df := sheet_frame sh in
  wf_docs u ->
  import_sheet CREATED_BY_ID sh totals u = Ok res u' ->
  macro_info sh = Some (code, name, desc) ->
  header_scan df 0 10 = inr (Some h) ->
  In g (groups_rev df (build_col_map (nth h df [])) (skipn (S h) df)) ->
  holds CREATED_BY_ID (clock u) (g_title g) (macro_id_for code u) u'
  /\ exists m, find (macro_has_code code) (macros u') = Some m
               /\ m_id m = macro_id_for code u.
Proof.
  intros df WF E Hi Hs Hin.
  pose proof (clock_grows_import_sheet sh totals u) as Hc. rewrite E in Hc.
  pose proof E as E'.
  rewrite (import_sheet_run _ _ _ _ _ _ _ Hi) in E.
  pose proof (import_details_keeps_macros CREATED_BY_ID sh
                (macro_id_for code u) code totals
                (macro_upserted CREATED_BY_ID sh code name desc u)) as Hm.
  rewrite E in Hm. unfold keeps in Hm.
  unfold import_details in E. fold df in E.
  rewrite (bind_ok _ _ _ (Some h) _) in E
    by (rewrite find_header_row_run; fold df; now rewrite Hs).
  pose proof (import_rows_recorded CREATED_BY_ID df _ (macro_id_for code u)
                code h totals res _ u' eq_refl
                (wf_macro_upserted _ _ _ _ _ _ WF) E) as Hrec.
  destruct (last_of_title_exists _ g Hin) as (pre & g' & r & Eg & Et & L).
  destruct (Hrec pre g' r Eg L) as (d & F & D & _).
  rewrite Et in F. split.
  - split; [exact Hc|]. exists d. split; [exact F|].
    apply doc_of_group_written in D.
    eapply written_mono; [|exact D]. rewrite clock_macro_upserted. lia.
  - eexists. rewrite Hm, macros_macro_upserted.
    split; [apply find_macros_upserted|reflexivity].
Qed.

End RunInvariants.

Lemma lookup_by_sig (t : string) (m : ObjectId) (l l' : list Document)
    (d : Document) :
  map doc_sig l = map doc_sig l' ->
  find (doc_has_key t m) l = Some d ->
  exists d', find (doc_has_key t m) l' = Some d' /\ doc_id d' = doc_id d.
Proof.
  intros E F. apply (lookup_le_sig doc_sig doc_id (doc_has_key t m) l l');
    auto.
  intros x y Es. inversion Es. unfold doc_has_key. split; congruence.
Qed.

Definition same_ending {A B} (o1 : Outcome A) (o2 : Outcome B) : Prop :=
  match o1, o2 with
  | Ok _ _, Ok _ _ => True
  | Raised e _, Raised e' _ => e = e'
  | _, _ => False
  end.


Definition one_sheet_workbook : option Workbook := Some [regrouped_sheet].

Lemma second_run_completes :
  import_data 0 one_sheet_workbook
              (world_of (import_data 0 one_sheet_workbook empty_world))
  = Ok tt (world_of
             (import_data 0 one_sheet_workbook
                (world_of (import_data 0 one_sheet_workbook empty_world)))).
Proof. vm_compute. reflexivity. Qed.


(** * Further properties of the scripts *)

(** ** Cells as text *)

Lemma lstrip_blank (s : string) :
  lstrip s = "" <-> all_chars isspace s = true.
Proof.
  induction s as [|c r IH]; simpl; [tauto|].
  destruct (isspace c); simpl; [exact IH|]. split; discriminate.
Qed.

Lemma strip_blank (s : string) :
  strip s = "" <-> all_chars isspace s = true.
Proof.
  rewrite <- lstrip_blank. unfold strip.
  destruct (lstrip_head s) as [->|(c & r & -> & E)]; [simpl; tauto|].
  simpl. rewrite E, andb_false_r. split; discriminate.
Qed.

(** X1: the text read from a cell is trimmed, so it neither begins nor
    ends with a blank and reading it again changes nothing; it is empty
    exactly for a missing cell and for a cell made of blanks only. *)
Theorem clean_text_trimmed (text : Cell) :
  clean_text (Text (clean_text text)) = clean_text text
  /\ (forall c r, clean_text text = String c r -> isspace c = false)
  /\ (forall r c, clean_text text = r ++ String c "" -> isspace c = false)
  /\ (clean_text text = ""
      <-> text = NaN
          \/ exists s, text = Text s /\ all_chars isspace s = true).
Proof.
  assert (T : lstrip (clean_text text) = clean_text text
              /\ rstrip (clean_text text) = clean_text text).
  { destruct text as [|s]; [now split|apply strip_trimmed]. }
  destruct T as [L R]. split; [|split; [|split]].
  - change (clean_text (Text (clean_text text)))
      with (strip (clean_text text)).
    unfold strip. now rewrite L, R.
  - intros c r E. rewrite E in L.
    destruct (lstrip_head (String c r)) as [H|(c' & r' & H & Hc)];
      rewrite L in H; [discriminate|]. now inversion H; subst.
  - intros r c E. rewrite E in R.
    destruct (isspace c) eqn:Hc; [|reflexivity]. exfalso.
    rewrite (rstrip_blank_end r c Hc) in R.
    pose proof (rstrip_length r) as Hl. rewrite R, append_length in Hl.
    simpl in Hl. lia.
  - destruct text as [|s]; simpl.
    + split; [now left|reflexivity].
    + rewrite strip_blank. split.
      * intros H. right. now exists s.
      * intros [H|(s' & E & H)]; [discriminate|]. now inversion E; subst.
Qed.

(** ** Column roles *)

(** The text a header cell is tested on, and the four tests in the order
    in which the chain of conditions tries them: a cell takes the first
    role whose test it passes. *)
Definition header_text (val : Cell) : string := strip (lower (str_cell val)).

Definition is_title_header (val : Cell) : bool :=
  (contains "process" (header_text val)
   && negb (contains "description" (header_text val))
   && Nat.ltb (String.length (header_text val)) 20)%bool.

Definition is_desc_header (val : Cell) : bool :=
  (negb (is_title_header val)
   && (contains "description" (header_text val)
       && contains "process" (header_text val)))%bool.

Definition is_tasks_header (val : Cell) : bool :=
  (negb (is_title_header val) && negb (is_desc_header val)
   && contains kw_taches (header_text val))%bool.

Definition is_directions_header (val : Cell) : bool :=
  (negb (is_title_header val) && negb (is_desc_header val)
   && negb (is_tasks_header val)
   && (contains kw_concernees (header_text val)
       || contains "directions" (header_text val)))%bool.

(** Column [i] is the one of the last header cell that passes the test, or
    the usual place [dflt] when no header cell passes it. *)
Definition role_column (p : Cell -> bool) (headers : list Cell)
    (dflt i : nat) : Prop :=
  (i < List.length headers
   /\ p (nth i headers NaN) = true
   /\ forall j, i < j < List.length headers -> p (nth j headers NaN) = false)
  \/ (i = dflt
      /\ forall j, j < List.length headers -> p (nth j headers NaN) = false).

Lemma classify_header_roles (idx : nat) (val : Cell) (cm : ColMap) :
  process_title (classify_header idx val cm)
  = (if is_title_header val then Some idx else process_title cm)
  /\ process_desc (classify_header idx val cm)
     = (if is_desc_header val then Some idx else process_desc cm)
  /\ tasks (classify_header idx val cm)
     = (if is_tasks_header val then Some idx else tasks cm)
  /\ directions (classify_header idx val cm)
     = (if is_directions_header val then Some idx else directions cm).
Proof.
  unfold classify_header, is_directions_header, is_tasks_header,
    is_desc_header, is_title_header, header_text.
  destruct (contains "process" _), (contains "description" _),
    (Nat.ltb _ 20), (contains kw_taches _), (contains kw_concernees _),
    (contains "directions" _); repeat split.
Qed.

Lemma map_headers_last (f : ColMap -> option nat) (p : Cell -> bool) :
  (forall idx val cm,
      f (classify_header idx val cm) = if p val then Some idx else f cm) ->
  forall headers idx cm,
    (f (map_headers idx headers cm) = f cm
     /\ forall j, j < List.length headers -> p (nth j headers NaN) = false)
    \/ (exists j,
          j < List.length headers
          /\ f (map_headers idx headers cm) = Some (idx + j)
          /\ p (nth j headers NaN) = true
          /\ forall k, j < k < List.length headers ->
                       p (nth k headers NaN) = false).
Proof.
  intros Hc. induction headers as [|val r IH]; intros idx cm; simpl.
  - left. split; [reflexivity|]. intros j Hj. lia.
  - destruct (IH (S idx) (classify_header idx val cm))
      as [[E N]|(j & Hj & E & Pj & N)].
    + rewrite Hc in E. destruct (p val) eqn:Pv.
      * right. exists 0. rewrite Nat.add_0_r.
        repeat split; [lia|assumption|assumption|].
        intros k Hk. destruct k as [|k]; [lia|]. apply N. lia.
      * left. split; [assumption|].
        intros [|k] Hk; [assumption|]. apply N. lia.
    + right. exists (S j). rewrite Nat.add_succ_r.
      repeat split; [lia|assumption|assumption|].
      intros k Hk. destruct k as [|k]; [lia|]. apply N. lia.
Qed.

Lemma role_column_of (f : ColMap -> option nat) (p : Cell -> bool)
    (headers : list Cell) (dflt : nat) :
  (forall idx val cm,
      f (classify_header idx val cm) = if p val then Some idx else f cm) ->
  f (mkColMap None None None None) = None ->
  exists i,
    or_default (f (map_headers 0 headers (mkColMap None None None None))) dflt
    = Some i
    /\ role_column p headers dflt i.
Proof.
  intros Hc H0.
  destruct (map_headers_last f p Hc headers 0 (mkColMap None None None None))
    as [[E N]|(j & Hj & E & Pj & N)]; rewrite E.
  - rewrite H0. exists dflt. split; [reflexivity|]. right. now split.
  - exists j. split; [reflexivity|]. left. now repeat split.
Qed.

(** X2: each of the four roles (process title, process description, tasks,
    directions) goes to the column of the last header cell that passes its
    test, a cell passing at most one test, the first in that order; a role
    no header cell takes gets its usual column 1, 2, 3 or 4, so every role
    has a column even when the header row is narrower. *)
Theorem col_map_roles (headers : list Cell) :
  (forall val,
      (if is_title_header val then 1 else 0)
      + (if is_desc_header val then 1 else 0)
      + (if is_tasks_header val then 1 else 0)
      + (if is_directions_header val then 1 else 0) <= 1)
  /\ exists a b c d,
       build_col_map headers = mkColMap (Some a) (Some b) (Some c) (Some d)
       /\ role_column is_title_header headers 1 a
       /\ role_column is_desc_header headers 2 b
       /\ role_column is_tasks_header headers 3 c
       /\ role_column is_directions_header headers 4 d.
Proof.
  split.
  - intros val. unfold is_directions_header, is_tasks_header, is_desc_header.
    destruct (is_title_header val), (contains "description" _),
      (contains "process" _), (contains kw_taches _),
      (contains kw_concernees _), (contains "directions" _); simpl; lia.
  - destruct (role_column_of process_title is_title_header headers 1)
      as (a & Ea & Ra); [intros; apply classify_header_roles|reflexivity|].
    destruct (role_column_of process_desc is_desc_header headers 2)
      as (b & Eb & Rb); [intros; apply classify_header_roles|reflexivity|].
    destruct (role_column_of tasks is_tasks_header headers 3)
      as (c & Ec & Rc); [intros; apply classify_header_roles|reflexivity|].
    destruct (role_column_of directions is_directions_header headers 4)
      as (d & Ed & Rd); [intros; apply classify_header_roles|reflexivity|].
    exists a, b, c, d. unfold build_col_map. cbv zeta.
    rewrite Ea, Eb, Ec, Ed. now repeat split.
Qed.

(** ** The header row, when there is one *)

Lemma is_header_row_iff (row : list Cell) :
  is_header_row row = true
  <-> (exists x, In x row /\ contains "process" (lower (str_cell x)) = true)
      /\ (exists y, In y row
                    /\ contains kw_taches (lower (str_cell y)) = true).
Proof.
  unfold is_header_row. cbv zeta.
  rewrite andb_true_iff, !existsb_exists.
  split; intros [(a & Ha & Pa) (b & Hb & Pb)].
  - apply in_map_iff in Ha, Hb.
    destruct Ha as (x & <- & Hx), Hb as (y & <- & Hy).
    split; [now exists x|now exists y].
  - split.
    + exists (lower (str_cell a)). split; [|assumption].
      now apply (in_map (fun x => lower (str_cell x))).
    + exists (lower (str_cell b)). split; [|assumption].
      now apply (in_map (fun x => lower (str_cell x))).
Qed.

(** X3: header detection reads the rows from the top and stops at the
    first one among the first ten in which some cell mentions process and
    some cell, the same or another, mentions the tasks keyword, both without
    regard to case; the rows after it are not read, so a sheet with fewer
    than ten rows is accepted when it has such a row.  With ten rows or
    more and no such row among the first ten the answer is that there is
    none.  The store is not touched in any case. *)
Theorem find_header_row_spec (df : DataFrame) (w : World) :
  match find_header_row df w with
  | Ok (Some h) w' =>
      w' = w /\ h < 10 /\ no_header_in df 0 h
      /\ exists row, nth_error df h = Some row /\ is_header_row row = true
  | Ok None w' => w' = w /\ 10 <= shape0 df /\ no_header_in df 0 10
  | Raised e w' =>
      w' = w /\ e = IndexError /\ shape0 df < 10
      /\ no_header_in df 0 (shape0 df)
  end
  /\ (forall h row,
        h < 10 -> nth_error df h = Some row -> is_header_row row = true ->
        no_header_in df 0 h ->
        find_header_row df w = Ok (Some h) w)
  /\ (forall row,
        is_header_row row = true
        <-> (exists x, In x row
                       /\ contains "process" (lower (str_cell x)) = true)
            /\ (exists y, In y row
                          /\ contains kw_taches (lower (str_cell y)) = true)).
Proof.
  pose proof (header_scan_spec df 10 0 (Nat.le_0_l _)) as S.
  rewrite find_header_row_run. unfold shape0.
  split; [|split; [|apply is_header_row_iff]].
  - destruct (header_scan df 0 10) as [e|[h'|]].
    + destruct S as (-> & L & N). repeat split; auto.
    + destruct S as (L & N & R). repeat split; auto. lia.
    + destruct S as (L & N). repeat split; auto.
  - intros h row Hh Er Hr Nh.
    assert (Hlt : h < List.length df) by (apply nth_error_Some; congruence).
    destruct (header_scan df 0 10) as [e|[h'|]].
    + destruct S as (_ & _ & N). rewrite (N h row) in Hr;
        [discriminate|lia|assumption].
    + destruct S as (L & N & row' & Er' & Hr').
      destruct (Nat.lt_trichotomy h h') as [Lt|[->|Gt]]; [| reflexivity |].
      * rewrite (N h row) in Hr; [discriminate|lia|assumption].
      * rewrite (Nh h' row') in Hr'; [discriminate|lia|assumption].
    + destruct S as (_ & N). rewrite (N h row) in Hr;
        [discriminate|lia|assumption].
Qed.

(** ** Base codes and department codes are never empty *)

Definition ascii_lowercase (c : ascii) : bool := in_range 97 122 c.

Lemma upper_char_shape (c : ascii) :
  1 <= String.length (upper_char c)
  /\ all_chars (non ascii_lowercase) (upper_char c) = true.
Proof.
  destruct c as [[] [] [] [] [] [] [] []]; vm_compute; split;
    try reflexivity; repeat constructor.
Qed.

Lemma upper_shape (s : string) :
  String.length s <= String.length (upper s)
  /\ all_chars (non ascii_lowercase) (upper s) = true.
Proof.
  induction s as [|c r IH]; cbn [upper]; [simpl; split; [lia|reflexivity]|].
  destruct (upper_char_shape c) as [L A].
  rewrite append_length, all_chars_app, A. cbn [String.length andb].
  split; [lia|apply IH].
Qed.

Lemma first_letters_length (ws : list string) :
  Forall (fun w => w <> "") ws ->
  String.length (join (first_letters ws)) = List.length ws.
Proof.
  induction 1 as [|w r Hw _ IH]; [reflexivity|].
  destruct w as [|c w]; [congruence|]. simpl. now rewrite <- IH.
Qed.

Lemma words_nonempty (n : string) : Forall (fun w => w <> "") (words n).
Proof.
  destruct (words_aux_spec "" n eq_refl) as [F _].
  eapply Forall_impl; [|exact F]. simpl. tauto.
Qed.

Lemma base_code_length (n : string) :
  Nat.min 2 (String.length n) <= String.length (base_code_of n).
Proof.
  unfold base_code_of.
  destruct (Nat.ltb_spec 1 (List.length (words n))) as [H|H].
  - destruct (upper_shape (take 4 (join (first_letters (words n)))))
      as [L _].
    rewrite take_length, (first_letters_length _ (words_nonempty n)) in L.
    lia.
  - destruct (upper_shape (take 3 n)) as [L _].
    rewrite take_length in L. lia.
Qed.

(** X4: the base code of a name kept from a directions cell has 2
    characters at least, since upper case never shortens a text, and holds
    no lower-case letter a to z; the code given to its department is that
    base code, alone or followed by a number, so a department code is never
    empty.  No upper bound on the length is stated: a character may give
    several in upper case. *)
Theorem department_code_nonempty (d_content n : string)
    (depts : list Department) :
  In n (candidate_names d_content) ->
  2 <= String.length (base_code_of n)
  /\ all_chars (non ascii_lowercase) (base_code_of n) = true
  /\ (exists k, unique_code depts n = cand (base_code_of n) k)
  /\ 2 <= String.length (unique_code depts n).
Proof.
  intros Hin. rewrite candidate_names_filter in Hin.
  apply filter_In in Hin. destruct Hin as [_ Hlen].
  apply Nat.leb_le in Hlen.
  pose proof (base_code_length n) as L.
  assert (B : 2 <= String.length (base_code_of n)) by lia.
  split; [exact B|]. split.
  - unfold base_code_of.
    destruct (Nat.ltb 1 (List.length (words n))); apply upper_shape.
  - destruct (unique_code_spec depts n) as (k & E & _).
    split; [now exists k|]. rewrite E.
    destruct k; simpl; [lia|]. rewrite append_length. lia.
Qed.

Lemma department_code_nonempty_witness :
  2 <= String.length (base_code_of "IT")
  /\ 2 <= String.length (unique_code one_department "IT").
Proof.
  destruct (department_code_nonempty "Direction Network Engineering, IT"
              "IT" one_department) as (B & _ & _ & U).
  - vm_compute. right. left. reflexivity.
  - split; assumption.
Defined.

(** ** Running the status updater again *)

Definition approve (d : Document) : Document :=
  if is_draft d then doc_with_status "approved" d else d.

Lemma approve_not_draft (d : Document) : is_draft (approve d) = false.
Proof. unfold approve. destruct (is_draft d) eqn:E; [reflexivity|exact E]. Qed.

Lemma no_draft_left (docs : list Document) :
  filter is_draft (map approve docs) = []
  /\ map approve (map approve docs) = map approve docs.
Proof.
  induction docs as [|d r [IH1 IH2]]; [now split|]. simpl.
  rewrite approve_not_draft, IH1, IH2. split; [reflexivity|].
  f_equal. unfold approve at 1. now rewrite approve_not_draft.
Qed.

(** X5: after the status updater no document is a draft, whatever the
    statuses were, and a second run changes no document and reports that it
    updated 0 documents. *)
Theorem update_status_idempotent (w : World) :
  exists w1 w2,
    update_status w = Ok tt w1
    /\ update_status w1 = Ok tt w2
    /\ Forall (fun d => doc_status d <> "draft") (documents w1)
    /\ documents w2 = documents w1
    /\ console w2
       = (console w1 ++ ["Updated 0 documents from Draft to Approved"])%list.
Proof.
  destruct (no_draft_left (documents w)) as [F E].
  set (line := "Updated "
               ++ str_nat (List.length (filter is_draft (documents w)))
               ++ " documents from Draft to Approved").
  exists (set_console (console w ++ [line])%list
            (set_documents (map approve (documents w)) w)).
  eexists. split; [reflexivity|].
  unfold update_status, update_many_status, print, modify.
  cbn [documents set_documents set_console console].
  fold approve. rewrite F, E. split; [reflexivity|]. split; [|now split].
  apply Forall_forall. intros d Hin. apply in_map_iff in Hin.
  destruct Hin as (d0 & <- & _). pose proof (approve_not_draft d0) as H.
  unfold is_draft in H. now apply String.eqb_neq.
Qed.

(** ** An import only adds *)

(** Departments and job positions are the lists they were, with records
    added at the end; macros and documents are the records they were, in
    place and under the same id and key, with records added at the end. *)
Definition appended (w w' : World) : Prop :=
  (exists l, departments w' = (departments w ++ l)%list)
  /\ (exists l, job_positions w' = (job_positions w ++ l)%list)
  /\ (exists l, map macro_sig (macros w')
                = (map macro_sig (macros w) ++ l)%list)
  /\ (exists l, map doc_sig (documents w')
                = (map doc_sig (documents w) ++ l)%list).

#[export] Instance appended_preorder : PreOrder appended.
Proof.
  split.
  - intros w. repeat split; exists []; now rewrite app_nil_r.
  - intros a b c ([l1 A1] & [l2 A2] & [l3 A3] & [l4 A4])
                 ([k1 B1] & [k2 B2] & [k3 B3] & [k4 B4]).
    repeat split; eexists.
    + rewrite B1, A1, <- app_assoc. reflexivity.
    + rewrite B2, A2, <- app_assoc. reflexivity.
    + rewrite B3, A3, <- app_assoc. reflexivity.
    + rewrite B4, A4, <- app_assoc. reflexivity.
Qed.

Lemma appended_same (w w' : World) :
  macros w' = macros w -> departments w' = departments w ->
  job_positions w' = job_positions w -> documents w' = documents w ->
  appended w w'.
Proof.
  intros H1 H2 H3 H4. unfold appended. rewrite H1, H2, H3, H4.
  repeat split; exists []; now rewrite app_nil_r.
Qed.

Lemma upsert_appends {A B} (sig : A -> B) (p : A -> bool) (f : A -> A)
    (g : ObjectId -> A) (l : list A) (nid : ObjectId) :
  (forall x, p x = true -> sig (f x) = sig x) ->
  exists l', map sig (fst (upsert p f g l nid)) = (map sig l ++ l')%list.
Proof.
  intros H. unfold upsert. destruct (existsb p l); cbn [fst].
  - exists []. rewrite app_nil_r. now apply update_first_map_matched.
  - exists [sig (g nid)]. now rewrite map_app.
Qed.

Lemma upsert_keep_appends {A} (p : A -> bool) (g : ObjectId -> A)
    (l : list A) (nid : ObjectId) :
  exists l', fst (upsert p (fun old => old) g l nid) = (l ++ l')%list.
Proof.
  unfold upsert. destruct (existsb p l); cbn [fst].
  - exists []. now rewrite app_nil_r, update_first_id.
  - now exists [g nid].
Qed.

Lemma appended_now : steps appended now.
Proof. intros w. now apply appended_same. Qed.

Lemma appended_print (s : string) : steps appended (print s).
Proof. intros w. now apply appended_same. Qed.

Lemma appended_upsert_macro (md : Macro) : steps appended (upsert_macro md).
Proof.
  intros w. unfold upsert_macro, modify.
  pose proof (upsert_appends macro_sig (macro_has_code (m_code md))
                (fun old => macro_with_id (m_id old) md)
                (fun i => macro_with_id i md) (macros w) (next_id w)) as U.
  destruct (upsert _ _ _ (macros w) (next_id w)) as [l n].
  repeat split; try (exists []; now rewrite app_nil_r).
  apply U. intros x Hx. unfold macro_sig, macro_has_code in *. simpl.
  apply String.eqb_eq in Hx. now rewrite Hx.
Qed.

Lemma appended_insert_department n c t1 t2 :
  steps appended (insert_department_if_absent n c t1 t2).
Proof.
  intros w. unfold insert_department_if_absent, modify.
  pose proof (upsert_keep_appends (dept_has_name n)
                (fun i => mkDepartment i n c true t1 t2)
                (departments w) (next_id w)) as U.
  destruct (upsert _ _ _ (departments w) (next_id w)) as [l k].
  repeat split; try (exists []; now rewrite app_nil_r). exact U.
Qed.

Lemma appended_insert_job_position n dep c t1 t2 :
  steps appended (insert_job_position_if_absent n dep c t1 t2).
Proof.
  intros w. unfold insert_job_position_if_absent, modify.
  pose proof (upsert_keep_appends (jp_has_key n dep)
                (fun i => mkJobPosition i n dep c true t1 t2)
                (job_positions w) (next_id w)) as U.
  destruct (upsert _ _ _ (job_positions w) (next_id w)) as [l k].
  repeat split; try (exists []; now rewrite app_nil_r). exact U.
Qed.

Lemma appended_upsert_document (dd : Document) :
  steps appended (upsert_document dd).
Proof.
  intros w. unfold upsert_document, modify.
  pose proof (upsert_appends doc_sig
                (doc_has_key (doc_title dd) (doc_macro_id dd))
                (fun old => doc_with_id (doc_id old) dd)
                (fun i => doc_with_id i dd) (documents w) (next_id w)) as U.
  destruct (upsert _ _ _ (documents w) (next_id w)) as [l k].
  repeat split; try (exists []; now rewrite app_nil_r).
  apply U. intros x Hx. apply doc_has_key_iff in Hx. destruct Hx as [H1 H2].
  unfold doc_sig. simpl. now rewrite H1, H2.
Qed.

Lemma appended_set_document_tasks i ts :
  steps appended (set_document_tasks i ts).
Proof.
  intros w. unfold set_document_tasks, modify.
  repeat split; try (exists []; now rewrite app_nil_r).
  exists []. rewrite app_nil_r. cbn [documents set_documents].
  now apply update_first_map.
Qed.

#[export] Hint Resolve appended_now appended_print appended_upsert_macro
  appended_insert_department appended_insert_job_position
  appended_upsert_document appended_set_document_tasks : steps_db.

Lemma appended_import_data CREATED_BY_ID xl :
  steps appended (import_data CREATED_BY_ID xl).
Proof. unfold_run. below_rules. Qed.

(** X6: an import, whether it completes or stops on an exception, only
    adds to the store.  The departments and the job positions it found are
    left exactly as they were and where they were, the new ones coming
    after them; every macro and every document it found is still at its
    place under the same id and the same key (the code; the title and the
    macro), whatever was written into its other fields, the new ones coming
    after them. *)
Theorem import_only_adds (CREATED_BY_ID : ObjectId) (xl : option Workbook)
    (w : World) :
  let w' := world_of (import_data CREATED_BY_ID xl w) in
  (exists l, departments w' = (departments w ++ l)%list)
  /\ (exists l, job_positions w' = (job_positions w ++ l)%list)
  /\ (exists l, map macro_sig (macros w')
                = (map macro_sig (macros w) ++ l)%list)
  /\ (exists l, map doc_sig (documents w')
                = (map doc_sig (documents w) ++ l)%list).
Proof.
  exact (steps_world_of appended _ w (appended_import_data CREATED_BY_ID xl)).
Qed.

(** ** Departments and job positions stay consistent *)

Definition jp_key (j : JobPosition) : string * ObjectId :=
  (j_title j, j_department_id j).

(** The reference data is consistent: names and codes of departments are
    pairwise distinct, probing the codes for the name of a department gives
    the code it has, no two job positions share title and department, and
    each job position belongs to a department of the collection, named as
    the position is titled, whose code followed by -H is the code of the
    position. *)
Definition org_ok (w : World) : Prop :=
  NoDup (map d_name (departments w))
  /\ NoDup (map d_code (departments w))
  /\ (forall d, In d (departments w) ->
        unique_code (departments w) (d_name d) = d_code d)
  /\ NoDup (map jp_key (job_positions w))
  /\ (forall j, In j (job_positions w) ->
        exists d, In d (departments w)
                  /\ d_id d = j_department_id j
                  /\ d_name d = j_title j
                  /\ j_code j = d_code d ++ "-H").

Lemma org_ok_empty (n c : nat) (l : list string) (ms : list Macro)
    (ds : list Document) :
  org_ok (mkWorld ms [] [] ds n c l).
Proof.
  repeat split; simpl; try constructor; intros; contradiction.
Qed.

Lemma rejected_app depts D m c :
  rejected depts m c -> rejected (depts ++ [D])%list m c.
Proof.
  intros (e & F & N). exists e. split; [|exact N]. now rewrite find_app, F.
Qed.

Lemma unique_code_kept depts D m e :
  find (dept_has_code (unique_code depts m)) depts = Some e ->
  unique_code (depts ++ [D])%list m = unique_code depts m.
Proof.
  intros F. destruct (unique_code_spec depts m) as (j & E & A & R & _).
  rewrite E in *. apply unique_code_least.
  - unfold accepted in *. rewrite find_app, F. now rewrite F in A.
  - intros i Hi. now apply rejected_app, R.
Qed.

Lemma unique_code_new depts n D :
  find (dept_has_name n) depts = None ->
  d_name D = n -> d_code D = unique_code depts n ->
  unique_code (depts ++ [D])%list n = unique_code depts n.
Proof.
  intros F Hn Hc. destruct (unique_code_spec depts n) as (j & E & A & R & _).
  rewrite E in *. apply unique_code_least.
  - apply (accepted_new_name_free _ _ _ F) in A.
    unfold accepted. rewrite (find_last _ _ D A); [exact Hn|].
    unfold dept_has_code. rewrite Hc. apply String.eqb_refl.
  - intros i Hi. now apply rejected_app, R.
Qed.

Lemma find_none_not_in {A K} (key : A -> K) (p : A -> bool) (k : K)
    (l : list A) :
  (forall x, key x = k -> p x = true) ->
  find p l = None -> ~ In k (map key l).
Proof.
  intros Hp F Hin. apply in_map_iff in Hin. destruct Hin as (x & E & Hx).
  eapply find_none in F; [|exact Hx]. rewrite (Hp x E) in F. discriminate.
Qed.

Lemma NoDup_snoc {A} (l : list A) (x : A) :
  NoDup l -> ~ In x l -> NoDup (l ++ [x])%list.
Proof.
  intros ND Hn. apply NoDup_app; [assumption|repeat constructor; auto|].
  intros y Hy [<-|[]]. contradiction.
Qed.

Lemma job_positions_resolved (n : string) (w : World) :
  let dep := match find (dept_has_name n) (departments w) with
             | Some d => d_id d
             | None => next_id w
             end in
  match find (jp_has_key n dep) (job_positions w) with
  | Some _ => job_positions (resolved_world n w) = job_positions w
  | None =>
      exists i t1 t2,
        job_positions (resolved_world n w)
        = (job_positions w
           ++ [mkJobPosition i n dep (unique_code (departments w) n ++ "-H")
                             true t1 t2])%list
  end.
Proof.
  cbv zeta. unfold resolved_world.
  destruct (find (dept_has_name n) (departments w)) as [d|];
    cbn [job_positions set_clock set_next_id set_departments];
    match goal with
    | |- context [find ?p ?l] => destruct (find p l)
    end; cbn [job_positions set_clock set_next_id set_job_positions];
    try reflexivity; now eexists; eexists; eexists.
Qed.

Lemma jp_key_has (t : string) (i : ObjectId) (x : JobPosition) :
  jp_key x = (t, i) -> jp_has_key t i x = true.
Proof.
  unfold jp_key, jp_has_key. intros E. inversion E.
  now rewrite String.eqb_refl, Nat.eqb_refl.
Qed.

Lemma dept_name_has (n : string) (x : Department) :
  d_name x = n -> dept_has_name n x = true.
Proof. unfold dept_has_name. intros ->. apply String.eqb_refl. Qed.

Lemma org_ok_resolved (n : string) (w : World) :
  org_ok w -> org_ok (resolved_world n w).
Proof.
  intros (Nn & Nc & St & Nj & Rj).
  pose proof (departments_resolved n w) as Ed.
  pose proof (job_positions_resolved n w) as Ej. cbv zeta in Ej.
  pose proof (resolve_keeps_codes_distinct n w Nc) as Nc'.
  destruct (find (dept_has_name n) (departments w)) as [d0|] eqn:F.
  - (* the department is there *)
    apply find_some in F. destruct F as [Hin0 Hn0].
    apply String.eqb_eq in Hn0.
    unfold org_ok. rewrite Ed.
    destruct (find (jp_has_key n (d_id d0)) (job_positions w)) eqn:J.
    + rewrite Ej. repeat split; assumption.
    + destruct Ej as (i & t1 & t2 & ->).
      repeat split; try assumption.
      * rewrite map_app. apply NoDup_snoc; [assumption|].
        apply (find_none_not_in jp_key _ _ _ (jp_key_has _ _) J).
      * intros j Hj. apply in_app_or in Hj. destruct Hj as [Hj|[<-|[]]].
        -- now apply Rj.
        -- exists d0. cbn. repeat split; auto.
           rewrite <- (St d0 Hin0), Hn0. reflexivity.
  - (* the department is new *)
    set (D := mkDepartment (next_id w) n (unique_code (departments w) n) true
                           (clock w) (S (clock w))) in *.
    assert (Sn : forall d, In d (departments w ++ [D])%list ->
                   unique_code (departments w ++ [D])%list (d_name d)
                   = d_code d).
    { intros d Hd. apply in_app_or in Hd. destruct Hd as [Hd|[<-|[]]].
      - rewrite <- (St d Hd).
        destruct (find (dept_has_code (unique_code (departments w) (d_name d)))
                       (departments w)) as [e|] eqn:Fe.
        + apply (unique_code_kept _ _ _ e Fe).
        + exfalso. eapply find_none in Fe; [|exact Hd].
          unfold dept_has_code in Fe.
          rewrite (St d Hd), String.eqb_refl in Fe. discriminate.
      - now apply unique_code_new. }
    assert (Nn' : NoDup (map d_name (departments w ++ [D])%list)).
    { rewrite map_app. apply NoDup_snoc; [assumption|].
      apply (find_none_not_in d_name _ _ _ (dept_name_has _) F). }
    assert (Rj' : forall j, In j (job_positions w) ->
                    exists d, In d (departments w ++ [D])%list
                              /\ d_id d = j_department_id j
                              /\ d_name d = j_title j
                              /\ j_code j = d_code d ++ "-H").
    { intros j Hj. destruct (Rj j Hj) as (d & Hd & H).
      exists d. split; [apply in_or_app; now left|exact H]. }
    unfold org_ok. rewrite Ed in *.
    destruct (find (jp_has_key n (next_id w)) (job_positions w)) eqn:J.
    + rewrite Ej. repeat split; assumption.
    + destruct Ej as (i & t1 & t2 & ->).
      repeat split; try assumption.
      * rewrite map_app. apply NoDup_snoc; [assumption|].
        apply (find_none_not_in jp_key _ _ _ (jp_key_has _ _) J).
      * intros j Hj. apply in_app_or in Hj. destruct Hj as [Hj|[<-|[]]].
        -- now apply Rj'.
        -- exists D. split; [apply in_or_app; right; now left|].
           now repeat split.
Qed.

Lemma org_ok_same (w w' : World) :
  departments w' = departments w -> job_positions w' = job_positions w ->
  org_ok w -> org_ok w'.
Proof. unfold org_ok. now intros -> ->. Qed.

Lemma org_ok_now : steps (maintains org_ok) now.
Proof. prim_step. unfold maintains. now apply org_ok_same. Qed.

Lemma org_ok_print (s : string) : steps (maintains org_ok) (print s).
Proof. prim_step. unfold maintains. now apply org_ok_same. Qed.

Lemma org_ok_upsert_macro md : steps (maintains org_ok) (upsert_macro md).
Proof. prim_step; unfold maintains; now apply org_ok_same. Qed.

Lemma org_ok_upsert_document dd :
  steps (maintains org_ok) (upsert_document dd).
Proof. prim_step; unfold maintains; now apply org_ok_same. Qed.

Lemma org_ok_set_document_tasks i ts :
  steps (maintains org_ok) (set_document_tasks i ts).
Proof. prim_step; unfold maintains; now apply org_ok_same. Qed.

Lemma org_ok_resolve_department (n : string) :
  steps (maintains org_ok) (resolve_department n).
Proof.
  intros w. rewrite resolve_department_run. unfold maintains.
  apply org_ok_resolved.
Qed.

#[export] Hint Resolve org_ok_now org_ok_print org_ok_upsert_macro
  org_ok_upsert_document org_ok_set_document_tasks
  org_ok_resolve_department : steps_db.

(** The importer down to the resolution of one name, which is kept
    whole. *)
Ltac unfold_to_names :=
  unfold import_data, import_sheet, iloc, import_details, import_rows,
    process_row, start_process, append_task, flush_tasks,
    resolve_stakeholders, find_header_row.

Lemma org_ok_import_data CREATED_BY_ID xl :
  steps (maintains org_ok) (import_data CREATED_BY_ID xl).
Proof. unfold_to_names. below_rules. Qed.

(** X7: an import keeps the reference data consistent, whether it
    completes or stops on an exception: when, before it, the names and the
    codes of the departments are pairwise distinct, each department has the
    code that probing gives for its name, and each job position belongs to
    a department named as the position is titled and carries that
    department's code followed by -H, one position at most per title and
    department, then all of this holds after it.  An empty store is
    consistent. *)
Theorem import_keeps_reference_data_consistent (CREATED_BY_ID : ObjectId)
    (xl : option Workbook) (w : World) :
  org_ok w -> org_ok (world_of (import_data CREATED_BY_ID xl w)).
Proof.
  exact (steps_world_of (maintains org_ok) _ w
           (org_ok_import_data CREATED_BY_ID xl)).
Qed.

Lemma import_keeps_reference_data_consistent_witness :
  org_ok (world_of (import_data 0 one_sheet_workbook empty_world)).
Proof.
  apply (import_keeps_reference_data_consistent 0 one_sheet_workbook
           empty_world).
  apply org_ok_empty.
Defined.

(** ** Every process belongs to a macro of the store *)

Definition macro_known (mid : ObjectId) (w : World) : Prop :=
  exists m, In m (macros w) /\ m_id m = mid.

(** Every document names a macro that is in the store. *)
Definition refs_ok (w : World) : Prop :=
  forall d, In d (documents w) -> macro_known (doc_macro_id d) w.

Definition refs_with (mid : ObjectId) (w : World) : Prop :=
  refs_ok w /\ macro_known mid w.

Lemma macro_known_sig (mid : ObjectId) (w w' : World) :
  (exists l, map macro_sig (macros w')
             = (map macro_sig (macros w) ++ l)%list) ->
  macro_known mid w -> macro_known mid w'.
Proof.
  intros [l E] (m & Hin & Hid).
  assert (H : In (macro_sig m) (map macro_sig (macros w'))).
  { rewrite E. apply in_or_app. left. now apply in_map. }
  apply in_map_iff in H. destruct H as (m' & Es & Hin').
  exists m'. split; [assumption|]. inversion Es. congruence.
Qed.

Lemma refs_with_same (mid : ObjectId) (w w' : World) :
  macros w' = macros w -> documents w' = documents w ->
  refs_with mid w -> refs_with mid w'.
Proof. unfold refs_with, refs_ok, macro_known. now intros -> ->. Qed.

Lemma in_update_first {A} (p : A -> bool) (f : A -> A) (l : list A) (y : A) :
  In y (update_first p f l) -> In y l \/ exists x, In x l /\ y = f x.
Proof.
  induction l as [|a r IH]; simpl; [tauto|].
  destruct (p a); simpl.
  - intros [<-|H]; [right; exists a; auto|left; auto].
  - intros [<-|H]; [left; auto|].
    destruct (IH H) as [H'|(x & Hx & E)]; [left; auto|right; exists x; auto].
Qed.

Lemma refs_with_now mid : steps (maintains (refs_with mid)) now.
Proof. prim_step. unfold maintains. now apply refs_with_same. Qed.

Lemma refs_with_print mid s : steps (maintains (refs_with mid)) (print s).
Proof. prim_step. unfold maintains. now apply refs_with_same. Qed.

Lemma refs_with_insert_department mid n c t1 t2 :
  steps (maintains (refs_with mid)) (insert_department_if_absent n c t1 t2).
Proof. prim_step; unfold maintains; now apply refs_with_same. Qed.

Lemma refs_with_insert_job_position mid n d c t1 t2 :
  steps (maintains (refs_with mid))
        (insert_job_position_if_absent n d c t1 t2).
Proof. prim_step; unfold maintains; now apply refs_with_same. Qed.

Lemma refs_with_set_document_tasks mid i ts :
  steps (maintains (refs_with mid)) (set_document_tasks i ts).
Proof.
  intros w. unfold set_document_tasks, modify, maintains.
  intros [R K]. split; [|exact K].
  intros d Hd. cbn [documents set_documents] in Hd.
  apply in_update_first in Hd. destruct Hd as [Hd|(x & Hx & ->)].
  - exact (R d Hd).
  - exact (R x Hx).
Qed.

Lemma refs_with_upsert_document CREATED_BY_ID mid ref t desc stk t1 t2 :
  steps (maintains (refs_with mid))
        (upsert_document
           (make_doc_data CREATED_BY_ID mid ref t desc stk t1 t2)).
Proof.
  intros w. unfold upsert_document, modify, maintains, upsert.
  intros [R K]. destruct (existsb _ (documents w)); (split; [|exact K]);
    intros d Hd; cbn [documents set_documents set_next_id] in Hd.
  - apply in_update_first in Hd. destruct Hd as [Hd|(x & Hx & ->)].
    + exact (R d Hd).
    + exact K.
  - apply in_app_or in Hd. destruct Hd as [Hd|[<-|[]]].
    + exact (R d Hd).
    + exact K.
Qed.

#[export] Hint Resolve refs_with_now refs_with_print
  refs_with_insert_department refs_with_insert_job_position
  refs_with_set_document_tasks refs_with_upsert_document : steps_db.

Lemma refs_with_import_details CREATED_BY_ID sh mid code totals :
  steps (maintains (refs_with mid))
        (import_details CREATED_BY_ID sh mid code totals).
Proof.
  unfold import_details, import_rows, process_row, start_process,
    append_task, flush_tasks, resolve_stakeholders, resolve_department,
    find_header_row.
  below_rules.
Qed.

Lemma refs_ok_macro_upserted CREATED_BY_ID sh code name desc (w : World) :
  refs_ok w ->
  refs_with (macro_id_for code w)
            (macro_upserted CREATED_BY_ID sh code name desc w).
Proof.
  intros R.
  pose proof (macros_macro_upserted CREATED_BY_ID sh code name desc w) as Em.
  pose proof (find_macros_upserted CREATED_BY_ID code name desc w) as F.
  assert (Ed : documents (macro_upserted CREATED_BY_ID sh code name desc w)
               = documents w).
  { unfold macro_upserted. now destruct (macros_upserted _ _ _ _ w). }
  split.
  - intros d Hd. rewrite Ed in Hd.
    apply (macro_known_sig _ w); [|exact (R d Hd)].
    rewrite Em. unfold macros_upserted. apply upsert_appends.
    intros x Hx. unfold macro_sig, macro_has_code in *. simpl.
    apply String.eqb_eq in Hx. now rewrite Hx.
  - rewrite <- Em in F. apply find_some in F. destruct F as [Hin _].
    eexists. split; [exact Hin|reflexivity].
Qed.

Lemma refs_ok_import_sheet CREATED_BY_ID sh totals :
  steps (maintains refs_ok) (import_sheet CREATED_BY_ID sh totals).
Proof.
  intros w. destruct (macro_info sh) as [[[code name] desc]|] eqn:Hi.
  - rewrite (import_sheet_run _ _ _ _ _ _ _ Hi).
    pose proof (refs_with_import_details CREATED_BY_ID sh
                  (macro_id_for code w) code totals
                  (macro_upserted CREATED_BY_ID sh code name desc w)) as H.
    pose proof (refs_ok_macro_upserted CREATED_BY_ID sh code name desc w)
      as U.
    destruct (import_details _ _ _ _ _ _); unfold maintains in *;
      intros R; now apply H, U.
  - rewrite (import_sheet_unreadable _ _ _ _ Hi). unfold maintains.
    intros R. exact R.
Qed.

#[export] Hint Resolve refs_ok_import_sheet : steps_db.

Lemma refs_ok_print s : steps (maintains refs_ok) (print s).
Proof. prim_step. unfold maintains. intros R. exact R. Qed.

#[export] Hint Resolve refs_ok_print : steps_db.

Lemma refs_ok_import_data CREATED_BY_ID xl :
  steps (maintains refs_ok) (import_data CREATED_BY_ID xl).
Proof. unfold import_data. below_rules. Qed.

(** X8: an import keeps the references of the processes sound, whether it
    completes or stops on an exception: when every document of the store
    names, as its macro, the id of a macro that is in the store, this is so
    after the import as well, for the documents it found and for those it
    wrote. *)
Theorem import_keeps_macro_references (CREATED_BY_ID : ObjectId)
    (xl : option Workbook) (w : World) :
  (forall d, In d (documents w) ->
     exists m, In m (macros w) /\ m_id m = doc_macro_id d) ->
  forall d, In d (documents (world_of (import_data CREATED_BY_ID xl w))) ->
    exists m, In m (macros (world_of (import_data CREATED_BY_ID xl w)))
              /\ m_id m = doc_macro_id d.
Proof.
  exact (steps_world_of (maintains refs_ok) _ w
           (refs_ok_import_data CREATED_BY_ID xl)).
Qed.

Lemma import_keeps_macro_references_witness :
  Forall (fun d =>
            exists m,
              In m (macros (world_of (import_data 0 one_sheet_workbook
                                                  empty_world)))
              /\ m_id m = doc_macro_id d)
         (documents (world_of (import_data 0 one_sheet_workbook
                                           empty_world))).
Proof.
  apply Forall_forall.
  apply (import_keeps_macro_references 0 one_sheet_workbook empty_world).
  simpl. intros d [].
Defined.

(** ** What a completed run prints *)

(** The number of tasks of a list of groups. *)
Definition tasks_in (gs : list Group) : nat :=
  list_sum (map (fun g => List.length (g_tasks g)) gs).

(** The counters of the walk agree with the groups gathered so far: the
    open group is the head of the list and its tasks are those being
    gathered, and the tasks counted are those of the groups closed. *)
Definition counted (n0 : nat) (gs : list Group) (st : Walk) : Prop :=
  process_count st = List.length gs
  /\ total_processes st = n0 + List.length gs
  /\ current_process_title st = head_title gs
  /\ match gs with
     | [] => current_process_doc st = None /\ task_count st = 0
     | g :: r =>
         current_process_doc st <> None
         /\ List.length (current_tasks st) = List.length (g_tasks g)
         /\ task_count st = tasks_in r
     end.

Lemma counted_flushed (n0 : nat) (gs : list Group) (st : Walk) :
  counted n0 gs st -> flushed_count st = tasks_in gs.
Proof.
  intros (_ & _ & _ & H). unfold flushed_count.
  destruct gs as [|g r].
  - destruct H as [-> ->]. reflexivity.
  - destruct H as (Hd & Hl & Ht).
    destruct (current_process_doc st); [|congruence].
    unfold tasks_in in *. simpl. lia.
Qed.

Section Counting.

Variable CREATED_BY_ID : ObjectId.
Variable df : DataFrame.
Variable col_map : ColMap.
Variable macro_id : ObjectId.
Variable macro_code : string.

Lemma counted_task (n0 : nat) (gs : list Group) (st : Walk) (t : string)
    (d : Document) :
  counted n0 gs st -> current_process_doc st = Some d ->
  counted n0 (add_task t gs) (with_task t d st).
Proof.
  intros (Hp & Ht & Hc & H) Hd. destruct gs as [|g r].
  - destruct H as [H _]. congruence.
  - destruct H as (_ & Hl & Hk). unfold counted, with_task. simpl.
    rewrite length_app, length_app. simpl.
    repeat split; auto; try congruence; lia.
Qed.

Lemma counted_step (n0 : nat) (gs : list Group) (st st' : Walk)
    (row : list Cell) (w w' : World) :
  counted n0 gs st ->
  process_row CREATED_BY_ID df col_map macro_id macro_code row st w
  = Ok st' w' ->
  counted n0 (add_row df col_map gs row) st'.
Proof.
  intros C. rewrite process_row_run. cbv zeta. unfold add_row, opens.
  assert (CT : current_process_title st = head_title gs) by apply C.
  rewrite CT.
  destruct (negb (is_empty (row_title df col_map row))
            && title_differs (row_title df col_map row) (head_title gs))%bool.
  - set (g := mkGroup (row_title df col_map row) (row_desc df col_map row)
                      (row_directions df col_map row) []).
    assert (C1 : counted n0 (g :: gs)
                   (started_walk CREATED_BY_ID macro_id macro_code
                      (row_title df col_map row) (row_desc df col_map row)
                      (row_directions df col_map row) st w)).
    { pose proof (counted_flushed n0 gs st C) as F.
      destruct C as (Hp & Ht & _ & _).
      unfold counted, started_walk. simpl.
      repeat split; auto; try lia. discriminate. }
    destruct (is_empty (row_tasks df col_map row)).
    + intros E. inversion E; subst. exact C1.
    + cbn [started_walk current_process_doc]. intros E.
      inversion E; subst. now apply counted_task.
  - destruct (is_empty (row_tasks df col_map row)).
    + intros E. inversion E; subst. exact C.
    + destruct (current_process_doc st) as [d|] eqn:Hd; [|discriminate].
      intros E. inversion E; subst. now apply counted_task.
Qed.

Lemma counted_walk (n0 : nat) (rows : list (list Cell)) :
  forall gs st w st' w',
    counted n0 gs st ->
    for_each (process_row CREATED_BY_ID df col_map macro_id macro_code)
             rows st w = Ok st' w' ->
    counted n0 (fold_left (add_row df col_map) rows gs) st'.
Proof.
  induction rows as [|row r IH]; intros gs st w st' w' C E.
  - inversion E; subst. exact C.
  - apply for_each_cons in E. destruct E as (s1 & w1 & E1 & E2).
    cbn [fold_left]. eapply IH; [|exact E2].
    eapply counted_step; eassumption.
Qed.

Lemma keeps_console_process_row (row : list Cell) (st : Walk) :
  steps (keeps console)
        (process_row CREATED_BY_ID df col_map macro_id macro_code row st).
Proof.
  unfold process_row, start_process, append_task, flush_tasks,
    resolve_stakeholders, resolve_department, upsert_document,
    set_document_tasks, insert_department_if_absent,
    insert_job_position_if_absent.
  step_rules.
Qed.

End Counting.

Definition created_line (p t : nat) : string :=
  "  -> Created/Updated " ++ str_nat p ++ " processes with " ++ str_nat t
  ++ " tasks.".

(** The groups of a sheet whose header row is row [h], most recent first. *)
Definition sheet_groups (sh : Sheet) (h : nat) : list Group :=
  groups_rev (sheet_frame sh)
             (build_col_map (nth h (sheet_frame sh) []))
             (skipn (S h) (sheet_frame sh)).

(** Processes and tasks of a sheet, none for a sheet without header row. *)
Definition sheet_counts (sh : Sheet) : nat * nat :=
  match header_scan (sheet_frame sh) 0 10 with
  | inr (Some h) =>
      (List.length (sheet_groups sh h), tasks_in (sheet_groups sh h))
  | _ => (0, 0)
  end.

Definition sheet_lines (sh : Sheet) : list string :=
  [processing_line sh;
   match header_scan (sheet_frame sh) 0 10 with
   | inr (Some h) =>
       created_line (List.length (sheet_groups sh h))
                    (tasks_in (sheet_groups sh h))
   | _ => warning_line sh
   end].

Definition summary_lines (sheets : list Sheet) : list string :=
  [String nl "--- Import Summary ---";
   "Total Macros: " ++ str_nat (List.length sheets);
   "Total Processes: " ++ str_nat (list_sum (map fst (map sheet_counts sheets)));
   "Total Tasks: " ++ str_nat (list_sum (map snd (map sheet_counts sheets)));
   "----------------------"].

Lemma console_flushed (st : Walk) (w : World) :
  console (flushed st w) = console w.
Proof. unfold flushed. now destruct (current_process_doc st). Qed.

Section Printed.

Variable CREATED_BY_ID : ObjectId.

Lemma import_rows_counts (df : DataFrame) (h : nat) (macro_id : ObjectId)
    (macro_code : string) (totals res : nat * nat) (w w' : World) :
  import_rows CREATED_BY_ID df h macro_id macro_code totals w = Ok res w' ->
  let gs := groups_rev df (build_col_map (nth h df [])) (skipn (S h) df) in
  res = (fst totals + List.length gs, snd totals + tasks_in gs)
  /\ console w'
     = (console w ++ [created_line (List.length gs) (tasks_in gs)])%list.
Proof.
  unfold import_rows. cbv zeta. unfold bind at 1.
  set (cm := build_col_map (nth h df [])).
  pose proof (steps_for_each (keeps console)
                (process_row CREATED_BY_ID df cm macro_id macro_code)
                (skipn (S h) df) (mkWalk None None [] 0 0 (fst totals))
                (fun x s _ => keeps_console_process_row CREATED_BY_ID df cm
                                macro_id macro_code x s) w) as Hc.
  destruct (for_each _ (skipn (S h) df) _ w) as [st1 w1|] eqn:Ew;
    [|discriminate].
  unfold keeps in Hc.
  assert (C0 : counted (fst totals) [] (mkWalk None None [] 0 0 (fst totals))).
  { unfold counted. simpl. repeat split. lia. }
  pose proof (counted_walk CREATED_BY_ID df cm macro_id macro_code
                (fst totals) _ _ _ _ _ _ C0 Ew) as C.
  fold (groups_rev df cm (skipn (S h) df)) in C.
  pose proof (counted_flushed _ _ _ C) as F.
  destruct C as (Hp & Ht & _ & H).
  destruct (current_process_doc st1) as [d|] eqn:Hd.
  - rewrite (bind_ok _ _ w1 (flushed_count st1, snd totals + flushed_count st1)
                     (flushed st1 w1))
      by now rewrite (bind_ok _ _ _ _ _ (flush_tasks_run st1 w1)).
    intros E. inversion E; subst. cbn [fst snd console set_console].
    rewrite console_flushed, Hc, Hp, Ht, F. now split.
  - destruct (groups_rev df cm (skipn (S h) df)) as [|g r];
      [|destruct H as [H _]; congruence].
    destruct H as [_ Hk].
    intros E. inversion E; subst. cbn [fst snd console set_console].
    rewrite Hc, Hp, Ht, Hk. simpl. rewrite !Nat.add_0_r.
    split; [now destruct totals|reflexivity].
Qed.

Lemma console_macro_upserted (sh : Sheet) (code name desc : string)
    (w : World) :
  console (macro_upserted CREATED_BY_ID sh code name desc w)
  = (console w ++ [processing_line sh])%list.
Proof. unfold macro_upserted. now destruct (macros_upserted _ _ _ _ w). Qed.

Lemma import_sheet_counts (sh : Sheet) (totals res : nat * nat)
    (w w' : World) :
  import_sheet CREATED_BY_ID sh totals w = Ok res w' ->
  res = (fst totals + fst (sheet_counts sh),
         snd totals + snd (sheet_counts sh))
  /\ console w' = (console w ++ sheet_lines sh)%list.
Proof.
  destruct (macro_info sh) as [[[code name] desc]|] eqn:Hi;
    [|now rewrite (import_sheet_unreadable _ _ _ _ Hi)].
  rewrite (import_sheet_run _ _ _ _ _ _ _ Hi).
  unfold sheet_counts, sheet_lines, import_details.
  set (u := macro_upserted CREATED_BY_ID sh code name desc w).
  pose proof (find_header_row_run (sheet_frame sh) u) as Hf.
  destruct (header_scan (sheet_frame sh) 0 10) as [e|[h|]].
  - intros E. now rewrite (bind_raised _ _ _ _ _ Hf) in E.
  - rewrite (bind_ok _ _ _ _ _ Hf). intros E.
    apply import_rows_counts in E. cbv zeta in E. destruct E as [-> ->].
    unfold sheet_groups. cbn [fst snd]. split; [reflexivity|].
    unfold u. now rewrite console_macro_upserted, <- app_assoc.
  - rewrite (bind_ok _ _ _ _ _ Hf). intros E. inversion E; subst.
    cbn [fst snd console set_console]. rewrite !Nat.add_0_r.
    split; [now destruct res|].
    unfold u. now rewrite console_macro_upserted, <- app_assoc.
Qed.

Lemma import_sheets_counts (sheets : list Sheet) :
  forall totals res w w',
    for_each (import_sheet CREATED_BY_ID) sheets totals w = Ok res w' ->
    res = (fst totals + list_sum (map fst (map sheet_counts sheets)),
           snd totals + list_sum (map snd (map sheet_counts sheets)))
    /\ console w' = (console w ++ flat_map sheet_lines sheets)%list.
Proof.
  induction sheets as [|sh r IH]; intros totals res w w' E.
  - inversion E; subst. simpl. rewrite !Nat.add_0_r, app_nil_r.
    split; [now destruct res|reflexivity].
  - apply for_each_cons in E. destruct E as (s1 & w1 & E1 & E2).
    apply import_sheet_counts in E1. destruct E1 as [-> Ec1].
    apply IH in E2. destruct E2 as [-> Ec2]. cbn [fst snd] in *.
    split.
    + simpl. f_equal; lia.
    + rewrite Ec2, Ec1. cbn [flat_map]. now rewrite <- app_assoc.
Qed.

End Printed.

(** X9: the console of a run that completes is determined by the
    workbook.  After the line that tells the number of sheets come, for
    each sheet in order, the line that names it and then either the warning
    that no header row was found or the line that tells its numbers of
    processes and of tasks; these numbers are the number of groups of its
    data rows and the number of non-empty tasks cells among them.  The
    summary that closes the run tells the number of sheets and the sums of
    those numbers over the sheets. *)
Theorem completed_run_prints (CREATED_BY_ID : ObjectId)
    (sheets : list Sheet) (w w' : World) :
  import_data CREATED_BY_ID (Some sheets) w = Ok tt w' ->
  console w'
  = (console w
     ++ [found_line (List.length sheets)]
     ++ flat_map sheet_lines sheets
     ++ summary_lines sheets)%list.
Proof.
  unfold import_data.
  set (u0 := set_console
               (console w ++ [found_line (List.length sheets)])%list w).
  rewrite (bind_ok _ _ w tt u0) by reflexivity.
  unfold bind at 1.
  destruct (for_each _ sheets (0, 0) u0) as [totals u1|] eqn:Ef;
    [|discriminate].
  apply import_sheets_counts in Ef. destruct Ef as [-> Ec].
  intros E. unfold bind, print, modify in E. inversion E; subst.
  cbn [console set_console fst snd]. rewrite Ec. unfold u0, summary_lines.
  cbn [console set_console]. rewrite <- !app_assoc. reflexivity.
Qed.

Lemma first_run_completes :
  import_data 0 one_sheet_workbook empty_world
  = Ok tt (world_of (import_data 0 one_sheet_workbook empty_world)).
Proof. vm_compute. reflexivity. Qed.

Lemma completed_run_prints_witness :
  console (world_of (import_data 0 one_sheet_workbook empty_world))
  = [found_line 1; processing_line regrouped_sheet; created_line 3 5;
     String nl "--- Import Summary ---"; "Total Macros: 1";
     "Total Processes: 3"; "Total Tasks: 5"; "----------------------"].
Proof.
  rewrite (completed_run_prints 0 [regrouped_sheet] empty_world _
             first_run_completes).
  vm_compute. reflexivity.
Defined.

(** ** Importing after the status updater *)

Section Reimport.

Variable CREATED_BY_ID : ObjectId.

(** After a run that completes, each group of each sheet has a record under
    its title and the macro of its sheet, written during the run. *)
Lemma import_data_holds (before : list Sheet) (sh : Sheet)
    (after : list Sheet) (w w' : World) (h : nat)
    (code name desc : string) (g : Group) :
  wf_docs w ->
  import_data CREATED_BY_ID (Some (before ++ sh :: after)%list) w
  = Ok tt w' ->
  macro_info sh = Some (code, name, desc) ->
  header_scan (sheet_frame sh) 0 10 = inr (Some h) ->
  In g (sheet_groups sh h) ->
  exists m d,
    find (macro_has_code code) (macros w') = Some m
    /\ find (doc_has_key (g_title g) (m_id m)) (documents w') = Some d
    /\ written CREATED_BY_ID (clock w) d.
Proof.
  intros WF Erun Hi Hs Hin. unfold import_data in Erun.
  set (u0 := set_console
               (console w
                ++ [found_line (List.length (before ++ sh :: after)%list)])%list
               w) in *.
  rewrite (bind_ok _ _ w tt u0) in Erun by reflexivity.
  unfold bind at 1 in Erun.
  destruct (for_each _ _ (0, 0) u0) as [totals u3|] eqn:Ef; [|discriminate].
  assert (Efin : documents w' = documents u3 /\ macros w' = macros u3).
  { unfold bind, print, modify in Erun. inversion Erun. split; reflexivity. }
  destruct Efin as [Ed2 Em2].
  apply for_each_app_ok in Ef.
  destruct Ef as (s1 & u1 & s2 & u2 & Eb & Es & Ea).
  assert (WFu1 : wf_docs u1).
  { pose proof (steps_for_each (maintains wf_docs)
                  (import_sheet CREATED_BY_ID) before (0, 0)
                  (fun x s _ => wf_import_sheet CREATED_BY_ID x s) u0) as H.
    rewrite Eb in H. apply H. exact WF. }
  assert (Cu1 : clock w <= clock u1).
  { pose proof (steps_for_each clock_grows
                  (import_sheet CREATED_BY_ID) before (0, 0)
                  (fun x s _ => clock_grows_import_sheet CREATED_BY_ID x s)
                  u0) as H.
    rewrite Eb in H. exact H. }
  destruct (import_sheet_holds CREATED_BY_ID sh s1 s2 u1 u2 h code name desc g
              WFu1 Es Hi Hs Hin) as (Hh & m2 & Fm2 & Eid).
  apply (holds_mono CREATED_BY_ID (clock w)) in Hh; [|exact Cu1].
  pose proof (steps_for_each
                (maintains (holds CREATED_BY_ID (clock w) (g_title g)
                                  (macro_id_for code u1)))
                (import_sheet CREATED_BY_ID) after s2
                (fun x s _ => holds_import_sheet CREATED_BY_ID _ _ _ x s) u2)
    as Hh3.
  rewrite Ea in Hh3. specialize (Hh3 Hh).
  pose proof (steps_for_each below (import_sheet CREATED_BY_ID) after s2
                (fun x s _ => steps_below_import_sheet CREATED_BY_ID x s) u2)
    as Hb3.
  rewrite Ea in Hb3. destruct Hb3 as (Hbm & _).
  destruct (Hbm code m2 Fm2) as (m3 & Fm3 & Eid3).
  destruct Hh3 as (_ & d2 & Fd2 & W2).
  rewrite <- Em2 in Fm3. rewrite <- Ed2 in Fd2.
  assert (Emid : m_id m3 = macro_id_for code u1) by congruence.
  rewrite <- Emid in Fd2.
  exists m3, d2. repeat split; auto.
Qed.

Lemma wf_docs_update_status (w : World) :
  wf_docs w -> wf_docs (world_of (update_status w)).
Proof.
  intros [ND Hlt]. unfold update_status, update_many_status, print, modify.
  cbn [world_of]. split; cbn [documents set_console set_documents next_id].
  - rewrite map_map.
    rewrite (map_ext _ doc_id); [assumption|].
    intros d. now destruct (is_draft d).
  - apply Forall_forall. intros d' Hin. apply in_map_iff in Hin.
    destruct Hin as (d & <- & Hin). rewrite Forall_forall in Hlt.
    specialize (Hlt d Hin). now destruct (is_draft d).
Qed.

End Reimport.

(** X10: a run of the importer that comes after the status updater undoes
    it for the processes of the workbook.  When that run completes, the
    record of every group of every sheet with a header row is again a draft
    of version 1.0, without contributors, and carries as its creation time a
    time of that run, not the time at which the record first entered the
    store. *)
Theorem import_after_update_resets_status (CREATED_BY_ID : ObjectId)
    (before : list Sheet) (sh : Sheet) (after : list Sheet)
    (w0 w2 : World) (h : nat) (code name desc : string) (g : Group) :
  let w1 := world_of (update_status w0) in
  wf_docs w0 ->
  import_data CREATED_BY_ID (Some (before ++ sh :: after)%list) w1
  = Ok tt w2 ->
  macro_info sh = Some (code, name, desc) ->
  header_scan (sheet_frame sh) 0 10 = inr (Some h) ->
  In g (sheet_groups sh h) ->
  Forall (fun d => doc_status d <> "draft") (documents w1)
  /\ exists m d,
       find (macro_has_code code) (macros w2) = Some m
       /\ find (doc_has_key (g_title g) (m_id m)) (documents w2) = Some d
       /\ doc_status d = "draft"
       /\ doc_version d = "1.0"
       /\ doc_contributors d = mkContributors [] [] []
       /\ doc_created_by d = CREATED_BY_ID
       /\ clock w1 <= doc_created_at d.
Proof.
  intros w1 WF Erun Hi Hs Hin. split.
  - unfold w1, update_status, update_many_status, print, modify.
    cbn [world_of documents set_console set_documents]. fold approve.
    apply Forall_forall. intros d Hd. apply in_map_iff in Hd.
    destruct Hd as (d0 & <- & _). pose proof (approve_not_draft d0) as H.
    unfold is_draft in H. now apply String.eqb_neq.
  - destruct (import_data_holds CREATED_BY_ID before sh after w1 w2 h code
                name desc g (wf_docs_update_status w0 WF) Erun Hi Hs Hin)
      as (m & d & Fm & Fd & (i & t1 & ref & dsc & stk & ts & C & E)).
    exists m, d. split; [exact Fm|]. split; [exact Fd|].
    rewrite E. cbn. repeat split. exact C.
Qed.

Lemma run_after_update_completes :
  import_data 0 one_sheet_workbook
    (world_of (update_status
                 (world_of (import_data 0 one_sheet_workbook empty_world))))
  = Ok tt
       (world_of
          (import_data 0 one_sheet_workbook
             (world_of (update_status
                          (world_of (import_data 0 one_sheet_workbook
                                                 empty_world)))))).
Proof. vm_compute. reflexivity. Qed.

Lemma import_after_update_resets_status_witness :
  let w0 := world_of (import_data 0 one_sheet_workbook empty_world) in
  let w1 := world_of (update_status w0) in
  let w2 := world_of (import_data 0 one_sheet_workbook w1) in
  Forall (fun d => doc_status d <> "draft") (documents w1)
  /\ exists m d,
       find (macro_has_code "Macro01") (macros w2) = Some m
       /\ find (doc_has_key "Deployer" (m_id m)) (documents w2) = Some d
       /\ doc_status d = "draft"
       /\ doc_version d = "1.0"
       /\ doc_contributors d = mkContributors [] [] []
       /\ doc_created_by d = 0
       /\ clock w1 <= doc_created_at d.
Proof.
  intros w0 w1 w2.
  apply (import_after_update_resets_status 0 [] regrouped_sheet [] w0 w2 2
           "Macro01" "Strategie" "Cette macro couvre la strategie"
           (mkGroup "Deployer" "Mise en service" "IT"
                    ["Installer"; "Recetter"])).
  - apply (steps_world_of (maintains wf_docs) _ empty_world
             (wf_import_data 0 one_sheet_workbook)), wf_docs_empty.
  - exact run_after_update_completes.
  - reflexivity.
  - reflexivity.
  - vm_compute. right. left. reflexivity.
Defined.

(** * The other scripts

    [get_or_create_admin_user] of [backend/scripts/import_excel_data.py],
    [backend/scripts/full_repopulate.py] and
    [backend/scripts/clean_and_import_org.py], over the same store. *)

(** ** The creator of the records *)

Record User : Type := mkUser {
  u_id : ObjectId;
  u_email : string
}.

Definition user_has_email (e : string) (u : User) : bool :=
  String.eqb (u_email u) e.

(** [get_or_create_admin_user()], over the users collection; [new_id] is
    the id that [ObjectId()] makes. *)
Definition get_or_create_admin_user (users : list User) (new_id : ObjectId)
  : ObjectId :=
  let admin := find (user_has_email "admin@k-j.store") users in
  let admin := match admin with
               | Some a => Some a
               | None => hd_error users
               end in
  match admin with
  | Some a => u_id a
  | None => new_id
  end.

(** ** Clearing collections *)

Inductive Collection : Type := Macros | Documents | JobPositions | Departments.

Definition collection_name (c : Collection) : string :=
  match c with
  | Macros => "macros"
  | Documents => "documents"
  | JobPositions => "job_positions"
  | Departments => "departments"
  end.

(** [db[c].delete_many({})]: the collection is emptied; the result is
    [deleted_count]. *)
Definition delete_many (c : Collection) : M nat :=
  fun w =>
    match c with
    | Macros => Ok (List.length (macros w)) (set_macros [] w)
    | Documents => Ok (List.length (documents w)) (set_documents [] w)
    | JobPositions =>
        Ok (List.length (job_positions w)) (set_job_positions [] w)
    | Departments => Ok (List.length (departments w)) (set_departments [] w)
    end.

(** [try: body except Exception as e: handler] *)
Definition try_except {A} (body : M A) (handler : Exn -> M A) : M A :=
  fun w =>
    match body w with
    | Ok a w' => Ok a w'
    | Raised e w' => handler e w'
    end.

(** How a script ends: it returns, or it leaves through [exit(status)]. *)
Inductive Ending : Type :=
| Returned
| Exited (status : nat).

(** ** Full repopulation *)

Section Repopulate.

Variable CREATED_BY_ID : ObjectId.

(** The text of an exception, [str(e)]. *)
Variable str_exn : Exn -> string.

Definition collections_to_clear : list Collection :=
  [Macros; Documents; JobPositions; Departments].

Definition clear_collection (col_name : Collection) (_ : unit) : M unit :=
  deleted_count <- delete_many col_name ;;
  print ("Cleared " ++ str_nat deleted_count ++ " documents from '"
         ++ collection_name col_name ++ "' collection.").

Definition full_repopulate (xl : option Workbook) : M Ending :=
  print "Starting Full Repopulation..." ;;
  try_except
    (print "Connected to MongoDB: process_manager" ;;
     for_each clear_collection collections_to_clear tt ;;
     print (String nl "Running Import...") ;;
     import_data CREATED_BY_ID xl ;;
     print (String nl "Full Repopulation Complete!") ;;
     ret Returned)
    (fun e =>
       print ("Error during repopulation: " ++ str_exn e) ;;
       ret (Exited 1)).

End Repopulate.

(** ** Departments and job positions alone *)

(** The column of the last header cell that names the directions. *)
Fixpoint org_map_headers (idx : nat) (headers : list Cell)
    (col : option nat) : option nat :=
  match headers with
  | [] => col
  | val :: r =>
      let val_str := strip (lower (str_cell val)) in
      org_map_headers (S idx) r
        (if (contains kw_concernees val_str
             || contains "directions" val_str)%bool
         then Some idx else col)
  end.

(** One data row: the names of its directions cell are resolved. *)
Definition org_row (df : DataFrame) (col : nat) (row : list Cell)
    (_ : unit) : M unit :=
  let d_content := read_col df row (Some col) in
  for_each (fun dir_name (_ : unit) => resolve_department dir_name)
           (candidate_names d_content) tt.

Definition org_rows (df : DataFrame) (h col : nat) : M unit :=
  for_each (org_row df col) (skipn (S h) df) tt.

(** The body of the loop over the sheets; a sheet without header row, or
    without directions column and with 4 columns or less, is passed over. *)
Definition org_import_sheet (sh : Sheet) (_ : unit) : M unit :=
  let df := sheet_frame sh in
  header_row_idx <- find_header_row df ;;
  match header_row_idx with
  | None => ret tt
  | Some h =>
      match org_map_headers 0 (nth h df []) None with
      | Some col => org_rows df h col
      | None => if Nat.ltb 4 (shape1 df) then org_rows df h 4 else ret tt
      end
  end.

(** [import_data()] of the script. *)
Definition org_import_data (xl : option Workbook) : M unit :=
  match xl with
  | None => print ("File not found: " ++ EXCEL_FILE)
  | Some sheets =>
      print ("Found " ++ str_nat (List.length sheets)
             ++ " sheets to process for Departments/Job Positions.") ;;
      for_each org_import_sheet sheets tt ;;
      print "Data population complete."
  end.

Definition clean_and_import (xl : option Workbook) : M unit :=
  print "Cleaning old Job Positions and Departments..." ;;
  deleted_count <- delete_many JobPositions ;;
  print ("Deleted " ++ str_nat deleted_count ++ " Job Positions.") ;;
  deleted_count <- delete_many Departments ;;
  print ("Deleted " ++ str_nat deleted_count ++ " Departments.") ;;
  org_import_data xl.

(** * Properties of the other scripts *)

(** X11: the creator of the records is the first user registered under the
    administrator's address when there is one, wherever it stands in the
    collection; failing that it is the first user of the collection; only
    when the collection is empty is it a newly made id. *)
Theorem admin_user_spec (users : list User) (new_id : ObjectId) :
  let r := get_or_create_admin_user users new_id in
  (forall before a after,
      users = (before ++ a :: after)%list ->
      u_email a = "admin@k-j.store" ->
      (forall b, In b before -> u_email b <> "admin@k-j.store") ->
      r = u_id a)
  /\ ((forall b, In b users -> u_email b <> "admin@k-j.store") ->
      r = match users with
          | a :: _ => u_id a
          | [] => new_id
          end)
  /\ (users <> [] -> exists a, In a users /\ r = u_id a)
  /\ (users = [] -> r = new_id).
Proof.
  cbv zeta. unfold get_or_create_admin_user.
  split; [|split; [|split]].
  - intros before a after -> Ha Hb.
    assert (F : find (user_has_email "admin@k-j.store")
                     (before ++ a :: after)%list = Some a).
    { rewrite find_app.
      assert (N : find (user_has_email "admin@k-j.store") before = None).
      { destruct (find _ before) as [b|] eqn:Fb; [|reflexivity].
        apply find_some in Fb. destruct Fb as [Hin Hp].
        apply String.eqb_eq in Hp. now apply Hb in Hin. }
      rewrite N. simpl. unfold user_has_email. rewrite Ha. reflexivity. }
    now rewrite F.
  - intros Hn.
    destruct (find (user_has_email "admin@k-j.store") users) as [a|] eqn:F.
    + apply find_some in F. destruct F as [Hin Hp].
      apply String.eqb_eq in Hp. now apply Hn in Hin.
    + now destruct users.
  - intros Hne.
    destruct (find (user_has_email "admin@k-j.store") users) as [a|] eqn:F.
    + apply find_some in F. destruct F as [Hin _]. now exists a.
    + destruct users as [|a r]; [congruence|]. exists a. split; [now left|].
      reflexivity.
  - intros ->. reflexivity.
Qed.

(** ** Runs do not depend on the console *)

(** The same store, id counter and clock; the consoles may differ. *)
Definition same_store (w1 w2 : World) : Prop :=
  macros w1 = macros w2
  /\ departments w1 = departments w2
  /\ job_positions w1 = job_positions w2
  /\ documents w1 = documents w2
  /\ next_id w1 = next_id w2
  /\ clock w1 = clock w2.

(** [agree m]: from two worlds that hold the same store, [m] ends the same
    way, with the same result, in two worlds that hold the same store. *)
Definition agree {A} (m : M A) : Prop :=
  forall w1 w2,
    same_store w1 w2 ->
    match m w1, m w2 with
    | Ok a u1, Ok b u2 => a = b /\ same_store u1 u2
    | Raised e u1, Raised e' u2 => e = e' /\ same_store u1 u2
    | _, _ => False
    end.

Lemma agree_ret {A} (a : A) : agree (ret a).
Proof. intros w1 w2 H. simpl. now split. Qed.

Lemma agree_raise {A} (e : Exn) : agree (@raise A e).
Proof. intros w1 w2 H. simpl. now split. Qed.

Lemma agree_bind {A B} (m : M A) (k : A -> M B) :
  agree m -> (forall a, agree (k a)) -> agree (bind m k).
Proof.
  intros Hm Hk w1 w2 H. unfold bind. specialize (Hm w1 w2 H).
  destruct (m w1) as [a u1|e u1], (m w2) as [b u2|e' u2];
    try contradiction; [|exact Hm].
  destruct Hm as [<- Hu]. exact (Hk a u1 u2 Hu).
Qed.

Lemma agree_for_each {A S} (body : A -> S -> M S) (l : list A) :
  (forall x s, agree (body x s)) -> forall s, agree (for_each body l s).
Proof.
  intros Hb. induction l as [|x r IH]; intros s; cbn [for_each].
  - apply agree_ret.
  - apply agree_bind; [apply Hb|exact IH].
Qed.

Lemma agree_gets {A} (f : World -> A) :
  (forall w1 w2, same_store w1 w2 -> f w1 = f w2) -> agree (gets f).
Proof. intros Hf w1 w2 H. simpl. split; [now apply Hf|exact H]. Qed.

Lemma agree_modify (f : World -> World) :
  (forall w1 w2, same_store w1 w2 -> same_store (f w1) (f w2)) ->
  agree (modify f).
Proof. intros Hf w1 w2 H. simpl. split; [reflexivity|now apply Hf]. Qed.

Lemma agree_try_except {A} (body : M A) (handler : Exn -> M A) :
  agree body -> (forall e, agree (handler e)) ->
  agree (try_except body handler).
Proof.
  intros Hb Hh w1 w2 H. unfold try_except. specialize (Hb w1 w2 H).
  destruct (body w1) as [a u1|e u1], (body w2) as [b u2|e' u2];
    try contradiction; [exact Hb|].
  destruct Hb as [<- Hu]. exact (Hh e u1 u2 Hu).
Qed.

(** The side condition of a read or a write: the fields of the two worlds
    are replaced by one another. *)
Ltac same_side :=
  let Hm := fresh in let Hd := fresh in let Hj := fresh in
  let Hk := fresh in let Hn := fresh in let Hc := fresh in
  intros ? ? (Hm & Hd & Hj & Hk & Hn & Hc);
  unfold same_store, upsert;
  cbn [macros departments job_positions documents next_id clock
       set_macros set_departments set_job_positions set_documents
       set_next_id set_clock set_console];
  rewrite ?Hm, ?Hd, ?Hj, ?Hk, ?Hn, ?Hc;
  repeat match goal with
         | |- context [if ?b then _ else _] => destruct b
         end;
  cbn [macros departments job_positions documents next_id clock
       set_macros set_departments set_job_positions set_documents
       set_next_id set_clock set_console];
  repeat split; congruence.

Lemma agree_now : agree now.
Proof.
  intros w1 w2 H. unfold now. destruct H as (Hm & Hd & Hj & Hk & Hn & Hc).
  split; [exact Hc|]. unfold same_store. cbn. repeat split; congruence.
Qed.

Lemma agree_print (s : string) : agree (print s).
Proof. apply agree_modify. same_side. Qed.

Lemma agree_scan_header (df : DataFrame) (i n : nat) :
  agree (scan_header df i n).
Proof.
  intros w1 w2 H. rewrite !scan_header_pure.
  destruct (header_scan df i n); now split.
Qed.

Lemma agree_delete_many (c : Collection) : agree (delete_many c).
Proof.
  intros w1 w2 (Hm & Hd & Hj & Hk & Hn & Hc). unfold delete_many.
  destruct c; (split; [congruence|]); unfold same_store; cbn;
    repeat split; congruence.
Qed.

Ltac agree_rule :=
  lazymatch goal with
  | |- agree (scan_header _ _ _) => apply agree_scan_header
  | |- agree (delete_many _) => apply agree_delete_many
  | |- agree (let _ := _ in _) => cbv zeta
  | |- agree (ret _) => apply agree_ret
  | |- agree (raise _) => apply agree_raise
  | |- agree now => apply agree_now
  | |- agree (print _) => apply agree_print
  | |- agree (gets _) => apply agree_gets; same_side
  | |- agree (modify _) => apply agree_modify; same_side
  | |- agree (bind _ _) => apply agree_bind; [|intros]
  | |- agree (try_except _ _) => apply agree_try_except; [|intros]
  | |- agree (for_each _ _ _) => apply agree_for_each; intros
  | |- agree (match ?x with _ => _ end) => destruct x
  end.

Ltac agree_rules := repeat agree_rule.

Lemma agree_import_data CREATED_BY_ID xl :
  agree (import_data CREATED_BY_ID xl).
Proof.
  unfold_run.
  unfold upsert_macro, upsert_document, set_document_tasks,
    insert_department_if_absent, insert_job_position_if_absent.
  agree_rules.
Qed.

(** ** Full repopulation *)

Definition cleared_line (n : nat) (c : Collection) : string :=
  "Cleared " ++ str_nat n ++ " documents from '" ++ collection_name c
  ++ "' collection.".

(** The world in which the import of a full repopulation starts. *)
Definition cleared_world (w : World) : World :=
  mkWorld [] [] [] [] (next_id w) (clock w)
    (console w
     ++ ["Starting Full Repopulation...";
         "Connected to MongoDB: process_manager";
         cleared_line (List.length (macros w)) Macros;
         cleared_line (List.length (documents w)) Documents;
         cleared_line (List.length (job_positions w)) JobPositions;
         cleared_line (List.length (departments w)) Departments;
         String nl "Running Import..."])%list.

Definition with_line (s : string) (w : World) : World :=
  set_console (console w ++ [s])%list w.

Section RepopulateRuns.

Variable CREATED_BY_ID : ObjectId.
Variable str_exn : Exn -> string.

Lemma full_repopulate_run (xl : option Workbook) (w : World) :
  full_repopulate CREATED_BY_ID str_exn xl w
  = match import_data CREATED_BY_ID xl (cleared_world w) with
    | Ok _ u =>
        Ok Returned (with_line (String nl "Full Repopulation Complete!") u)
    | Raised e u =>
        Ok (Exited 1)
           (with_line ("Error during repopulation: " ++ str_exn e) u)
    end.
Proof.
  unfold full_repopulate, try_except, bind at 1, print at 1, modify.
  unfold bind at 1, print at 1, modify.
  unfold bind at 1. cbn [for_each collections_to_clear].
  unfold clear_collection, delete_many, bind, print, modify, ret.
  cbn [macros departments job_positions documents next_id clock console
       set_macros set_departments set_job_positions set_documents
       set_console].
  lazymatch goal with
  | |- match match import_data _ _ ?u with _ => _ end with _ => _ end = _ =>
      replace u with (cleared_world w)
        by (unfold cleared_world, cleared_line; rewrite <- !app_assoc;
            destruct w; reflexivity)
  end.
  now destruct (import_data CREATED_BY_ID xl (cleared_world w)).
Qed.

End RepopulateRuns.

(** X12: a full repopulation empties the four collections, telling how
    many records each held, and then imports into the emptied store.  An
    exception of the import does not leave the script: it is reported on
    the console and the script exits with status 1, the store staying as
    the import left it, without the records it held before; when the import
    completes the script tells so and returns. *)
Theorem full_repopulate_spec (CREATED_BY_ID : ObjectId)
    (str_exn : Exn -> string) (xl : option Workbook) (w : World) :
  let c := cleared_world w in
  (macros c = [] /\ documents c = [] /\ job_positions c = []
   /\ departments c = [] /\ next_id c = next_id w /\ clock c = clock w)
  /\ (exists l, console c = (console w ++ l)%list /\ List.length l = 7)
  /\ match import_data CREATED_BY_ID xl c with
     | Ok _ u =>
         full_repopulate CREATED_BY_ID str_exn xl w
         = Ok Returned
              (with_line (String nl "Full Repopulation Complete!") u)
     | Raised e u =>
         full_repopulate CREATED_BY_ID str_exn xl w
         = Ok (Exited 1)
              (with_line ("Error during repopulation: " ++ str_exn e) u)
     end
  /\ exists r u,
       full_repopulate CREATED_BY_ID str_exn xl w = Ok r u
       /\ (r = Returned \/ r = Exited 1).
Proof.
  cbv zeta. split; [repeat split|]. split; [eexists; split; reflexivity|].
  rewrite full_repopulate_run.
  destruct (import_data CREATED_BY_ID xl (cleared_world w)) as [[] u|e u].
  - split; [reflexivity|]. eexists. eexists. split; [reflexivity|now left].
  - split; [reflexivity|]. eexists. eexists. split; [reflexivity|now right].
Qed.

(** X13: what a full repopulation leaves in the store does not depend on
    what the store held: from two stores at the same id counter and clock,
    whatever their collections and consoles, it ends the same way and
    leaves the same macros, departments, job positions and documents. *)
Theorem full_repopulate_forgets (CREATED_BY_ID : ObjectId)
    (str_exn : Exn -> string) (xl : option Workbook) (w1 w2 : World) :
  next_id w1 = next_id w2 -> clock w1 = clock w2 ->
  exists r u1 u2,
    full_repopulate CREATED_BY_ID str_exn xl w1 = Ok r u1
    /\ full_repopulate CREATED_BY_ID str_exn xl w2 = Ok r u2
    /\ macros u1 = macros u2
    /\ departments u1 = departments u2
    /\ job_positions u1 = job_positions u2
    /\ documents u1 = documents u2.
Proof.
  intros Hn Hc. rewrite !full_repopulate_run.
  assert (S : same_store (cleared_world w1) (cleared_world w2)).
  { unfold same_store, cleared_world. cbn. repeat split; assumption. }
  pose proof (agree_import_data CREATED_BY_ID xl _ _ S) as A.
  destruct (import_data CREATED_BY_ID xl (cleared_world w1)) as [[] u1|e u1],
           (import_data CREATED_BY_ID xl (cleared_world w2)) as [[] u2|e' u2];
    try contradiction.
  - destruct A as (_ & Hm & Hd & Hj & Hk & _).
    eexists. eexists. eexists. split; [reflexivity|]. split; [reflexivity|].
    cbn. repeat split; assumption.
  - destruct A as (<- & Hm & Hd & Hj & Hk & _).
    eexists. eexists. eexists. split; [reflexivity|]. split; [reflexivity|].
    cbn. repeat split; assumption.
Qed.

Lemma full_repopulate_forgets_witness :
  exists r u1 u2,
    full_repopulate 0 (fun _ => "") one_sheet_workbook empty_world = Ok r u1
    /\ full_repopulate 0 (fun _ => "") one_sheet_workbook
         (set_departments one_department empty_world) = Ok r u2
    /\ macros u1 = macros u2
    /\ departments u1 = departments u2
    /\ job_positions u1 = job_positions u2
    /\ documents u1 = documents u2.
Proof.
  apply (full_repopulate_forgets 0 (fun _ => "") one_sheet_workbook
           empty_world (set_departments one_department empty_world));
    reflexivity.
Defined.

(** ** Departments and job positions alone *)

Definition deleted_line (n : nat) (what : string) : string :=
  "Deleted " ++ str_nat n ++ what.

(** The world in which the import of the script starts. *)
Definition org_cleared_world (w : World) : World :=
  mkWorld (macros w) [] [] (documents w) (next_id w) (clock w)
    (console w
     ++ ["Cleaning old Job Positions and Departments...";
         deleted_line (List.length (job_positions w)) " Job Positions.";
         deleted_line (List.length (departments w)) " Departments."])%list.

Lemma clean_and_import_run (xl : option Workbook) (w : World) :
  clean_and_import xl w = org_import_data xl (org_cleared_world w).
Proof.
  unfold clean_and_import, delete_many, bind, print, modify.
  cbn [macros departments job_positions documents next_id clock console
       set_macros set_departments set_job_positions set_documents
       set_console].
  f_equal. unfold org_cleared_world, deleted_line. rewrite <- !app_assoc.
  destruct w; reflexivity.
Qed.

Ltac unfold_org :=
  unfold org_import_data, org_import_sheet, org_rows, org_row,
    find_header_row.

Lemma org_import_keeps_macros xl : steps (keeps macros) (org_import_data xl).
Proof. unfold_org. run_rules. Qed.

Lemma org_import_keeps_documents xl :
  steps (keeps documents) (org_import_data xl).
Proof. unfold_org. run_rules. Qed.

Lemma org_ok_org_import xl : steps (maintains org_ok) (org_import_data xl).
Proof. unfold_org. below_rules. Qed.

Lemma steps_below_org_import_sheet sh s :
  steps below (org_import_sheet sh s).
Proof. unfold_org. below_rules. Qed.

Lemma steps_below_org_row df col row s : steps below (org_row df col row s).
Proof. unfold_org. below_rules. Qed.

(** X15: the script that renews departments and job positions deletes
    both collections before it reads the workbook and has no handler, so
    what it deleted is not restored when the workbook is missing (the
    script then ends normally, both collections empty) nor when a sheet of
    fewer than ten rows without header row makes it stop on [IndexError].
    In every case the macros and the documents are left as they were, and
    the departments and job positions it leaves are consistent. *)
Theorem clean_and_import_spec (xl : option Workbook) (w : World) :
  let u := world_of (clean_and_import xl w) in
  macros u = macros w
  /\ documents u = documents w
  /\ org_ok u
  /\ (xl = None ->
      clean_and_import xl w = Ok tt u
      /\ departments u = [] /\ job_positions u = [])
  /\ (forall sh rest,
        xl = Some (sh :: rest) ->
        shape0 (sheet_frame sh) < 10 ->
        no_header_in (sheet_frame sh) 0 (shape0 (sheet_frame sh)) ->
        clean_and_import xl w = Raised IndexError u
        /\ departments u = [] /\ job_positions u = []).
Proof.
  cbv zeta. rewrite clean_and_import_run.
  pose proof (steps_world_of _ _ (org_cleared_world w)
                (org_import_keeps_macros xl)) as Hm.
  pose proof (steps_world_of _ _ (org_cleared_world w)
                (org_import_keeps_documents xl)) as Hd.
  pose proof (steps_world_of _ _ (org_cleared_world w)
                (org_ok_org_import xl)) as Ho.
  split; [exact Hm|]. split; [exact Hd|].
  split; [apply Ho, org_ok_empty|]. split.
  - intros ->. repeat split.
  - intros sh rest -> L N. unfold org_import_data.
    set (u0 := with_line
                 ("Found " ++ str_nat (List.length (sh :: rest))
                  ++ " sheets to process for Departments/Job Positions.")
                 (org_cleared_world w)).
    rewrite (bind_ok _ _ _ tt u0) by reflexivity.
    assert (E : for_each org_import_sheet (sh :: rest) tt u0
                = Raised IndexError u0).
    { cbn [for_each]. apply bind_raised. unfold org_import_sheet.
      apply bind_raised. rewrite find_header_row_run.
      now rewrite (header_scan_short _ L N). }
    rewrite (bind_raised _ _ _ _ _ E). repeat split.
Qed.

(** ** Every name read has its department and its job position *)

(** The store holds a department named [n] and, for the department found
    under that name, a job position titled [n]. *)
Definition has_department (n : string) (w : World) : Prop :=
  exists d,
    find (dept_has_name n) (departments w) = Some d
    /\ d_name d = n
    /\ exists j,
         find (jp_has_key n (d_id d)) (job_positions w) = Some j
         /\ j_title j = n /\ j_department_id j = d_id d.

Lemma has_department_below (n : string) (w w' : World) :
  below w w' -> has_department n w -> has_department n w'.
Proof.
  intros (_ & Bd & Bj & _) (d & Fd & Hn & j & Fj & Hj).
  destruct (Bd n d Fd) as (d' & Fd' & Ei).
  destruct (Bj n (d_id d) j Fj) as (j' & Fj' & _).
  exists d'. split; [exact Fd'|]. split.
  - apply find_some in Fd'. destruct Fd' as [_ H].
    now apply String.eqb_eq in H.
  - exists j'. rewrite Ei. split; [exact Fj'|].
    apply find_some in Fj'. destruct Fj' as [_ H].
    unfold jp_has_key in H. apply andb_prop in H. destruct H as [H1 H2].
    apply String.eqb_eq in H1. apply Nat.eqb_eq in H2. now split.
Qed.

Lemma find_jp_last (n : string) (dep : ObjectId) (l : list JobPosition)
    (j : JobPosition) :
  find (jp_has_key n dep) l = None -> jp_has_key n dep j = true ->
  find (jp_has_key n dep) (l ++ [j])%list = Some j.
Proof. intros F H. now apply find_last. Qed.

Lemma has_department_resolved (n : string) (w : World) :
  has_department n (resolved_world n w).
Proof.
  pose proof (departments_resolved n w) as Ed.
  pose proof (job_positions_resolved n w) as Ej. cbv zeta in Ej.
  unfold has_department. rewrite Ed.
  destruct (find (dept_has_name n) (departments w)) as [d0|] eqn:F.
  - exists d0. split; [exact F|].
    pose proof F as F'. apply find_some in F'. destruct F' as [_ Hn].
    apply String.eqb_eq in Hn. split; [exact Hn|].
    destruct (find (jp_has_key n (d_id d0)) (job_positions w)) as [j|] eqn:J.
    + rewrite Ej. exists j. split; [exact J|].
      apply find_some in J. destruct J as [_ H].
      unfold jp_has_key in H. apply andb_prop in H. destruct H as [H1 H2].
      apply String.eqb_eq in H1. apply Nat.eqb_eq in H2. now split.
    + destruct Ej as (i & t1 & t2 & ->). eexists. split.
      * apply find_jp_last; [exact J|]. unfold jp_has_key. simpl.
        now rewrite String.eqb_refl, Nat.eqb_refl.
      * now split.
  - eexists. split.
    + apply find_last; [exact F|]. apply dept_has_name_refl.
    + split; [reflexivity|]. cbn [d_id].
      destruct (find (jp_has_key n (next_id w)) (job_positions w))
        as [j|] eqn:J.
      * rewrite Ej. exists j. split; [exact J|].
        apply find_some in J. destruct J as [_ H].
        unfold jp_has_key in H. apply andb_prop in H. destruct H as [H1 H2].
        apply String.eqb_eq in H1. apply Nat.eqb_eq in H2. now split.
      * destruct Ej as (i & t1 & t2 & ->). eexists. split.
        -- apply find_jp_last; [exact J|]. unfold jp_has_key. simpl.
           now rewrite String.eqb_refl, Nat.eqb_refl.
        -- now split.
Qed.

Lemma below_resolved (n : string) (w : World) : below w (resolved_world n w).
Proof.
  pose proof (steps_below_resolve_department n w) as H.
  now rewrite resolve_department_run in H.
Qed.

(** A loop that ends well has run its body on each element, and what
    follows is related to the world the body left. *)
Lemma for_each_reaches {A S} (R : World -> World -> Prop) `{!PreOrder R}
    (body : A -> S -> M S) (l : list A) (x : A) (s s' : S) (w w' : World) :
  (forall y t, steps R (body y t)) ->
  for_each body l s w = Ok s' w' -> In x l ->
  exists s1 w1 s2 w2, body x s1 w1 = Ok s2 w2 /\ R w2 w'.
Proof.
  intros Hs E Hin. apply in_split in Hin. destruct Hin as (l1 & l2 & ->).
  apply for_each_app_ok in E. destruct E as (s1 & w1 & s2 & w2 & _ & Eb & Ea).
  exists s1, w1, s2, w2. split; [exact Eb|].
  pose proof (steps_for_each R body l2 s2 (fun y t _ => Hs y t) w2) as H.
  now rewrite Ea in H.
Qed.

(** The test of the script on a header cell. *)
Definition names_directions (val : Cell) : bool :=
  (contains kw_concernees (header_text val)
   || contains "directions" (header_text val))%bool.

(** The directions column of a sheet whose header row is row [h], when the
    script goes through its rows. *)
Definition org_column (df : DataFrame) (h : nat) : option nat :=
  match org_map_headers 0 (nth h df []) None with
  | Some col => Some col
  | None => if Nat.ltb 4 (shape1 df) then Some 4 else None
  end.

Lemma org_map_headers_last (headers : list Cell) :
  forall idx col,
    (org_map_headers idx headers col = col
     /\ forall j, j < List.length headers ->
                  names_directions (nth j headers NaN) = false)
    \/ (exists j,
          j < List.length headers
          /\ org_map_headers idx headers col = Some (idx + j)
          /\ names_directions (nth j headers NaN) = true
          /\ forall k, j < k < List.length headers ->
                       names_directions (nth k headers NaN) = false).
Proof.
  induction headers as [|val r IH]; intros idx col; cbn [org_map_headers].
  - left. split; [reflexivity|]. simpl. intros j Hj. lia.
  - cbv zeta. fold (header_text val). fold (names_directions val).
    destruct (IH (S idx) (if names_directions val then Some idx else col))
      as [[E N]|(j & Hj & E & Pj & N)].
    + destruct (names_directions val) eqn:Pv.
      * right. exists 0. rewrite Nat.add_0_r. simpl.
        repeat split; [lia|assumption|assumption|].
        intros k Hk. destruct k as [|k]; [lia|]. apply N. lia.
      * left. split; [assumption|]. simpl.
        intros [|k] Hk; [assumption|]. apply N. lia.
    + right. exists (S j). rewrite Nat.add_succ_r. simpl.
      repeat split; [lia|assumption|assumption|].
      intros k Hk. destruct k as [|k]; [lia|]. apply N. lia.
Qed.

Lemma org_import_sheet_run (sh : Sheet) (h c : nat) (w : World) :
  header_scan (sheet_frame sh) 0 10 = inr (Some h) ->
  org_column (sheet_frame sh) h = Some c ->
  org_import_sheet sh tt w = org_rows (sheet_frame sh) h c w.
Proof.
  intros Hs Hc. unfold org_import_sheet. cbv zeta.
  rewrite (bind_ok _ _ w (Some h) w)
    by (rewrite find_header_row_run; now rewrite Hs).
  unfold org_column in Hc.
  destruct (org_map_headers 0 (nth h (sheet_frame sh) []) None) as [col|].
  - now inversion Hc.
  - destruct (Nat.ltb 4 (shape1 (sheet_frame sh))); [|discriminate].
    now inversion Hc.
Qed.

(** X16: when the script that renews departments and job positions
    completes, every name of every directions cell below a header row has
    its department and, for that department, its job position of the same
    title: the cells read are those of the column of the last header cell
    that names the directions, or of column 4 when no header cell does and
    the sheet has more than 4 columns; the rows of a sheet that has neither
    are not read. *)
Theorem clean_and_import_covers (before : list Sheet) (sh : Sheet)
    (after : list Sheet) (w w' : World) (h : nat) :
  clean_and_import (Some (before ++ sh :: after)%list) w = Ok tt w' ->
  header_scan (sheet_frame sh) 0 10 = inr (Some h) ->
  let df := sheet_frame sh in
  (forall c row n,
      org_column df h = Some c ->
      In row (skipn (S h) df) ->
      In n (candidate_names (read_col df row (Some c))) ->
      has_department n w')
  /\ (forall c, org_column df h = Some c ->
        role_column names_directions (nth h df []) 4 c)
  /\ (org_column df h = None <->
      shape1 df <= 4
      /\ forall j, j < List.length (nth h df []) ->
                   names_directions (nth j (nth h df []) NaN) = false).
Proof.
  intros E Hs df. split; [|split].
  - intros c row n Hc Hrow Hn.
    rewrite clean_and_import_run in E. unfold org_import_data in E.
    unfold bind at 1 in E. cbn [print modify] in E.
    unfold bind at 1 in E.
    destruct (for_each org_import_sheet _ tt _) as [[] u1|] eqn:Ef;
      [|discriminate].
    assert (B1 : below u1 w').
    { unfold print, modify in E. inversion E; subst. now apply below_same. }
    destruct (for_each_reaches below org_import_sheet _ sh _ _ _ _
                steps_below_org_import_sheet Ef
                (in_elt sh before after))
      as ([] & ua & [] & ub & Esh & B2).
    rewrite (org_import_sheet_run sh h c ua Hs Hc) in Esh.
    unfold org_rows in Esh.
    destruct (for_each_reaches below (org_row (sheet_frame sh) c) _ row
                _ _ _ _ (steps_below_org_row (sheet_frame sh) c) Esh Hrow)
      as ([] & uc & [] & ud & Er & B3).
    unfold org_row in Er. cbv zeta in Er.
    destruct (for_each_reaches below
                (fun dir_name (_ : unit) => resolve_department dir_name)
                _ n _ _ _ _
                (fun y t => steps_below_resolve_department y) Er Hn)
      as ([] & ue & [] & uf & En & B4).
    rewrite resolve_department_run in En. inversion En; subst.
    apply (has_department_below n (resolved_world n ue));
      [|apply has_department_resolved].
    etransitivity; [exact B4|]. etransitivity; [exact B3|].
    etransitivity; [exact B2|exact B1].
  - intros c Hc. unfold org_column in Hc. fold df in Hc.
    destruct (org_map_headers_last (nth h df []) 0 None)
      as [[E0 N]|(j & Hj & E0 & Pj & N)]; rewrite E0 in Hc.
    + destruct (Nat.ltb 4 (shape1 df)); [|discriminate].
      inversion Hc; subst. right. now split.
    + inversion Hc; subst. left. now repeat split.
  - unfold org_column. fold df.
    destruct (org_map_headers_last (nth h df []) 0 None)
      as [[E0 N]|(j & Hj & E0 & Pj & N)]; rewrite E0.
    + destruct (Nat.ltb_spec 4 (shape1 df)); split; try discriminate.
      * intros [L _]. lia.
      * intros _. split; [assumption|exact N].
      * reflexivity.
    + split; [discriminate|]. intros [_ N']. rewrite (N' j Hj) in Pj.
      discriminate.
Qed.

Lemma clean_and_import_completes :
  clean_and_import one_sheet_workbook empty_world
  = Ok tt (world_of (clean_and_import one_sheet_workbook empty_world)).
Proof. vm_compute. reflexivity. Qed.

Lemma clean_and_import_covers_witness :
  has_department "Direction Technique"
    (world_of (clean_and_import one_sheet_workbook empty_world)).
Proof.
  destruct (clean_and_import_covers [] regrouped_sheet [] empty_world _ 2
              clean_and_import_completes eq_refl) as (H & _).
  apply (H 4 [NaN; Text "Planifier"; Text "Revision"; Text "Reviser le plan";
              Text "Direction Technique"]).
  - reflexivity.
  - vm_compute. do 5 right. left. reflexivity.
  - vm_compute. left. reflexivity.
Defined.

(** Every stakeholder named in a document has its department and its job
    position. *)
Definition stake_ok (w : World) : Prop :=
  forall d, In d (documents w) ->
    forall n, In n (doc_stakeholders d) -> has_department n w.

Lemma stake_ok_step (w w' : World) :
  below w w' ->
  (forall d', In d' (documents w') ->
     exists d, In d (documents w)
               /\ doc_stakeholders d' = doc_stakeholders d) ->
  stake_ok w -> stake_ok w'.
Proof.
  intros B Hd S d' Hin n Hn. destruct (Hd d' Hin) as (d & Hin0 & E).
  rewrite E in Hn. apply (has_department_below n w w' B).
  exact (S d Hin0 n Hn).
Qed.

Lemma stake_ok_kept (m : M unit) :
  steps below m -> steps (keeps documents) m -> steps (maintains stake_ok) m.
Proof.
  intros Hb Hk w. specialize (Hb w). specialize (Hk w).
  unfold maintains, keeps in *.
  destruct (m w) as [a w'|e w']; apply stake_ok_step; auto;
    intros d' Hin; exists d'; rewrite Hk in Hin; auto.
Qed.

Lemma stake_ok_now : steps (maintains stake_ok) now.
Proof.
  intros w. unfold now, maintains. apply stake_ok_step.
  - now apply below_same.
  - intros d' Hin. now exists d'.
Qed.

Lemma stake_ok_print s : steps (maintains stake_ok) (print s).
Proof.
  apply stake_ok_kept; [apply steps_below_print|].
  unfold print. step_rules.
Qed.

Lemma stake_ok_upsert_macro md : steps (maintains stake_ok) (upsert_macro md).
Proof.
  apply stake_ok_kept; [apply steps_below_upsert_macro|].
  unfold upsert_macro. step_rules.
Qed.

Lemma stake_ok_set_document_tasks i ts :
  steps (maintains stake_ok) (set_document_tasks i ts).
Proof.
  intros w. pose proof (steps_below_set_document_tasks i ts w) as B.
  unfold set_document_tasks, modify, maintains in *.
  apply stake_ok_step; [exact B|].
  intros d' Hin. cbn [documents set_documents] in Hin.
  apply in_update_first in Hin. destruct Hin as [Hin|(x & Hx & ->)].
  - now exists d'.
  - now exists x.
Qed.

Lemma has_department_same (n : string) (w w' : World) :
  departments w' = departments w -> job_positions w' = job_positions w ->
  has_department n w -> has_department n w'.
Proof. unfold has_department. now intros -> ->. Qed.

Lemma resolve_all_has (names : list string) :
  forall w,
    below w (resolve_all names w)
    /\ forall n, In n names -> has_department n (resolve_all names w).
Proof.
  unfold resolve_all.
  induction names as [|a r IH]; intros w; cbn [fold_left].
  - split; [reflexivity|]. intros n [].
  - destruct (IH (resolved_world a w)) as [B H]. split.
    + etransitivity; [apply below_resolved|exact B].
    + intros n [<-|Hn]; [|now apply H].
      apply (has_department_below _ _ _ B), has_department_resolved.
Qed.

Section Stakeholders.

Variable CREATED_BY_ID : ObjectId.

Lemma stake_ok_flush_tasks st : steps (maintains stake_ok) (flush_tasks st).
Proof.
  unfold flush_tasks. destruct (current_process_doc st).
  - apply steps_bind; [typeclasses eauto|apply stake_ok_set_document_tasks|].
    intros a. apply steps_ret. typeclasses eauto.
  - apply steps_ret. typeclasses eauto.
Qed.

Lemma stake_ok_start_process mid code t desc dirs st :
  steps (maintains stake_ok)
        (start_process CREATED_BY_ID mid code t desc dirs st).
Proof.
  intros w. rewrite start_process_run. unfold maintains. intros Sw.
  pose proof (stake_ok_flush_tasks st w) as F.
  rewrite flush_tasks_run in F. unfold maintains in F. specialize (F Sw).
  unfold started_world. cbv zeta.
  set (w1 := flushed st w) in *.
  destruct (resolve_all_has (candidate_names dirs) w1) as [B H].
  destruct (resolve_all_docs_kept (candidate_names dirs) w1)
    as ([Ed _] & _ & _).
  set (w2 := resolve_all (candidate_names dirs) w1) in *.
  assert (S2 : stake_ok w2).
  { apply (stake_ok_step w1 w2 B); [|exact F].
    intros d' Hin. exists d'. rewrite Ed in Hin. auto. }
  set (dd := new_doc_data CREATED_BY_ID mid code t desc dirs
                          (S (process_count st)) w2).
  intros d' Hin n Hn.
  apply (has_department_same n w2);
    [unfold upserted_world; now destruct (upsert _ _ _ _ _)
    |unfold upserted_world; now destruct (upsert _ _ _ _ _)|].
  unfold upserted_world, upsert in Hin.
  destruct (existsb _ (documents w2)); cbn [documents] in Hin.
  - apply in_update_first in Hin. destruct Hin as [Hin|(x & Hx & ->)].
    + exact (S2 d' Hin n Hn).
    + apply H. exact Hn.
  - apply in_app_or in Hin. destruct Hin as [Hin|[<-|[]]].
    + exact (S2 d' Hin n Hn).
    + apply H. exact Hn.
Qed.

Hint Resolve stake_ok_now stake_ok_print stake_ok_upsert_macro
  stake_ok_set_document_tasks stake_ok_start_process : steps_db.

Lemma stake_ok_import_data xl :
  steps (maintains stake_ok) (import_data CREATED_BY_ID xl).
Proof.
  unfold import_data, import_sheet, iloc, import_details, import_rows,
    process_row, append_task, flush_tasks, find_header_row.
  below_rules.
Qed.

End Stakeholders.

(** X17: an import keeps the stakeholders of the processes backed by the
    reference data, whether it completes or stops on an exception: when
    every name listed as a stakeholder of a document has a department of
    that name and, for that department, a job position of that title, this
    is so after the import as well, for the documents it found and for
    those it wrote. *)
Theorem import_keeps_stakeholders_backed (CREATED_BY_ID : ObjectId)
    (xl : option Workbook) (w : World) :
  stake_ok w -> stake_ok (world_of (import_data CREATED_BY_ID xl w)).
Proof.
  exact (steps_world_of (maintains stake_ok) _ w
           (stake_ok_import_data CREATED_BY_ID xl)).
Qed.

Lemma import_keeps_stakeholders_backed_witness :
  stake_ok (world_of (import_data 0 one_sheet_workbook empty_world)).
Proof.
  apply (import_keeps_stakeholders_backed 0 one_sheet_workbook empty_world).
  intros d [].
Defined.

(** ** Keys stay unique *)

Definition doc_key (d : Document) : string * ObjectId :=
  (doc_title d, doc_macro_id d).

(** No two macros share a code and no two documents share title and
    macro. *)
Definition keys_ok (w : World) : Prop :=
  NoDup (map m_code (macros w)) /\ NoDup (map doc_key (documents w)).

Lemma upsert_keys {A K} (key : A -> K) (p : A -> bool) (f : A -> A)
    (g : ObjectId -> A) (l : list A) (nid : ObjectId) (k : K) :
  (forall x, key x = k -> p x = true) ->
  (forall x, p x = true -> key (f x) = key x) ->
  key (g nid) = k ->
  NoDup (map key l) -> NoDup (map key (fst (upsert p f g l nid))).
Proof.
  intros Hk Hf Hg ND. unfold upsert. rewrite existsb_find.
  destruct (find p l) as [x|] eqn:F; cbn [fst].
  - now rewrite update_first_map_matched.
  - rewrite map_app. apply NoDup_snoc; [assumption|]. simpl. rewrite Hg.
    exact (find_none_not_in key p k l Hk F).
Qed.

Lemma keys_ok_same (w w' : World) :
  macros w' = macros w -> documents w' = documents w ->
  keys_ok w -> keys_ok w'.
Proof. unfold keys_ok. now intros -> ->. Qed.

Lemma keys_ok_now : steps (maintains keys_ok) now.
Proof. prim_step. unfold maintains. now apply keys_ok_same. Qed.

Lemma keys_ok_print s : steps (maintains keys_ok) (print s).
Proof. prim_step. unfold maintains. now apply keys_ok_same. Qed.

Lemma keys_ok_insert_department n c t1 t2 :
  steps (maintains keys_ok) (insert_department_if_absent n c t1 t2).
Proof. prim_step; unfold maintains; now apply keys_ok_same. Qed.

Lemma keys_ok_insert_job_position n d c t1 t2 :
  steps (maintains keys_ok) (insert_job_position_if_absent n d c t1 t2).
Proof. prim_step; unfold maintains; now apply keys_ok_same. Qed.

Lemma keys_ok_upsert_macro md : steps (maintains keys_ok) (upsert_macro md).
Proof.
  intros w. unfold upsert_macro, modify, maintains. intros [Nm Nd].
  pose proof (upsert_keys m_code (macro_has_code (m_code md))
                (fun old => macro_with_id (m_id old) md)
                (fun i => macro_with_id i md) (macros w) (next_id w)
                (m_code md)) as U.
  destruct (upsert _ _ _ (macros w) (next_id w)) as [l n].
  split; [|exact Nd]. cbn [macros set_macros set_next_id fst] in *.
  apply U; auto.
  - intros x E. unfold macro_has_code. rewrite E. apply String.eqb_refl.
  - intros x Hx. apply String.eqb_eq in Hx. simpl. now rewrite Hx.
Qed.

Lemma keys_ok_upsert_document dd :
  steps (maintains keys_ok) (upsert_document dd).
Proof.
  intros w. unfold upsert_document, modify, maintains. intros [Nm Nd].
  pose proof (upsert_keys doc_key
                (doc_has_key (doc_title dd) (doc_macro_id dd))
                (fun old => doc_with_id (doc_id old) dd)
                (fun i => doc_with_id i dd) (documents w) (next_id w)
                (doc_title dd, doc_macro_id dd)) as U.
  destruct (upsert _ _ _ (documents w) (next_id w)) as [l n].
  split; [exact Nm|]. cbn [documents set_documents set_next_id fst] in *.
  apply U; auto.
  - intros x E. unfold doc_key in E. inversion E.
    apply doc_has_key_iff. now split.
  - intros x Hx. apply doc_has_key_iff in Hx. destruct Hx as [H1 H2].
    unfold doc_key. simpl. now rewrite H1, H2.
Qed.

Lemma keys_ok_set_document_tasks i ts :
  steps (maintains keys_ok) (set_document_tasks i ts).
Proof.
  intros w. unfold set_document_tasks, modify, maintains. intros [Nm Nd].
  split; [exact Nm|]. cbn [documents set_documents].
  now rewrite update_first_map.
Qed.

#[export] Hint Resolve keys_ok_now keys_ok_print keys_ok_insert_department
  keys_ok_insert_job_position keys_ok_upsert_macro keys_ok_upsert_document
  keys_ok_set_document_tasks : steps_db.

Lemma keys_ok_import_data CREATED_BY_ID xl :
  steps (maintains keys_ok) (import_data CREATED_BY_ID xl).
Proof. unfold_run. below_rules. Qed.

(** X18: an import never makes a second record under a key that is taken,
    whether it completes or stops on an exception: when no two macros share
    a code and no two documents share title and macro before it, this is so
    after it. *)
Theorem import_keeps_keys_unique (CREATED_BY_ID : ObjectId)
    (xl : option Workbook) (w : World) :
  keys_ok w -> keys_ok (world_of (import_data CREATED_BY_ID xl w)).
Proof.
  exact (steps_world_of (maintains keys_ok) _ w
           (keys_ok_import_data CREATED_BY_ID xl)).
Qed.

Lemma import_keeps_keys_unique_witness :
  keys_ok (world_of (import_data 0 one_sheet_workbook empty_world)).
Proof.
  apply (import_keeps_keys_unique 0 one_sheet_workbook empty_world).
  split; constructor.
Defined.

(** ** How the import of a sheet can end *)

(** Among the data rows, a row with a non-empty tasks cell comes before
    every row with a non-empty title cell. *)
Fixpoint task_before_title (df : DataFrame) (col_map : ColMap)
    (rows : list (list Cell)) : bool :=
  match rows with
  | [] => false
  | r :: rest =>
      if negb (is_empty (row_title df col_map r)) then false
      else if negb (is_empty (row_tasks df col_map r)) then true
      else task_before_title df col_map rest
  end.

Section Outcomes.

Variable CREATED_BY_ID : ObjectId.
Variable df : DataFrame.
Variable col_map : ColMap.
Variable macro_id : ObjectId.
Variable macro_code : string.

Lemma walk_open (rows : list (list Cell)) :
  forall st w,
    current_process_doc st <> None ->
    exists st' w',
      for_each (process_row CREATED_BY_ID df col_map macro_id macro_code)
               rows st w = Ok st' w'
      /\ current_process_doc st' <> None.
Proof.
  induction rows as [|r rest IH]; intros st w Hd.
  - exists st, w. now split.
  - cbn [for_each].
    assert (E : exists st1 w1,
               process_row CREATED_BY_ID df col_map macro_id macro_code
                           r st w = Ok st1 w1
               /\ current_process_doc st1 <> None).
    { rewrite process_row_run. cbv zeta.
      destruct (opens df col_map r st);
        destruct (is_empty (row_tasks df col_map r)).
      - eexists. eexists. split; [reflexivity|]. simpl. discriminate.
      - cbn [started_walk current_process_doc].
        eexists. eexists. split; [reflexivity|]. simpl. discriminate.
      - eexists. eexists. split; [reflexivity|]. exact Hd.
      - destruct (current_process_doc st) as [d|] eqn:Ed; [|congruence].
        eexists. eexists. split; [reflexivity|]. simpl. rewrite Ed.
        discriminate. }
    destruct E as (st1 & w1 & E & Hd1).
    rewrite (bind_ok _ _ _ _ _ E). now apply IH.
Qed.

Lemma walk_closed (rows : list (list Cell)) :
  forall st w,
    current_process_doc st = None -> current_process_title st = None ->
    if task_before_title df col_map rows
    then exists w',
           for_each (process_row CREATED_BY_ID df col_map macro_id macro_code)
                    rows st w = Raised TypeError w'
    else exists st' w',
           for_each (process_row CREATED_BY_ID df col_map macro_id macro_code)
                    rows st w = Ok st' w'.
Proof.
  induction rows as [|r rest IH]; intros st w Hd Ht; cbn [task_before_title].
  - exists st, w. reflexivity.
  - cbn [for_each].
    pose proof (process_row_run CREATED_BY_ID df col_map macro_id macro_code
                  r st w) as E. cbv zeta in E.
    unfold opens in E. rewrite Ht in E. cbn [title_differs] in E.
    rewrite andb_true_r in E.
    destruct (negb (is_empty (row_title df col_map r))).
    + assert (E1 : exists st1 w1,
                 process_row CREATED_BY_ID df col_map macro_id macro_code
                             r st w = Ok st1 w1
                 /\ current_process_doc st1 <> None).
      { rewrite E. destruct (is_empty (row_tasks df col_map r)).
        - eexists. eexists. split; [reflexivity|]. simpl. discriminate.
        - cbn [started_walk current_process_doc].
          eexists. eexists. split; [reflexivity|]. simpl. discriminate. }
      destruct E1 as (st1 & w1 & E1 & Hd1).
      rewrite (bind_ok _ _ _ _ _ E1).
      destruct (walk_open rest st1 w1 Hd1) as (st' & w' & Ew & _).
      now exists st', w'.
    + destruct (is_empty (row_tasks df col_map r)); cbn [negb].
      * rewrite (bind_ok _ _ _ _ _ E). now apply IH.
      * rewrite Hd in E. exists w. now apply bind_raised.
Qed.

Lemma import_rows_outcome (h : nat) (totals : nat * nat) (w : World) :
  col_map = build_col_map (nth h df []) ->
  if task_before_title df col_map (skipn (S h) df)
  then exists w',
         import_rows CREATED_BY_ID df h macro_id macro_code totals w
         = Raised TypeError w'
  else exists res w',
         import_rows CREATED_BY_ID df h macro_id macro_code totals w
         = Ok res w'.
Proof.
  intros Hc. unfold import_rows. rewrite <- Hc. cbv zeta.
  pose proof (walk_closed (skipn (S h) df)
                (mkWalk None None [] 0 0 (fst totals)) w eq_refl eq_refl)
    as H.
  destruct (task_before_title df col_map (skipn (S h) df)).
  - destruct H as (w' & E). exists w'. now apply bind_raised.
  - destruct H as (st' & w' & E). rewrite (bind_ok _ _ _ _ _ E).
    destruct (current_process_doc st').
    + rewrite (bind_ok _ _ w' (flushed_count st',
                               snd totals + flushed_count st')
                       (flushed st' w'))
        by now rewrite (bind_ok _ _ _ _ _ (flush_tasks_run st' w')).
      eexists. eexists. reflexivity.
    + eexists. eexists. reflexivity.
Qed.

End Outcomes.

(** X19: the import of a sheet can fail in three ways only.  It ends in
    [IndexError] exactly when the title cell or the description cell
    cannot be read (an empty sheet, an empty first row) or when the sheet
    has fewer than ten rows and no header row; it ends in [TypeError]
    exactly when a header row is found and, below it, a row with a
    non-empty tasks cell comes before every row with a non-empty title
    cell; in every other case it completes. *)
Theorem import_sheet_outcome (CREATED_BY_ID : ObjectId) (sh : Sheet)
    (totals : nat * nat) (w : World) :
  let df := sheet_frame sh in
  let orphan h :=
    task_before_title df (build_col_map (nth h df [])) (skipn (S h) df) in
  match import_sheet CREATED_BY_ID sh totals w with
  | Ok _ _ =>
      macro_info sh <> None
      /\ (header_scan df 0 10 = inr None
          \/ exists h, header_scan df 0 10 = inr (Some h) /\ orphan h = false)
  | Raised IndexError _ =>
      macro_info sh = None
      \/ (header_scan df 0 10 = inl IndexError
          /\ shape0 df < 10 /\ no_header_in df 0 (shape0 df))
  | Raised TypeError _ =>
      macro_info sh <> None
      /\ exists h, header_scan df 0 10 = inr (Some h) /\ orphan h = true
  end.
Proof.
  cbv zeta.
  destruct (macro_info sh) as [[[code name] desc]|] eqn:Hi;
    [|rewrite (import_sheet_unreadable _ _ _ _ Hi); now left].
  rewrite (import_sheet_run _ _ _ _ _ _ _ Hi). unfold import_details.
  set (u := macro_upserted CREATED_BY_ID sh code name desc w).
  pose proof (find_header_row_run (sheet_frame sh) u) as Hf.
  pose proof (header_scan_spec (sheet_frame sh) 10 0 (Nat.le_0_l _)) as Hs.
  destruct (header_scan (sheet_frame sh) 0 10) as [e|[h|]].
  - rewrite (bind_raised _ _ _ _ _ Hf). destruct Hs as (-> & L & N).
    right. split; [reflexivity|]. unfold shape0. split; [lia|exact N].
  - rewrite (bind_ok _ _ _ _ _ Hf).
    pose proof (import_rows_outcome CREATED_BY_ID (sheet_frame sh)
                  (build_col_map (nth h (sheet_frame sh) []))
                  (macro_id_for code w) code h totals u eq_refl) as H.
    destruct (task_before_title (sheet_frame sh) _ _) eqn:T.
    + destruct H as (w' & ->). split; [discriminate|]. now exists h.
    + destruct H as (res & w' & ->). split; [discriminate|].
      right. now exists h.
  - rewrite (bind_ok _ _ _ _ _ Hf). cbn. split; [discriminate|now left].
Qed.

(** ** What a full repopulation leaves *)

(** X14: however a full repopulation ends, it leaves a consistent store,
    and nothing is asked of the store it starts from: the names and the
    codes of the departments are pairwise distinct; each job position
    belongs to a department of the store that is named as the position is
    titled and carries its code followed by -H; no two macros share a code
    and no two documents share title and macro; every document names a
    macro of the store, and each of its stakeholders has a department and a
    job position. *)
Theorem full_repopulate_consistent (CREATED_BY_ID : ObjectId)
    (str_exn : Exn -> string) (xl : option Workbook) (w : World) :
  let u := world_of (full_repopulate CREATED_BY_ID str_exn xl w) in
  org_ok u
  /\ keys_ok u
  /\ (forall d, In d (documents u) ->
        exists m, In m (macros u) /\ m_id m = doc_macro_id d)
  /\ (forall d, In d (documents u) ->
        forall n, In n (doc_stakeholders d) -> has_department n u).
Proof.
  cbv zeta. rewrite full_repopulate_run.
  pose proof (org_ok_import_data CREATED_BY_ID xl (cleared_world w)) as O.
  pose proof (keys_ok_import_data CREATED_BY_ID xl (cleared_world w)) as K.
  pose proof (refs_ok_import_data CREATED_BY_ID xl (cleared_world w)) as R.
  pose proof (stake_ok_import_data CREATED_BY_ID xl (cleared_world w)) as T.
  assert (O0 : org_ok (cleared_world w)) by apply org_ok_empty.
  assert (K0 : keys_ok (cleared_world w)) by (split; constructor).
  assert (R0 : refs_ok (cleared_world w)) by (intros d []).
  assert (T0 : stake_ok (cleared_world w)) by (intros d []).
  destruct (import_data CREATED_BY_ID xl (cleared_world w)) as [[] u|e u];
    cbn [world_of];
    (split; [exact (O O0)|split; [exact (K K0)|split;
       [exact (R R0)|exact (T T0)]]]).
Qed.

(** ** Tasks are numbered without gaps *)

(** The tasks of a document are numbered 1, 2, ... and their codes are one
    process code followed by _T and the number. *)
Definition numbered_tasks (ts : list Task) : Prop :=
  exists pc descs, ts = numbered pc descs.

Definition tasks_ok (w : World) : Prop :=
  forall d, In d (documents w) -> numbered_tasks (doc_tasks d).

(** The tasks gathered for the open process are numbered under its code. *)
Definition walk_ok (st : Walk) : Prop :=
  match current_process_doc st with
  | Some d => exists descs,
                current_tasks st = numbered (doc_process_code d) descs
  | None => current_tasks st = []
  end.

Lemma walk_ok_numbered (st : Walk) :
  walk_ok st -> numbered_tasks (current_tasks st).
Proof.
  unfold walk_ok. destruct (current_process_doc st) as [d|].
  - intros (descs & E). now exists (doc_process_code d), descs.
  - intros ->. now exists "", [].
Qed.

Lemma tasks_ok_same (w w' : World) :
  documents w' = documents w -> tasks_ok w -> tasks_ok w'.
Proof. unfold tasks_ok. now intros ->. Qed.

Lemma tasks_ok_flushed (st : Walk) (w : World) :
  walk_ok st -> tasks_ok w -> tasks_ok (flushed st w).
Proof.
  intros Hw Ht. unfold flushed.
  destruct (current_process_doc st) as [d|] eqn:Ed; [|exact Ht].
  intros x Hx. cbn [documents set_documents] in Hx.
  apply in_update_first in Hx. destruct Hx as [Hx|(y & Hy & ->)].
  - exact (Ht x Hx).
  - simpl. now apply walk_ok_numbered.
Qed.

Lemma walk_ok_task (t : string) (d : Document) (st : Walk) :
  current_process_doc st = Some d -> walk_ok st ->
  walk_ok (with_task t d st).
Proof.
  unfold walk_ok, with_task. cbn [current_process_doc current_tasks].
  intros ->. intros (descs & ->). exists (descs ++ [t])%list.
  unfold numbered. rewrite number_from_app.
  now rewrite number_from_length.
Qed.

Section TaskNumbers.

Variable CREATED_BY_ID : ObjectId.

Lemma tasks_ok_started mid code t desc dirs (st : Walk) (w : World) :
  walk_ok st -> tasks_ok w ->
  tasks_ok (started_world CREATED_BY_ID mid code t desc dirs st w).
Proof.
  intros Hw Ht. unfold started_world. cbv zeta.
  pose proof (tasks_ok_flushed st w Hw Ht) as H1.
  destruct (resolve_all_docs_kept (candidate_names dirs) (flushed st w))
    as ([Ed _] & _ & _).
  set (w2 := resolve_all (candidate_names dirs) (flushed st w)) in *.
  assert (H2 : tasks_ok w2) by now apply (tasks_ok_same (flushed st w)).
  intros x Hx. unfold upserted_world, upsert in Hx.
  destruct (existsb _ (documents w2)); cbn [documents] in Hx.
  - apply in_update_first in Hx. destruct Hx as [Hx|(y & Hy & ->)].
    + exact (H2 x Hx).
    + now exists "", [].
  - apply in_app_or in Hx. destruct Hx as [Hx|[<-|[]]].
    + exact (H2 x Hx).
    + now exists "", [].
Qed.

Lemma tasks_ok_row df cm mid code row (st : Walk) (w : World) :
  walk_ok st -> tasks_ok w ->
  match process_row CREATED_BY_ID df cm mid code row st w with
  | Ok st' w' => walk_ok st' /\ tasks_ok w'
  | Raised _ w' => tasks_ok w'
  end.
Proof.
  intros Hw Ht. rewrite process_row_run. cbv zeta.
  destruct (opens df cm row st).
  - pose proof (tasks_ok_started mid code (row_title df cm row)
                  (row_desc df cm row) (row_directions df cm row) st w Hw Ht)
      as H.
    destruct (is_empty (row_tasks df cm row)).
    + split; [|exact H]. unfold walk_ok, started_walk. simpl. now exists [].
    + cbn [started_walk current_process_doc]. split; [|exact H].
      apply walk_ok_task; [reflexivity|].
      unfold walk_ok. simpl. now exists [].
  - destruct (is_empty (row_tasks df cm row)); [now split|].
    destruct (current_process_doc st) as [d|] eqn:Ed; [|exact Ht].
    split; [|exact Ht]. now apply walk_ok_task.
Qed.

Lemma tasks_ok_rows df cm mid code (rows : list (list Cell)) :
  forall st w,
    walk_ok st -> tasks_ok w ->
    match for_each (process_row CREATED_BY_ID df cm mid code) rows st w with
    | Ok st' w' => walk_ok st' /\ tasks_ok w'
    | Raised _ w' => tasks_ok w'
    end.
Proof.
  induction rows as [|r rest IH]; intros st w Hw Ht; cbn [for_each].
  - now split.
  - pose proof (tasks_ok_row df cm mid code r st w Hw Ht) as H.
    unfold bind.
    destruct (process_row CREATED_BY_ID df cm mid code r st w)
      as [st1 w1|e w1]; [|exact H].
    destruct H as [Hw1 Ht1]. now apply IH.
Qed.

Lemma tasks_ok_import_rows df h mid code totals :
  steps (maintains tasks_ok) (import_rows CREATED_BY_ID df h mid code totals).
Proof.
  intros w.
  assert (G : tasks_ok w ->
              tasks_ok (world_of (import_rows CREATED_BY_ID df h mid code
                                              totals w))).
  { intros Ht. unfold import_rows. cbv zeta.
    pose proof (tasks_ok_rows df (build_col_map (nth h df [])) mid code
                  (skipn (S h) df) (mkWalk None None [] 0 0 (fst totals)) w
                  eq_refl Ht) as H.
    unfold bind at 1.
    destruct (for_each _ (skipn (S h) df) _ w) as [st1 w1|e w1]; [|exact H].
    destruct H as [Hw1 Ht1].
    destruct (current_process_doc st1) as [d|] eqn:Ed.
    - rewrite (bind_ok _ _ w1
                 (flushed_count st1, snd totals + flushed_count st1)
                 (flushed st1 w1))
        by now rewrite (bind_ok _ _ _ _ _ (flush_tasks_run st1 w1)).
      cbn. now apply (tasks_ok_flushed st1 w1).
    - cbn. exact Ht1. }
  unfold maintains.
  destruct (import_rows CREATED_BY_ID df h mid code totals w); exact G.
Qed.

Lemma tasks_ok_now : steps (maintains tasks_ok) now.
Proof. prim_step. unfold maintains. now apply tasks_ok_same. Qed.

Lemma tasks_ok_print s : steps (maintains tasks_ok) (print s).
Proof. prim_step. unfold maintains. now apply tasks_ok_same. Qed.

Lemma tasks_ok_upsert_macro md : steps (maintains tasks_ok) (upsert_macro md).
Proof. prim_step; unfold maintains; now apply tasks_ok_same. Qed.

Hint Resolve tasks_ok_now tasks_ok_print tasks_ok_upsert_macro
  tasks_ok_import_rows : steps_db.

Lemma tasks_ok_import_data xl :
  steps (maintains tasks_ok) (import_data CREATED_BY_ID xl).
Proof.
  unfold import_data, import_sheet, iloc, import_details, find_header_row.
  below_rules.
Qed.

End TaskNumbers.

(** X20: in every document of the store the tasks are numbered 1, 2, ...,
    n without gap and their codes are one process code followed by _T and
    the number of the task; an import keeps this so, whether it completes
    or stops on an exception, for the documents it found and for those it
    wrote. *)
Theorem import_keeps_tasks_numbered (CREATED_BY_ID : ObjectId)
    (xl : option Workbook) (w : World) :
  (forall d, In d (documents w) ->
     exists pc descs, doc_tasks d = numbered pc descs) ->
  forall d, In d (documents (world_of (import_data CREATED_BY_ID xl w))) ->
    (exists pc descs, doc_tasks d = numbered pc descs)
    /\ map t_order (doc_tasks d) = seq 1 (List.length (doc_tasks d))
    /\ exists pc,
         Forall (fun t => t_code t = pc ++ "_T" ++ str_nat (t_order t))
                (doc_tasks d).
Proof.
  intros H d Hd.
  pose proof (steps_world_of (maintains tasks_ok) _ w
                (tasks_ok_import_data CREATED_BY_ID xl) H d Hd)
    as (pc & descs & E).
  split; [now exists pc, descs|]. rewrite E. unfold numbered. split.
  - now rewrite number_from_orders, number_from_length.
  - exists pc. apply number_from_codes.
Qed.

Lemma import_keeps_tasks_numbered_witness :
  Forall (fun d => map t_order (doc_tasks d)
                   = seq 1 (List.length (doc_tasks d)))
         (documents (world_of (import_data 0 one_sheet_workbook
                                           empty_world))).
Proof.
  apply Forall_forall. intros d Hd.
  apply (import_keeps_tasks_numbered 0 one_sheet_workbook empty_world);
    [|exact Hd].
  simpl. intros x [].
Defined.

(** ** Only the names of the workbook *)

(** [n] is a name of a directions cell that the script reads in one of the
    sheets. *)
Definition org_named (sheets : list Sheet) (n : string) : Prop :=
  exists sh h c row,
    In sh sheets
    /\ header_scan (sheet_frame sh) 0 10 = inr (Some h)
    /\ org_column (sheet_frame sh) h = Some c
    /\ In row (skipn (S h) (sheet_frame sh))
    /\ In n (candidate_names (read_col (sheet_frame sh) row (Some c))).

Definition only_named (N : string -> Prop) (w : World) : Prop :=
  (forall d, In d (departments w) -> N (d_name d))
  /\ (forall j, In j (job_positions w) -> N (j_title j)).

Lemma only_named_resolve (N : string -> Prop) (n : string) :
  N n -> steps (maintains (only_named N)) (resolve_department n).
Proof.
  intros Hn w. rewrite resolve_department_run. unfold maintains.
  intros [Hd Hj].
  pose proof (departments_resolved n w) as Ed.
  pose proof (job_positions_resolved n w) as Ej. cbv zeta in Ej.
  split.
  - rewrite Ed. destruct (find (dept_has_name n) (departments w)); [exact Hd|].
    intros d Hin. apply in_app_or in Hin. destruct Hin as [Hin|[<-|[]]];
      [now apply Hd|exact Hn].
  - match type of Ej with
    | match ?x with _ => _ end => destruct x
    end.
    + now rewrite Ej.
    + destruct Ej as (i & t1 & t2 & ->).
      intros j Hin. apply in_app_or in Hin. destruct Hin as [Hin|[<-|[]]];
        [now apply Hj|exact Hn].
Qed.

Lemma only_named_print (N : string -> Prop) (s : string) :
  steps (maintains (only_named N)) (print s).
Proof. prim_step. unfold maintains. intros H. exact H. Qed.

Lemma only_named_rows (N : string -> Prop) (df : DataFrame) (h c : nat) :
  (forall row n, In row (skipn (S h) df) ->
                 In n (candidate_names (read_col df row (Some c))) -> N n) ->
  steps (maintains (only_named N)) (org_rows df h c).
Proof.
  intros H. unfold org_rows, org_row.
  apply steps_for_each; [typeclasses eauto|]. intros row s Hrow. cbv zeta.
  apply steps_for_each; [typeclasses eauto|]. intros n s' Hn.
  apply only_named_resolve. exact (H row n Hrow Hn).
Qed.

Lemma only_named_sheet (sheets : list Sheet) (sh : Sheet) (s : unit) :
  In sh sheets ->
  steps (maintains (only_named (org_named sheets))) (org_import_sheet sh s).
Proof.
  intros Hin w. unfold org_import_sheet. cbv zeta.
  pose proof (find_header_row_run (sheet_frame sh) w) as Hf.
  destruct (header_scan (sheet_frame sh) 0 10) as [e|[h|]] eqn:Hs.
  - rewrite (bind_raised _ _ _ _ _ Hf). unfold maintains. auto.
  - rewrite (bind_ok _ _ _ _ _ Hf).
    assert (R : forall c, org_column (sheet_frame sh) h = Some c ->
                  steps (maintains (only_named (org_named sheets)))
                        (org_rows (sheet_frame sh) h c)).
    { intros c Hc. apply only_named_rows. intros row n Hrow Hn.
      now exists sh, h, c, row. }
    unfold org_column in R.
    destruct (org_map_headers 0 (nth h (sheet_frame sh) []) None) as [c|].
    + exact (R c eq_refl w).
    + destruct (Nat.ltb 4 (shape1 (sheet_frame sh))).
      * exact (R 4 eq_refl w).
      * unfold maintains. cbn. auto.
  - rewrite (bind_ok _ _ _ _ _ Hf). unfold maintains. cbn. auto.
Qed.

(** X21: the script that renews departments and job positions leaves no
    department and no job position but those of the workbook, however it
    ends: each department that is in the store after it is named, and each
    job position titled, by a name of a directions cell that the script
    reads below a header row of some sheet; without workbook there is
    none. *)
Theorem clean_and_import_only_named (xl : option Workbook) (w : World) :
  let u := world_of (clean_and_import xl w) in
  let named n := match xl with
                 | Some sheets => org_named sheets n
                 | None => False
                 end in
  (forall d, In d (departments u) -> named (d_name d))
  /\ (forall j, In j (job_positions u) -> named (j_title j)).
Proof.
  cbv zeta. rewrite clean_and_import_run.
  assert (H0 : forall N, only_named N (org_cleared_world w)).
  { intros N. split; intros x []. }
  destruct xl as [sheets|].
  - assert (St : steps (maintains (only_named (org_named sheets)))
                       (org_import_data (Some sheets))).
    { unfold org_import_data.
      apply steps_bind; [typeclasses eauto|apply only_named_print|].
      intros _. apply steps_bind; [typeclasses eauto| |].
      - apply steps_for_each; [typeclasses eauto|].
        intros sh s Hin. now apply only_named_sheet.
      - intros _. apply only_named_print. }
    exact (steps_world_of _ _ (org_cleared_world w) St (H0 _)).
  - cbn. split; intros x [].
Qed.

(** ** Only the names of the rows that open a process *)

(** [n] is a name of the directions cell of a data row with a non-empty
    title cell, in a sheet with a header row. *)
Definition main_named (sheets : list Sheet) (n : string) : Prop :=
  exists sh h row,
    In sh sheets
    /\ header_scan (sheet_frame sh) 0 10 = inr (Some h)
    /\ In row (skipn (S h) (sheet_frame sh))
    /\ row_title (sheet_frame sh)
                 (build_col_map (nth h (sheet_frame sh) [])) row <> ""
    /\ In n (candidate_names
               (row_directions (sheet_frame sh)
                  (build_col_map (nth h (sheet_frame sh) [])) row)).

Lemma only_named_same (N : string -> Prop) (w w' : World) :
  departments w' = departments w -> job_positions w' = job_positions w ->
  only_named N w -> only_named N w'.
Proof. unfold only_named. now intros -> ->. Qed.

Lemma only_named_now N : steps (maintains (only_named N)) now.
Proof. prim_step. unfold maintains. now apply only_named_same. Qed.

Lemma only_named_upsert_macro N md :
  steps (maintains (only_named N)) (upsert_macro md).
Proof. prim_step; unfold maintains; now apply only_named_same. Qed.

Lemma only_named_upsert_document N dd :
  steps (maintains (only_named N)) (upsert_document dd).
Proof. prim_step; unfold maintains; now apply only_named_same. Qed.

Lemma only_named_set_document_tasks N i ts :
  steps (maintains (only_named N)) (set_document_tasks i ts).
Proof. prim_step; unfold maintains; now apply only_named_same. Qed.

#[export] Hint Resolve only_named_now only_named_print
  only_named_upsert_macro only_named_upsert_document
  only_named_set_document_tasks : steps_db.

Section MainNames.

Variable CREATED_BY_ID : ObjectId.
Variable N : string -> Prop.

Lemma only_named_start_process mid code t desc dirs st :
  (forall n, In n (candidate_names dirs) -> N n) ->
  steps (maintains (only_named N))
        (start_process CREATED_BY_ID mid code t desc dirs st).
Proof.
  intros H.
  assert (R : steps (maintains (only_named N)) (resolve_stakeholders dirs)).
  { unfold resolve_stakeholders. cbv zeta.
    apply steps_bind; [typeclasses eauto| |intros; apply steps_ret;
                                            typeclasses eauto].
    apply steps_for_each; [typeclasses eauto|]. intros n s Hn.
    apply only_named_resolve. now apply H. }
  unfold start_process, flush_tasks. below_rules.
Qed.

Lemma only_named_process_row df cm mid code row st :
  (row_title df cm row <> "" ->
   forall n, In n (candidate_names (row_directions df cm row)) -> N n) ->
  steps (maintains (only_named N))
        (process_row CREATED_BY_ID df cm mid code row st).
Proof.
  intros H. unfold process_row. cbv zeta.
  fold (row_title df cm row) (row_desc df cm row) (row_tasks df cm row)
       (row_directions df cm row).
  apply steps_bind; [typeclasses eauto| |].
  - destruct (negb (is_empty (row_title df cm row))
              && title_differs (row_title df cm row)
                               (current_process_title st))%bool eqn:O.
    + apply only_named_start_process. apply H.
      apply andb_prop in O. destruct O as [O _].
      apply negb_true_iff in O. now apply is_empty_false.
    + apply steps_ret. typeclasses eauto.
  - intros st1. unfold append_task. below_rules.
Qed.

End MainNames.

Section MainNamesRun.

Variable CREATED_BY_ID : ObjectId.

Lemma only_named_import_sheet (sheets : list Sheet) (sh : Sheet)
    (totals : nat * nat) :
  In sh sheets ->
  steps (maintains (only_named (main_named sheets)))
        (import_sheet CREATED_BY_ID sh totals).
Proof.
  intros Hin.
  assert (D : forall mid code,
             steps (maintains (only_named (main_named sheets)))
                   (import_details CREATED_BY_ID sh mid code totals)).
  { intros mid code w. unfold import_details. cbv zeta.
    pose proof (find_header_row_run (sheet_frame sh) w) as Hf.
    destruct (header_scan (sheet_frame sh) 0 10) as [e|[h|]] eqn:Hs.
    - rewrite (bind_raised _ _ _ _ _ Hf). unfold maintains. auto.
    - rewrite (bind_ok _ _ _ _ _ Hf).
      assert (R : steps (maintains (only_named (main_named sheets)))
                        (import_rows CREATED_BY_ID (sheet_frame sh) h mid
                                     code totals)).
      { unfold import_rows. cbv zeta.
        apply steps_bind; [typeclasses eauto| |].
        - apply steps_for_each; [typeclasses eauto|]. intros row st Hrow.
          apply only_named_process_row. intros Ht n Hn.
          now exists sh, h, row.
        - intros st. unfold flush_tasks. below_rules. }
      exact (R w).
    - rewrite (bind_ok _ _ _ _ _ Hf).
      exact (only_named_print _ _ w). }
  unfold import_sheet, iloc. below_rules.
Qed.

Lemma only_named_import_data (sheets : list Sheet) :
  steps (maintains (only_named (main_named sheets)))
        (import_data CREATED_BY_ID (Some sheets)).
Proof.
  unfold import_data.
  apply steps_bind; [typeclasses eauto|apply only_named_print|].
  intros _. apply steps_bind; [typeclasses eauto| |intros; below_rules].
  apply steps_for_each; [typeclasses eauto|]. intros sh s Hin.
  now apply only_named_import_sheet.
Qed.

End MainNamesRun.

(** X22: a full repopulation leaves no department and no job position but
    those of the workbook, however it ends: each department that is in the
    store after it is named, and each job position titled, by a name of
    the directions cell of a data row that has a non-empty title cell, in a
    sheet with a header row; the directions cell of a row whose title cell
    is empty gives none by itself.  Without workbook there is none. *)
Theorem full_repopulate_only_named (CREATED_BY_ID : ObjectId)
    (str_exn : Exn -> string) (xl : option Workbook) (w : World) :
  let u := world_of (full_repopulate CREATED_BY_ID str_exn xl w) in
  let named n := match xl with
                 | Some sheets => main_named sheets n
                 | None => False
                 end in
  (forall d, In d (departments u) -> named (d_name d))
  /\ (forall j, In j (job_positions u) -> named (j_title j)).
Proof.
  cbv zeta. rewrite full_repopulate_run.
  assert (G : only_named (fun n => match xl with
                                   | Some sheets => main_named sheets n
                                   | None => False
                                   end)
                         (world_of (import_data CREATED_BY_ID xl
                                                (cleared_world w)))).
  { destruct xl as [sheets|].
    - apply (steps_world_of _ _ (cleared_world w)
               (only_named_import_data CREATED_BY_ID sheets)).
      split; intros x [].
    - cbn. split; intros x []. }
  destruct (import_data CREATED_BY_ID xl (cleared_world w)) as [[] u|e u];
    exact G.
Qed.

(** ** The reference data renewed does not depend on the old *)

Lemma agree_org_import_data xl : agree (org_import_data xl).
Proof.
  unfold_org. unfold resolve_department, insert_department_if_absent,
    insert_job_position_if_absent.
  agree_rules.
Qed.

(** X23: the departments and job positions that the renewing script leaves
    do not depend on those it found: from two stores that hold the same
    macros and documents at the same id counter and clock, whatever their
    departments, job positions and consoles, it ends the same way and
    leaves the same departments and job positions. *)
Theorem clean_and_import_forgets (xl : option Workbook) (w1 w2 : World) :
  macros w1 = macros w2 -> documents w1 = documents w2 ->
  next_id w1 = next_id w2 -> clock w1 = clock w2 ->
  same_ending (clean_and_import xl w1) (clean_and_import xl w2)
  /\ departments (world_of (clean_and_import xl w1))
     = departments (world_of (clean_and_import xl w2))
  /\ job_positions (world_of (clean_and_import xl w1))
     = job_positions (world_of (clean_and_import xl w2)).
Proof.
  intros Hm Hd Hn Hc. rewrite !clean_and_import_run.
  assert (S : same_store (org_cleared_world w1) (org_cleared_world w2)).
  { unfold same_store, org_cleared_world. cbn. repeat split; assumption. }
  pose proof (agree_org_import_data xl _ _ S) as A.
  unfold same_ending.
  destruct (org_import_data xl (org_cleared_world w1)) as [a u1|e u1],
           (org_import_data xl (org_cleared_world w2)) as [b u2|e' u2];
    try contradiction; cbn [world_of];
    destruct A as (E & _ & Ed & Ej & _); repeat split; assumption.
Qed.

Lemma clean_and_import_forgets_witness :
  same_ending (clean_and_import one_sheet_workbook empty_world)
              (clean_and_import one_sheet_workbook
                 (set_departments one_department empty_world))
  /\ departments (world_of (clean_and_import one_sheet_workbook empty_world))
     = departments
         (world_of (clean_and_import one_sheet_workbook
                      (set_departments one_department empty_world)))
  /\ job_positions
       (world_of (clean_and_import one_sheet_workbook empty_world))
     = job_positions
         (world_of (clean_and_import one_sheet_workbook
                      (set_departments one_department empty_world))).
Proof.
  apply (clean_and_import_forgets one_sheet_workbook empty_world
           (set_departments one_department empty_world)); reflexivity.
Defined.

(** ** Nothing but what the workbook says *)

Section FromWorkbook.

Variable CREATED_BY_ID : ObjectId.
Variable sheets : list Sheet.

(** [m] carries the code, name and description read from a sheet. *)
Definition macro_of_sheet (m : Macro) : Prop :=
  exists sh code name desc,
    In sh sheets
    /\ macro_info sh = Some (code, name, desc)
    /\ m_code m = code /\ m_name m = name /\ m_description m = desc
    /\ m_short_description m = short_description desc
    /\ m_created_by m = CREATED_BY_ID.

(** [d] carries the title, description and directions of a data row with a
    non-empty title cell, and the fixed fields of a new process. *)
Definition doc_of_row (d : Document) : Prop :=
  exists sh h row,
    In sh sheets
    /\ header_scan (sheet_frame sh) 0 10 = inr (Some h)
    /\ In row (skipn (S h) (sheet_frame sh))
    /\ doc_title d <> ""
    /\ doc_title d
       = row_title (sheet_frame sh)
                   (build_col_map (nth h (sheet_frame sh) [])) row
    /\ doc_description d
       = row_desc (sheet_frame sh)
                  (build_col_map (nth h (sheet_frame sh) [])) row
    /\ doc_stakeholders d
       = candidate_names
           (row_directions (sheet_frame sh)
              (build_col_map (nth h (sheet_frame sh) [])) row)
    /\ implicated_actors (doc_metadata d) = doc_stakeholders d
    /\ doc_status d = "draft" /\ doc_version d = "1.0"
    /\ doc_is_active d = true
    /\ doc_created_by d = CREATED_BY_ID.

Definition from_workbook (w : World) : Prop :=
  (forall m, In m (macros w) -> macro_of_sheet m)
  /\ (forall d, In d (documents w) -> doc_of_row d).

Lemma from_workbook_same (w w' : World) :
  macros w' = macros w -> documents w' = documents w ->
  from_workbook w -> from_workbook w'.
Proof. unfold from_workbook. now intros -> ->. Qed.

Lemma from_workbook_now : steps (maintains from_workbook) now.
Proof. prim_step. unfold maintains. now apply from_workbook_same. Qed.

Lemma from_workbook_print s : steps (maintains from_workbook) (print s).
Proof. prim_step. unfold maintains. now apply from_workbook_same. Qed.

Lemma from_workbook_set_document_tasks i ts :
  steps (maintains from_workbook) (set_document_tasks i ts).
Proof.
  intros w. unfold set_document_tasks, modify, maintains.
  intros [Hm Hd]. split; [exact Hm|].
  intros d Hin. cbn [documents set_documents] in Hin.
  apply in_update_first in Hin. destruct Hin as [Hin|(x & Hx & ->)].
  - now apply Hd.
  - exact (Hd x Hx).
Qed.

Lemma from_workbook_flushed (st : Walk) (w : World) :
  from_workbook w -> from_workbook (flushed st w).
Proof.
  intros H. unfold flushed. destruct (current_process_doc st) as [d|];
    [|exact H].
  exact (from_workbook_set_document_tasks (doc_id d) (current_tasks st) w H).
Qed.

Lemma from_workbook_started mid code t desc dirs (st : Walk) (w : World) :
  (forall i ref t1 t2,
      doc_of_row (doc_with_id i
                    (make_doc_data CREATED_BY_ID mid ref t desc
                                   (candidate_names dirs) t1 t2))) ->
  from_workbook w ->
  from_workbook (started_world CREATED_BY_ID mid code t desc dirs st w).
Proof.
  intros Hnew H. unfold started_world. cbv zeta.
  apply (from_workbook_flushed st) in H.
  destruct (resolve_all_docs_kept (candidate_names dirs) (flushed st w))
    as ([Ed _] & _ & Em).
  set (w2 := resolve_all (candidate_names dirs) (flushed st w)) in *.
  assert (H2 : from_workbook w2) by now apply (from_workbook_same _ _ Em Ed).
  destruct H2 as [Hm Hd]. unfold upserted_world, upsert, new_doc_data.
  destruct (existsb _ (documents w2)); (split; [exact Hm|]);
    intros d Hin; cbn [documents] in Hin.
  - apply in_update_first in Hin. destruct Hin as [Hin|(x & Hx & ->)].
    + now apply Hd.
    + apply Hnew.
  - apply in_app_or in Hin. destruct Hin as [Hin|[<-|[]]].
    + now apply Hd.
    + apply Hnew.
Qed.

Lemma from_workbook_process_row sh h mid code row st :
  In sh sheets ->
  header_scan (sheet_frame sh) 0 10 = inr (Some h) ->
  In row (skipn (S h) (sheet_frame sh)) ->
  steps (maintains from_workbook)
        (process_row CREATED_BY_ID (sheet_frame sh)
                     (build_col_map (nth h (sheet_frame sh) []))
                     mid code row st).
Proof.
  intros Hsh Hs Hrow w. rewrite process_row_run. cbv zeta.
  set (df := sheet_frame sh) in *. set (cm := build_col_map (nth h df [])).
  assert (G : maintains from_workbook w
                (if opens df cm row st
                 then started_world CREATED_BY_ID mid code
                        (row_title df cm row) (row_desc df cm row)
                        (row_directions df cm row) st w
                 else w)).
  { unfold maintains. destruct (opens df cm row st) eqn:O; [|auto].
    apply from_workbook_started. intros i ref t1 t2.
    exists sh, h, row. unfold opens in O. apply andb_prop in O.
    destruct O as [O _]. apply negb_true_iff, is_empty_false in O.
    repeat split; auto. }
  destruct (is_empty (row_tasks df cm row)); [exact G|].
  match goal with
  | |- match (match ?x with _ => _ end) with _ => _ end => destruct x
  end; exact G.
Qed.

Lemma from_workbook_import_details sh mid code totals :
  In sh sheets ->
  steps (maintains from_workbook)
        (import_details CREATED_BY_ID sh mid code totals).
Proof.
  intros Hsh w. unfold import_details. cbv zeta.
  pose proof (find_header_row_run (sheet_frame sh) w) as Hf.
  destruct (header_scan (sheet_frame sh) 0 10) as [e|[h|]] eqn:Hs.
  - rewrite (bind_raised _ _ _ _ _ Hf). unfold maintains. auto.
  - rewrite (bind_ok _ _ _ _ _ Hf).
    assert (R : steps (maintains from_workbook)
                      (import_rows CREATED_BY_ID (sheet_frame sh) h mid
                                   code totals)).
    { unfold import_rows. cbv zeta.
      apply steps_bind; [typeclasses eauto| |].
      - apply steps_for_each; [typeclasses eauto|]. intros row st Hrow.
        now apply from_workbook_process_row.
      - intros st. pose proof from_workbook_set_document_tasks.
        pose proof from_workbook_print.
        unfold flush_tasks. below_rules. }
    exact (R w).
  - rewrite (bind_ok _ _ _ _ _ Hf). exact (from_workbook_print _ w).
Qed.

Lemma from_workbook_import_sheet sh totals :
  In sh sheets ->
  steps (maintains from_workbook) (import_sheet CREATED_BY_ID sh totals).
Proof.
  intros Hsh w. destruct (macro_info sh) as [[[code name] desc]|] eqn:Hi.
  - rewrite (import_sheet_run _ _ _ _ _ _ _ Hi).
    pose proof (from_workbook_import_details sh (macro_id_for code w) code
                  totals Hsh
                  (macro_upserted CREATED_BY_ID sh code name desc w)) as H.
    assert (U : from_workbook w ->
                from_workbook
                  (macro_upserted CREATED_BY_ID sh code name desc w)).
    { intros [Hm Hd]. split.
      - rewrite macros_macro_upserted. unfold macros_upserted, upsert.
        assert (Hnew : forall i,
                   macro_of_sheet
                     (macro_with_id i
                        (make_macro_doc CREATED_BY_ID code name desc
                                        (clock w) (S (clock w))))).
        { intros i. exists sh, code, name, desc. now repeat split. }
        destruct (existsb _ (macros w)); cbn [fst]; intros m Hin.
        + apply in_update_first in Hin. destruct Hin as [Hin|(x & Hx & ->)];
            [now apply Hm|apply Hnew].
        + apply in_app_or in Hin. destruct Hin as [Hin|[<-|[]]];
            [now apply Hm|apply Hnew].
      - unfold macro_upserted. destruct (macros_upserted _ _ _ _ w).
        exact Hd. }
    revert H. destruct (import_details _ _ _ _ _ _); unfold maintains;
      intros H R; now apply H, U.
  - rewrite (import_sheet_unreadable _ _ _ _ Hi). unfold maintains. auto.
Qed.

Lemma from_workbook_import_data :
  steps (maintains from_workbook) (import_data CREATED_BY_ID (Some sheets)).
Proof.
  unfold import_data.
  apply steps_bind; [typeclasses eauto|apply from_workbook_print|].
  intros _. apply steps_bind; [typeclasses eauto| |].
  - apply steps_for_each; [typeclasses eauto|]. intros sh s Hin.
    now apply from_workbook_import_sheet.
  - intros totals. pose proof from_workbook_print. below_rules.
Qed.

End FromWorkbook.

(** X24: a full repopulation records nothing but what the workbook says,
    however it ends.  Each macro of the store carries the code, the name
    and the description read from one of the sheets, and the short
    description made from that description; each document carries the
    title, the description and the directions of one data row with a
    non-empty title cell, below the header row of one of the sheets, is a
    draft of version 1.0 and lists its stakeholders as the actors
    implicated. *)
Theorem full_repopulate_from_workbook (CREATED_BY_ID : ObjectId)
    (str_exn : Exn -> string) (sheets : list Sheet) (w : World) :
  let u := world_of (full_repopulate CREATED_BY_ID str_exn (Some sheets) w) in
  (forall m, In m (macros u) -> macro_of_sheet CREATED_BY_ID sheets m)
  /\ (forall d, In d (documents u) -> doc_of_row CREATED_BY_ID sheets d).
Proof.
  cbv zeta. rewrite full_repopulate_run.
  pose proof (steps_world_of _ _ (cleared_world w)
                (from_workbook_import_data CREATED_BY_ID sheets)) as H.
  assert (H0 : from_workbook CREATED_BY_ID sheets (cleared_world w))
    by (split; intros x []).
  specialize (H H0). revert H.
  destruct (import_data CREATED_BY_ID (Some sheets) (cleared_world w))
    as [[] u|e u]; intros H; exact H.
Qed.
